(** * Hyper boot loader: the Ultra protocol front end (loader/protocols/ultra.c)

    A shallow embedding of the protocol loader: the typed configuration
    lookups it relies on, the video-mode picker, the page-table builder,
    the stack picker, the attribute-array builder with its allocation
    loop, and the final hand-over sequence.  Firmware services are
    parameters; fatal errors ([oops], [BUG_ON]) are results of an error
    monad, as is reaching a point where the C program has no defined
    behaviour; every allocator and firmware call leaves an event in a
    trace. *)

From Stdlib Require Import ZArith List String Ascii Bool Lia.
From Stdlib Require Import DecimalString.
From Stdlib Require Import Sorted Permutation.
Import ListNotations.
Local Open Scope Z_scope.

(** ** Machine integers *)

Module Word.

Definition wrap (bits x : Z) : Z := x mod 2 ^ bits.

Definition u16 (x : Z) : Z := wrap 16 x.
Definition u32 (x : Z) : Z := wrap 32 x.
Definition u64 (x : Z) : Z := wrap 64 x.

End Word.
Import Word.

(** common/helpers.h:
    [#define CEILING_DIVIDE(x, y) (!!(x) + (((x) - !!(x)) / (y)))] *)
Definition CEILING_DIVIDE (x y : Z) : Z :=
  let nz := if x =? 0 then 0 else 1 in
  nz + (x - nz) / y.

Definition KB : Z := 1024.
Definition MB : Z := 1024 * KB.
Definition GB : Z := 1024 * MB.
Definition PAGE_SIZE : Z := 4096.

(** ** Protocol and platform constants

    [ultra_protocol.h] and [common/constants.h] are not part of the
    sources at hand; what [ultra.c] takes from them (type tags, structure
    sizes, the two higher-half bases, the width of [size_t]) is collected
    in one interface. *)

Class ultra_abi : Type := {
  size_t_bits : Z;
  HUGE_PAGE_SIZE : Z;
  DIRECT_MAP_BASE : Z;
  HIGHER_HALF_BASE : Z;
  ULTRA_MAGIC : Z;
  ULTRA_MEMORY_TYPE_RESERVED : Z;
  ULTRA_MEMORY_TYPE_NVS : Z;
  ULTRA_MEMORY_TYPE_LOADER_RECLAIMABLE : Z;
  ULTRA_MEMORY_TYPE_MODULE : Z;
  ULTRA_MEMORY_TYPE_KERNEL_STACK : Z;
  ULTRA_MEMORY_TYPE_KERNEL_BINARY : Z;
  sizeof_ultra_platform_info_attribute : Z;
  sizeof_ultra_kernel_info_attribute : Z;
  sizeof_ultra_module_info_attribute : Z;
  sizeof_ultra_command_line_attribute : Z;
  sizeof_ultra_framebuffer_attribute : Z;
  sizeof_ultra_memory_map_attribute : Z;
  sizeof_ultra_memory_map_entry : Z;
  sizeof_path_on_disk : Z;
  sizeof_module_name : Z
}.

(** [struct ultra_attribute_header { u32 type; u32 size_in_bytes; }] *)
Definition sizeof_ultra_attribute_header : Z := 8.
Definition sizeof_uint32_t : Z := 4.
Definition sizeof_uint64_t : Z := 8.

Definition size_t `{ultra_abi} (x : Z) : Z := wrap size_t_bits x.

(** ** Memory-map entries *)

(** The loader's own entry, as the firmware back end reports it. *)
Record memory_map_entry : Type := {
  physical_address : Z;
  size_in_bytes : Z;
  type : Z
}.

(** The protocol's entry, as written into the attribute array. *)
Record ultra_memory_map_entry : Type := {
  ue_physical_address : Z;
  ue_size_in_bytes : Z;
  ue_type : Z
}.

Section MemoryMapConvert.
Context `{ultra_abi}.

Definition ultra_memory_map_entry_convert (entry : memory_map_entry)
  : ultra_memory_map_entry :=
  {| ue_physical_address := physical_address entry;
     ue_size_in_bytes := size_in_bytes entry;
     ue_type :=
       (* Direct mapping *)
       if (type entry <=? ULTRA_MEMORY_TYPE_NVS)
          || (ULTRA_MEMORY_TYPE_LOADER_RECLAIMABLE <=? type entry)
       then type entry
       else ULTRA_MEMORY_TYPE_RESERVED |}.

End MemoryMapConvert.

(** ** The protocol's attribute records (ultra_protocol.h, by their use) *)

Inductive ultra_attribute_type : Type :=
| ULTRA_ATTRIBUTE_INVALID
| ULTRA_ATTRIBUTE_PLATFORM_INFO
| ULTRA_ATTRIBUTE_KERNEL_INFO
| ULTRA_ATTRIBUTE_MODULE_INFO
| ULTRA_ATTRIBUTE_COMMAND_LINE
| ULTRA_ATTRIBUTE_FRAMEBUFFER_INFO
| ULTRA_ATTRIBUTE_MEMORY_MAP.

Record ultra_attribute_header : Type := {
  ah_type : ultra_attribute_type;
  ah_size_in_bytes : Z
}.

Inductive ultra_platform_type : Type :=
| ULTRA_PLATFORM_INVALID
| ULTRA_PLATFORM_BIOS
| ULTRA_PLATFORM_UEFI.

Inductive service_provider : Type :=
| SERVICE_PROVIDER_INVALID
| SERVICE_PROVIDER_BIOS
| SERVICE_PROVIDER_UEFI.

Record ultra_platform_info_attribute : Type := {
  pi_header : ultra_attribute_header;
  pi_platform_type : ultra_platform_type;
  pi_loader_major : Z;
  pi_loader_minor : Z;
  pi_acpi_rsdp_address : Z;
  pi_loader_name : string
}.

Record ultra_kernel_info_attribute : Type := {
  ka_header : ultra_attribute_header;
  ka_physical_base : Z;
  ka_virtual_base : Z;
  ka_range_length : Z;
  ka_partition_type : Z;
  ka_partition_index : Z;
  ka_disk_guid : Z;
  ka_partition_guid : Z;
  ka_path_on_disk : string
}.

Record ultra_module_info_attribute : Type := {
  mi_header : ultra_attribute_header;
  mi_name : string;
  mi_physical_address : Z;
  mi_length : Z
}.

Record ultra_framebuffer : Type := {
  fb_width : Z;
  fb_height : Z;
  fb_pitch : Z;
  fb_bpp : Z;
  fb_format : Z;
  fb_physical_address : Z
}.

(** One record of the attribute array.  A slot of the module array that
    was never written (or only partly copied) is [IndeterminateAttr]. *)
Inductive ultra_attribute : Type :=
| PlatformInfoAttr (a : ultra_platform_info_attribute)
| KernelInfoAttr (a : ultra_kernel_info_attribute)
| ModuleInfoAttr (a : ultra_module_info_attribute)
| CommandLineAttr (header : ultra_attribute_header) (text : string)
| FramebufferAttr (header : ultra_attribute_header) (fb : ultra_framebuffer)
| MemoryMapAttr (header : ultra_attribute_header)
                (entries : list ultra_memory_map_entry)
| IndeterminateAttr.

Definition attribute_header (a : ultra_attribute) : option ultra_attribute_header :=
  match a with
  | PlatformInfoAttr a => Some (pi_header a)
  | KernelInfoAttr a => Some (ka_header a)
  | ModuleInfoAttr a => Some (mi_header a)
  | CommandLineAttr h _ => Some h
  | FramebufferAttr h _ => Some h
  | MemoryMapAttr h _ => Some h
  | IndeterminateAttr => None
  end.

Definition attribute_type (a : ultra_attribute) : ultra_attribute_type :=
  match attribute_header a with
  | Some h => ah_type h
  | None => ULTRA_ATTRIBUTE_INVALID
  end.

(** The region at [attribute_array_address]: the 32-bit count that
    follows the 32-bit pad, and the records in the order they were
    written, each with the byte offset ([attr_ptr]) it was written at. *)
Record attribute_array : Type := {
  aa_address : Z;
  aa_attribute_count : Z;
  aa_records : list (Z * ultra_attribute)
}.

(** ** Firmware services and the loader's world *)

Inductive event : Type :=
| EvCopyMap (into_buffer : bool) (capacity count key : Z)
| EvAllocatePages (count type address : Z)
| EvAllocatePagesAt (address count type : Z)
| EvAllocateBytes (bytes address : Z)
| EvFreePages (address count : Z)
| EvFreeBytes (address bytes : Z)
| EvMemzero (address bytes : Z)
| EvSetMode (id : Z)
| EvHandover (key : Z)
| EvPrintInfo (message : string)
| EvKernelHandover32 (entrypoint stack attribute_array magic : Z)
| EvKernelHandover64 (entrypoint stack page_table attribute_array magic : Z).

Definition is_allocator_event (e : event) : bool :=
  match e with
  | EvAllocatePages _ _ _ | EvAllocatePagesAt _ _ _ | EvAllocateBytes _ _
  | EvFreePages _ _ | EvFreeBytes _ _ => true
  | _ => false
  end.

Definition is_jump_event (e : event) : bool :=
  match e with
  | EvKernelHandover32 _ _ _ _ | EvKernelHandover64 _ _ _ _ _ => true
  | _ => false
  end.

(** [struct memory_services], over an abstract firmware state [FW]:
    every allocation and release may change the firmware's memory map. *)
Record memory_services (FW : Type) : Type := {
  ms_allocate_pages : Z -> Z -> FW -> option Z * FW;
  ms_allocate_pages_at : Z -> Z -> Z -> FW -> bool * FW;
  ms_free_pages : Z -> Z -> FW -> FW;
  ms_memory_map : FW -> list memory_map_entry;
  ms_map_key : FW -> Z;
  ms_handover : Z -> FW -> bool * FW
}.
Arguments ms_allocate_pages {FW}.
Arguments ms_allocate_pages_at {FW}.
Arguments ms_free_pages {FW}.
Arguments ms_memory_map {FW}.
Arguments ms_map_key {FW}.
Arguments ms_handover {FW}.

Record world (FW : Type) : Type := {
  w_fw : FW;
  w_trace : list event;
  w_module_idx : Z;
  w_attribute_array : option attribute_array
}.
Arguments w_fw {FW}.
Arguments w_trace {FW}.
Arguments w_module_idx {FW}.
Arguments w_attribute_array {FW}.

(** ** The loader monad: state passing with fatal halts *)

Inductive result (A : Type) : Type :=
| Ok (a : A)
| Oops (reason : string)
| Bug (reason : string)
| OutOfFuel
| Undefined (what : string).
Arguments Ok {A}.
Arguments Oops {A}.
Arguments Bug {A}.
Arguments OutOfFuel {A}.
Arguments Undefined {A}.

Definition M (FW A : Type) : Type := world FW -> result (A * world FW).

Definition ret {FW A} (a : A) : M FW A := fun w => Ok (a, w).

Definition bind {FW A B} (m : M FW A) (f : A -> M FW B) : M FW B :=
  fun w =>
    match m w with
    | Ok (a, w') => f a w'
    | Oops r => Oops r
    | Bug r => Bug r
    | OutOfFuel => OutOfFuel
    | Undefined r => Undefined r
    end.

Definition oops {FW A} (reason : string) : M FW A := fun _ => Oops reason.
Definition bug {FW A} (reason : string) : M FW A := fun _ => Bug reason.
Definition out_of_fuel {FW A} : M FW A := fun _ => OutOfFuel.

(** The C program has no defined behaviour from here on (a null pointer
    is dereferenced): the model says nothing of what follows. *)
Definition undefined {FW A} (what : string) : M FW A := fun _ => Undefined what.

(** [BUG_ON(cond)] *)
Definition BUG_ON {FW} (cond : bool) (what : string) : M FW unit :=
  if cond then bug what else ret tt.

Declare Scope loader_scope.
Delimit Scope loader_scope with loader.
Notation "x <- c1 ;; c2" := (bind c1 (fun x => c2))
  (at level 61, c1 at next level, right associativity) : loader_scope.
Notation "' pat <- c1 ;; c2" :=
  (bind c1 (fun x => match x with pat => c2 end))
  (at level 61, pat pattern, c1 at next level, right associativity) : loader_scope.
Notation "c1 ;; c2" := (bind c1 (fun _ => c2))
  (at level 61, right associativity) : loader_scope.

Definition lift_result {FW A} (r : result A) : M FW A :=
  fun w =>
    match r with
    | Ok a => Ok (a, w)
    | Oops s => Oops s
    | Bug s => Bug s
    | OutOfFuel => OutOfFuel
    | Undefined s => Undefined s
    end.

Definition emit {FW} (e : event) : M FW unit :=
  fun w => Ok (tt, {| w_fw := w_fw w;
                      w_trace := w_trace w ++ [e];
                      w_module_idx := w_module_idx w;
                      w_attribute_array := w_attribute_array w |}).

Definition with_fw {FW A} (f : FW -> A * FW) : M FW A :=
  fun w => let (a, fw') := f (w_fw w) in
           Ok (a, {| w_fw := fw';
                     w_trace := w_trace w;
                     w_module_idx := w_module_idx w;
                     w_attribute_array := w_attribute_array w |}).

Definition print_info {FW} (message : string) : M FW unit :=
  emit (EvPrintInfo message).

Definition modify_attribute_array {FW}
  (f : attribute_array -> attribute_array) : M FW unit :=
  fun w => Ok (tt, {| w_fw := w_fw w;
                      w_trace := w_trace w;
                      w_module_idx := w_module_idx w;
                      w_attribute_array := option_map f (w_attribute_array w) |}).

(** ** Allocator facade and memory-map copies *)

Section Allocator.
Context `{ultra_abi} {FW : Type} (ms : memory_services FW).

(** Modelled from the spec: [allocator.c] is absent.  A critical
    allocation forwards to the firmware back end and halts when the back
    end fails; pages without an explicit type are loader-reclaimable;
    byte allocations round up to whole pages. *)
Definition allocate_critical_pages_with_type (count type : Z) : M FW Z :=
  (r <- with_fw (ms_allocate_pages ms count type);;
   match r with
   | Some address => emit (EvAllocatePages count type address);; ret address
   | None => oops "failed to satisfy a critical allocation"
   end)%loader.

Definition allocate_critical_pages (count : Z) : M FW Z :=
  allocate_critical_pages_with_type count ULTRA_MEMORY_TYPE_LOADER_RECLAIMABLE.

Definition allocate_critical_pages_with_type_at (address count type : Z)
  : M FW unit :=
  (ok <- with_fw (ms_allocate_pages_at ms address count type);;
   if ok : bool then emit (EvAllocatePagesAt address count type)
   else oops "failed to satisfy a critical allocation")%loader.

Definition allocate_critical_bytes (bytes : Z) : M FW Z :=
  (r <- with_fw (ms_allocate_pages ms (CEILING_DIVIDE bytes PAGE_SIZE)
                   ULTRA_MEMORY_TYPE_LOADER_RECLAIMABLE);;
   match r with
   | Some address => emit (EvAllocateBytes bytes address);; ret address
   | None => oops "failed to satisfy a critical allocation"
   end)%loader.

Definition free_pages (address count : Z) : M FW unit :=
  (with_fw (fun fw => (tt, ms_free_pages ms address count fw));;
   emit (EvFreePages address count))%loader.

Definition free_bytes (address bytes : Z) : M FW unit :=
  (with_fw (fun fw => (tt, ms_free_pages ms address
                             (CEILING_DIVIDE bytes PAGE_SIZE) fw));;
   emit (EvFreeBytes address bytes))%loader.

(** Modelled from the spec: the back end's [copy_map(buf, capacity,
    stride, &key, convert)] returns the entry count of the current map
    and the key bound to it; with a buffer it stores the converted
    entries, at most [capacity] of them.  [convert = None] is the size
    query [copy_map(NULL, 0, 0, &key, NULL)]. *)
Definition copy_map {E : Type} (capacity stride : Z)
  (convert : option (memory_map_entry -> E)) : M FW (Z * Z * list E) :=
  fun w =>
    let map := ms_memory_map ms (w_fw w) in
    let count := size_t (Z.of_nat (List.length map)) in
    let key := ms_map_key ms (w_fw w) in
    let written :=
      match convert with
      | Some f => firstn (Z.to_nat capacity) (List.map f map)
      | None => []
      end in
    let into_buffer := match convert with Some _ => true | None => false end in
    bind (emit (EvCopyMap into_buffer capacity count key))
         (fun _ => ret (count, key, written)) w.

(** [memzero] of the freshly allocated region: the attribute array at
    that address now reads as all zeroes. *)
Definition memzero_attribute_array (address bytes : Z) : M FW unit :=
  fun w => Ok (tt, {| w_fw := w_fw w;
                      w_trace := w_trace w ++ [EvMemzero address bytes];
                      w_module_idx := w_module_idx w;
                      w_attribute_array :=
                        Some {| aa_address := address;
                                aa_attribute_count := 0;
                                aa_records := [] |} |}).

End Allocator.

(** ** Structures of ultra.c *)

Record full_path : Type := {
  disk_guid : Z;
  partition_guid : Z;
  partition_id_type : Z;
  partition_index : Z;
  path_within_partition : string
}.

Record binary_options : Type := {
  path : full_path;
  allocate_anywhere : bool
}.

(** [struct binary_info], the ELF loader's result. *)
Record binary_info : Type := {
  entrypoint_address : Z;
  virtual_base : Z;
  physical_base : Z;
  physical_ceiling : Z;
  bitness : Z;
  kernel_range_is_direct_map : bool
}.

Record kernel_info : Type := {
  bin_opts : binary_options;
  bin_info : binary_info
}.

Record attribute_array_spec : Type := {
  fb_present : bool;
  cmdline_present : bool;
  fb : ultra_framebuffer;
  cmdline : string;
  kern_info : kernel_info;
  modules : list (option ultra_module_info_attribute);
  module_count : Z;
  stack_address : Z;
  acpi_rsdp_address : Z
}.

Record handover_info : Type := {
  memory_map_handover_key : Z;
  attribute_array_address : Z
}.

Definition LOAD_NAME_STRING : string := "HyperLoader v0.1".

Definition sv_size (s : string) : Z := Z.of_nat (String.length s).

Definition b2z (b : bool) : Z := if b then 1 else 0.

Definition module_slot (m : option ultra_module_info_attribute) : ultra_attribute :=
  match m with
  | Some a => ModuleInfoAttr a
  | None => IndeterminateAttr
  end.

(** ** The attribute-array builder *)

Section BuildAttributeArray.
Context `{ultra_abi} {FW : Type} (ms : memory_services FW).

Definition write_attribute (attr_ptr : Z) (a : ultra_attribute) : M FW unit :=
  modify_attribute_array (fun aa =>
    {| aa_address := aa_address aa;
       aa_attribute_count := aa_attribute_count aa;
       aa_records := aa_records aa ++ [(attr_ptr, a)] |}).

Definition write_attributes (l : list (Z * ultra_attribute)) : M FW unit :=
  modify_attribute_array (fun aa =>
    {| aa_address := aa_address aa;
       aa_attribute_count := aa_attribute_count aa;
       aa_records := aa_records aa ++ l |}).

(** [*attr_count = v] and [*attr_count += n] on the [uint32_t] count. *)
Definition set_attr_count (v : Z) : M FW unit :=
  modify_attribute_array (fun aa =>
    {| aa_address := aa_address aa;
       aa_attribute_count := u32 v;
       aa_records := aa_records aa |}).

Definition add_attr_count (n : Z) : M FW unit :=
  modify_attribute_array (fun aa =>
    {| aa_address := aa_address aa;
       aa_attribute_count := u32 (aa_attribute_count aa + n);
       aa_records := aa_records aa |}).

(** The entries [copy_map] stores right behind the memory-map header
    that was written at [header_ptr]. *)
Definition store_memory_map_entries (header_ptr : Z)
  (entries : list ultra_memory_map_entry) : M FW unit :=
  modify_attribute_array (fun aa =>
    {| aa_address := aa_address aa;
       aa_attribute_count := aa_attribute_count aa;
       aa_records :=
         List.map (fun r : Z * ultra_attribute =>
                     match r with
                     | (p, MemoryMapAttr h _) =>
                         if p =? header_ptr then (p, MemoryMapAttr h entries) else r
                     | _ => r
                     end) (aa_records aa) |}).

Definition create_kernel_info_attribute (ki : kernel_info)
  : result ultra_kernel_info_attribute :=
  let path_str := path_within_partition (path (bin_opts ki)) in
  if sv_size path_str >? sizeof_path_on_disk - 1
  then Bug "path_str.size > (sizeof(attr->path_on_disk) - 1)"
  else Ok
    {| ka_header :=
         {| ah_type := ULTRA_ATTRIBUTE_KERNEL_INFO;
            ah_size_in_bytes := sizeof_ultra_kernel_info_attribute |};
       ka_physical_base := physical_base (bin_info ki);
       ka_virtual_base := virtual_base (bin_info ki);
       ka_range_length :=
         u64 (physical_ceiling (bin_info ki) - physical_base (bin_info ki));
       ka_partition_type := partition_id_type (path (bin_opts ki));
       ka_partition_index := partition_index (path (bin_opts ki));
       ka_disk_guid := disk_guid (path (bin_opts ki));
       ka_partition_guid := partition_guid (path (bin_opts ki));
       ka_path_on_disk := path_str |}.

Definition cmdline_aligned_length_of (spec : attribute_array_spec) : Z :=
  let cmdline_aligned_length := 0 in
  if cmdline_present spec then
    let cmdline_aligned_length :=
      u32 (cmdline_aligned_length + sizeof_ultra_attribute_header) in
    let cmdline_aligned_length :=
      u32 (cmdline_aligned_length + size_t (sv_size (cmdline spec) + 1)) in
    let remainder := cmdline_aligned_length mod 8 in
    if remainder =? 0 then cmdline_aligned_length
    else u32 (cmdline_aligned_length + (8 - remainder))
  else cmdline_aligned_length.

Definition bytes_needed_of (spec : attribute_array_spec) : Z :=
  let bytes_needed := 0 in
  let bytes_needed := size_t (bytes_needed + sizeof_uint64_t) in
  let bytes_needed := size_t (bytes_needed + sizeof_ultra_platform_info_attribute) in
  let bytes_needed := size_t (bytes_needed + sizeof_ultra_kernel_info_attribute) in
  let bytes_needed :=
    size_t (bytes_needed
            + size_t (module_count spec * sizeof_ultra_module_info_attribute)) in
  let bytes_needed := size_t (bytes_needed + cmdline_aligned_length_of spec) in
  let bytes_needed :=
    size_t (bytes_needed
            + size_t (b2z (fb_present spec) * sizeof_ultra_framebuffer_attribute)) in
  bytes_needed.

(** The [for (;;)] loop: attempt to allocate the storage for the
    attribute array while having enough space for the memory map, which
    changes every time memory is allocated or freed.  Returns
    [memory_map_reserved_size] and [hi->attribute_array_address]. *)
Fixpoint allocate_attribute_array (fuel : nat) (bytes_needed : Z)
  : M FW (Z * Z) :=
  match fuel with
  | O => out_of_fuel
  | S fuel' =>
    ('(n, _, _) <- copy_map ms (E:=unit) 0 0 None;;
     (* Add 1 to give some leeway for memory map growth *)
     let memory_map_reserved_size := size_t (n + 1) in
     let bytes_for_this_allocation :=
       size_t (bytes_needed
               + size_t (memory_map_reserved_size * sizeof_ultra_memory_map_entry)) in
     p <- allocate_critical_bytes ms bytes_for_this_allocation;;
     let attribute_array_address := u32 p in
     (* Check if memory map had to grow to store the previous allocation *)
     '(memory_map_size_new, _, _) <- copy_map ms (E:=unit) 0 0 None;;
     if memory_map_reserved_size >=? memory_map_size_new then
       memzero_attribute_array attribute_array_address bytes_for_this_allocation;;
       ret (memory_map_reserved_size, attribute_array_address)
     else
       free_bytes ms attribute_array_address bytes_for_this_allocation;;
       allocate_attribute_array fuel' bytes_needed)%loader
  end.

Definition copied_modules (attr_ptr : Z) (spec : attribute_array_spec)
  : list (Z * ultra_attribute) :=
  List.map (fun i : nat =>
              (attr_ptr + Z.of_nat i * sizeof_ultra_module_info_attribute,
               module_slot (nth i (modules spec) None)))
           (seq 0 (Z.to_nat (module_count spec))).

Definition build_attribute_array (fuel : nat) (spec : attribute_array_spec)
  (sp : service_provider) : M FW handover_info :=
  let loader_name_str := LOAD_NAME_STRING in
  let cmdline_aligned_length := cmdline_aligned_length_of spec in
  let bytes_needed := bytes_needed_of spec in
  ('(memory_map_reserved_size, attribute_array_address) <-
      allocate_attribute_array fuel bytes_needed;;
   let attr_ptr := attribute_array_address in
   let attr_ptr := attr_ptr + sizeof_uint32_t in
   let attr_ptr := attr_ptr + sizeof_uint32_t in
   set_attr_count 0;;
   write_attribute attr_ptr (PlatformInfoAttr
     {| pi_header :=
          {| ah_type := ULTRA_ATTRIBUTE_PLATFORM_INFO;
             ah_size_in_bytes := sizeof_ultra_platform_info_attribute |};
        pi_platform_type :=
          match sp with
          | SERVICE_PROVIDER_BIOS => ULTRA_PLATFORM_BIOS
          | _ => ULTRA_PLATFORM_UEFI
          end;
        pi_loader_major := 0;
        pi_loader_minor := 1;
        pi_acpi_rsdp_address := acpi_rsdp_address spec;
        pi_loader_name := loader_name_str |});;
   let attr_ptr := attr_ptr + sizeof_ultra_platform_info_attribute in
   add_attr_count 1;;
   ka <- lift_result (create_kernel_info_attribute (kern_info spec));;
   write_attribute attr_ptr (KernelInfoAttr ka);;
   let attr_ptr := attr_ptr + sizeof_ultra_kernel_info_attribute in
   add_attr_count 1;;
   attr_ptr <-
     (if module_count spec =? 0 then ret attr_ptr
      else
        let bytes_for_modules :=
          size_t (module_count spec * sizeof_ultra_module_info_attribute) in
        write_attributes (copied_modules attr_ptr spec);;
        add_attr_count (module_count spec);;
        ret (attr_ptr + bytes_for_modules));;
   attr_ptr <-
     (if cmdline_present spec then
        write_attribute attr_ptr (CommandLineAttr
          {| ah_type := ULTRA_ATTRIBUTE_COMMAND_LINE;
             ah_size_in_bytes := cmdline_aligned_length |}
          (cmdline spec));;
        add_attr_count 1;;
        ret (attr_ptr + cmdline_aligned_length)
      else ret attr_ptr);;
   attr_ptr <-
     (if fb_present spec then
        write_attribute attr_ptr (FramebufferAttr
          {| ah_type := ULTRA_ATTRIBUTE_FRAMEBUFFER_INFO;
             ah_size_in_bytes := sizeof_ultra_framebuffer_attribute |}
          (fb spec));;
        add_attr_count 1;;
        ret (attr_ptr + sizeof_ultra_framebuffer_attribute)
      else ret attr_ptr);;
   let header_ptr := attr_ptr in
   write_attribute attr_ptr (MemoryMapAttr
     {| ah_type := ULTRA_ATTRIBUTE_MEMORY_MAP;
        ah_size_in_bytes :=
          u32 (size_t (size_t (memory_map_reserved_size
                               * sizeof_ultra_memory_map_entry)
                       + sizeof_ultra_memory_map_attribute)) |} []);;
   let attr_ptr := attr_ptr + sizeof_ultra_attribute_header in
   add_attr_count 1;;
   '(_, key, entries) <-
      copy_map ms memory_map_reserved_size sizeof_ultra_memory_map_entry
               (Some ultra_memory_map_entry_convert);;
   store_memory_map_entries header_ptr entries;;
   ret {| memory_map_handover_key := key;
          attribute_array_address := attribute_array_address |})%loader.

End BuildAttributeArray.

(** ** The configuration store (config.h) *)

Module Config.

(** [enum value_type]: one bit per type, combined into masks. *)
Definition VALUE_NONE : Z := Z.shiftl 1 0.
Definition VALUE_BOOLEAN : Z := Z.shiftl 1 1.
Definition VALUE_UNSIGNED : Z := Z.shiftl 1 2.
Definition VALUE_SIGNED : Z := Z.shiftl 1 3.
Definition VALUE_STRING : Z := Z.shiftl 1 4.
Definition VALUE_OBJECT : Z := Z.shiftl 1 5.
Definition VALUE_ANY : Z := Z.shiftl 1 6.

(** The payload union of [struct value], tagged by the value's type. *)
Inductive value_data : Type :=
| DNone
| DBool (b : bool)
| DUnsigned (u : Z)
| DSigned (i : Z)
| DString (s : string)
| DObject.

(** [struct value]: [cfg_off] is the entry's offset in the store, which
    for an object is also the scope its keys are looked up in. *)
Record value : Type := {
  data : value_data;
  cfg_off : nat
}.

Definition value_type (v : value) : Z :=
  match data v with
  | DNone => VALUE_NONE
  | DBool _ => VALUE_BOOLEAN
  | DUnsigned _ => VALUE_UNSIGNED
  | DSigned _ => VALUE_SIGNED
  | DString _ => VALUE_STRING
  | DObject => VALUE_OBJECT
  end.

Definition as_bool (v : value) : bool :=
  match data v with DBool b => b | _ => false end.
Definition as_unsigned (v : value) : Z :=
  match data v with DUnsigned u => u | _ => 0 end.
Definition as_signed (v : value) : Z :=
  match data v with DSigned i => i | _ => 0 end.
Definition as_string (v : value) : string :=
  match data v with DString s => s | _ => EmptyString end.

Definition value_is_null (val : value) : bool := value_type val =? VALUE_NONE.
Definition value_is_bool (val : value) : bool := value_type val =? VALUE_BOOLEAN.
Definition value_is_unsigned (val : value) : bool := value_type val =? VALUE_UNSIGNED.
Definition value_is_signed (val : value) : bool := value_type val =? VALUE_SIGNED.
Definition value_is_string (val : value) : bool := value_type val =? VALUE_STRING.
Definition value_is_object (val : value) : bool := value_type val =? VALUE_OBJECT.

Record loadable_entry : Type := {
  name : string;
  le_cfg_off : nat
}.

(** Modelled from the spec: [config.c] is absent.  The store is the flat
    buffer of entries in parse order; the entry at index [i] has offset
    [i + 1], offset 0 denotes the global scope.  The sibling chain of a
    scope is kept as the scope's offset on each of its entries, so the
    chain of a scope is its entries in buffer order. *)
Record config_entry : Type := {
  key : string;
  scope : nat;
  as_value : value_data
}.

Definition config : Type := list config_entry.

(** The siblings of [scope] that carry [key], in source order, from
    buffer offset [from] on. *)
Fixpoint chain_from (buffer : list config_entry) (from : nat)
  (in_scope : nat) (k : string) : list value :=
  match buffer with
  | [] => []
  | e :: rest =>
      if Nat.eqb (scope e) in_scope && String.eqb (key e) k
      then {| data := as_value e; cfg_off := from |}
             :: chain_from rest (S from) in_scope k
      else chain_from rest (S from) in_scope k
  end.

Definition chain (cfg : config) (in_scope : nat) (k : string) : list value :=
  chain_from cfg 1 in_scope k.

Definition type_in_mask (v : value) (mask : Z) : bool :=
  negb (Z.land (value_type v) mask =? 0).

(** Modelled from the spec: absence returns false; a second occurrence of
    a key that must be unique is fatal; an entry of a type outside the
    mask is fatal. *)
Definition _cfg_get_one_of (cfg : config) (offset : nat) (must_be_unique : bool)
  (k : string) (mask : Z) : result (option value) :=
  match chain cfg offset k with
  | [] => Ok None
  | v :: rest =>
      if must_be_unique && negb (Nat.eqb (List.length rest) 0)
      then Oops "duplicate key in the config file"
      else if type_in_mask v mask then Ok (Some v)
      else Oops "unexpected type of a config value"
  end.

Definition get_as {A : Type} (proj : value -> A) (r : result (option value))
  : result (option A) :=
  match r with
  | Ok o => Ok (option_map proj o)
  | Oops s => Oops s
  | Bug s => Bug s
  | OutOfFuel => OutOfFuel
  | Undefined s => Undefined s
  end.

Definition _cfg_get_bool cfg offset must_be_unique k : result (option bool) :=
  get_as as_bool (_cfg_get_one_of cfg offset must_be_unique k VALUE_BOOLEAN).
Definition _cfg_get_unsigned cfg offset must_be_unique k : result (option Z) :=
  get_as as_unsigned (_cfg_get_one_of cfg offset must_be_unique k VALUE_UNSIGNED).
Definition _cfg_get_signed cfg offset must_be_unique k : result (option Z) :=
  get_as as_signed (_cfg_get_one_of cfg offset must_be_unique k VALUE_SIGNED).
Definition _cfg_get_string cfg offset must_be_unique k : result (option string) :=
  get_as as_string (_cfg_get_one_of cfg offset must_be_unique k VALUE_STRING).
Definition _cfg_get_object cfg offset must_be_unique k : result (option value) :=
  _cfg_get_one_of cfg offset must_be_unique k VALUE_OBJECT.

(** Modelled from the spec: the next sibling after [val] with the same
    key; a sibling of a type outside the mask is fatal when
    [oops_on_non_matching_type] is set and is skipped otherwise. *)
Fixpoint next_in_chain (candidates : list value) (mask : Z)
  (oops_on_non_matching_type : bool) : result (option value) :=
  match candidates with
  | [] => Ok None
  | v :: rest =>
      if type_in_mask v mask then Ok (Some v)
      else if oops_on_non_matching_type
           then Oops "unexpected type of a config value"
           else next_in_chain rest mask oops_on_non_matching_type
  end.

Definition cfg_get_next_one_of (cfg : config) (mask : Z) (val : value)
  (oops_on_non_matching_type : bool) : result (option value) :=
  match nth_error cfg (pred (cfg_off val)) with
  | None => Ok None
  | Some e =>
      next_in_chain
        (chain_from (skipn (cfg_off val) cfg) (S (cfg_off val)) (scope e) (key e))
        mask oops_on_non_matching_type
  end.

(** The lookup macros.  [obj] stands for [(obj)->cfg_off]. *)
Definition cfg_get_bool cfg (obj : nat) k := _cfg_get_bool cfg obj true k.
Definition cfg_get_signed cfg (obj : nat) k := _cfg_get_signed cfg obj true k.
Definition cfg_get_unsigned cfg (obj : nat) k := _cfg_get_unsigned cfg obj true k.
Definition cfg_get_string cfg (obj : nat) k := _cfg_get_string cfg obj true k.
Definition cfg_get_object cfg (obj : nat) k := _cfg_get_object cfg obj true k.
Definition cfg_get_one_of cfg (obj : nat) k type_mask :=
  _cfg_get_one_of cfg obj true k type_mask.

Definition cfg_get_first_bool cfg (obj : nat) k := _cfg_get_bool cfg obj false k.
Definition cfg_get_first_signed cfg (obj : nat) k := _cfg_get_signed cfg obj false k.
Definition cfg_get_first_unsigned cfg (obj : nat) k := _cfg_get_unsigned cfg obj false k.
Definition cfg_get_first_string cfg (obj : nat) k := _cfg_get_string cfg obj false k.
Definition cfg_get_first_object cfg (obj : nat) k := _cfg_get_object cfg obj false k.
Definition cfg_get_first_one_of cfg (obj : nat) k type_mask :=
  _cfg_get_one_of cfg obj false k type_mask.

Definition cfg_get_global_bool cfg k := _cfg_get_bool cfg 0 true k.
Definition cfg_get_global_signed cfg k := _cfg_get_unsigned cfg 0 true k.
Definition cfg_get_global_unsigned cfg k := _cfg_get_signed cfg 0 true k.
Definition cfg_get_global_string cfg k := _cfg_get_string cfg 0 true k.
Definition cfg_get_global_object cfg k := _cfg_get_object cfg 0 true k.

(** [CFG_MANDATORY_GET] and [CFG_MANDATORY_GET_ONE_OF] *)
Definition CFG_MANDATORY {A : Type} (r : result (option A)) : result A :=
  match r with
  | Ok (Some a) => Ok a
  | Ok None => Oops "couldn't find mandatory key in the config file!"
  | Oops s => Oops s
  | Bug s => Bug s
  | OutOfFuel => OutOfFuel
  | Undefined s => Undefined s
  end.

Definition CFG_MANDATORY_GET_string cfg (obj : nat) k : result string :=
  CFG_MANDATORY (_cfg_get_string cfg obj true k).

Definition CFG_MANDATORY_GET_ONE_OF type_mask cfg (obj : nat) k : result value :=
  CFG_MANDATORY (_cfg_get_one_of cfg obj true k type_mask).

End Config.
Import Config.

(** ** Video-mode selection *)

Inductive video_mode_constraint : Type :=
| VIDEO_MODE_CONSTRAINT_EXACTLY
| VIDEO_MODE_CONSTRAINT_AT_LEAST.

Record requested_video_mode : Type := {
  rm_width : Z;
  rm_height : Z;
  rm_bpp : Z;
  constraint : video_mode_constraint;
  none : bool
}.

Record video_mode : Type := {
  vm_width : Z;
  vm_height : Z;
  vm_bpp : Z;
  vm_id : Z
}.

Record resolution : Type := {
  res_width : Z;
  res_height : Z
}.

(** [struct video_services] *)
Record video_services : Type := {
  query_resolution : resolution -> resolution;
  list_modes : list video_mode;
  set_mode : Z -> option ultra_framebuffer
}.

(** The comparison macros [VM_EQUALS], [VM_GREATER_OR_EQUAL] (width,
    height and bpp) and [VM_LESS_OR_EQUAL] (width and height only). *)
Definition VM_EQUALS (l : video_mode) (r : requested_video_mode) : bool :=
  (vm_width l =? rm_width r) && (vm_height l =? rm_height r)
  && (vm_bpp l =? rm_bpp r).

Definition VM_GREATER_OR_EQUAL (l : video_mode) (r : requested_video_mode) : bool :=
  (vm_width l >=? rm_width r) && (vm_height l >=? rm_height r)
  && (vm_bpp l >=? rm_bpp r).

Definition VM_LESS_OR_EQUAL (l : video_mode) (r : resolution) : bool :=
  (vm_width l <=? res_width r) && (vm_height l <=? res_height r).

Definition is_exactly (c : video_mode_constraint) : bool :=
  match c with
  | VIDEO_MODE_CONSTRAINT_EXACTLY => true
  | VIDEO_MODE_CONSTRAINT_AT_LEAST => false
  end.

Definition DEFAULT_WIDTH : Z := 1024.
Definition DEFAULT_HEIGHT : Z := 768.
Definition DEFAULT_BPP : Z := 32.

Definition sv_equals (a b : string) : bool := String.eqb a b.
Definition sv_empty (s : string) : bool := Nat.eqb (String.length s) 0.

Definition video_mode_from_value (cfg : config) (val : value)
  (mode : requested_video_mode) : result requested_video_mode :=
  let set_none (m : requested_video_mode) :=
    {| rm_width := rm_width m; rm_height := rm_height m; rm_bpp := rm_bpp m;
       constraint := constraint m; none := true |} in
  if value_is_null val then Ok (set_none mode)
  else if value_is_string val then
    if sv_equals (as_string val) "unset" then Ok (set_none mode)
    else if negb (sv_equals (as_string val) "auto")
         then Oops "invalid value for video-mode"
         else Ok mode
  else
    match cfg_get_unsigned cfg (cfg_off val) "width" with
    | Ok cfg_width =>
    match cfg_get_unsigned cfg (cfg_off val) "height" with
    | Ok cfg_height =>
    match cfg_get_unsigned cfg (cfg_off val) "bpp" with
    | Ok cfg_bpp =>
    match cfg_get_string cfg (cfg_off val) "constraint" with
    | Ok constraint_str =>
      let width := match cfg_width with Some x => u32 x | None => rm_width mode end in
      let height := match cfg_height with Some x => u32 x | None => rm_height mode end in
      let bpp := match cfg_bpp with Some x => u32 x | None => rm_bpp mode end in
      match constraint_str with
      | Some s =>
          if sv_equals s "at-least" then
            Ok {| rm_width := width; rm_height := height; rm_bpp := bpp;
                  constraint := VIDEO_MODE_CONSTRAINT_AT_LEAST; none := none mode |}
          else if sv_equals s "exactly" then
            Ok {| rm_width := width; rm_height := height; rm_bpp := bpp;
                  constraint := VIDEO_MODE_CONSTRAINT_EXACTLY; none := none mode |}
          else Oops "invalid video mode constraint"
      | None =>
          Ok {| rm_width := width; rm_height := height; rm_bpp := bpp;
                constraint := constraint mode; none := none mode |}
      end
    | Oops s => Oops s | Bug s => Bug s | OutOfFuel => OutOfFuel
    | Undefined s => Undefined s
    end
    | Oops s => Oops s | Bug s => Bug s | OutOfFuel => OutOfFuel
    | Undefined s => Undefined s
    end
    | Oops s => Oops s | Bug s => Bug s | OutOfFuel => OutOfFuel
    | Undefined s => Undefined s
    end
    | Oops s => Oops s | Bug s => Bug s | OutOfFuel => OutOfFuel
    | Undefined s => Undefined s
    end.

(** The [for] loop of [set_video_mode] over [mode_list]; [picked] is
    [Some picked_vm] once [did_pick] is set.  The first branch is the
    [break]. *)
Fixpoint pick_video_mode (rm : requested_video_mode) (native_res : resolution)
  (mode_list : list video_mode) (picked : option video_mode)
  : option video_mode :=
  match mode_list with
  | [] => picked
  | m :: rest =>
      if is_exactly (constraint rm) && VM_EQUALS m rm then Some m
      else if VM_GREATER_OR_EQUAL m rm && VM_LESS_OR_EQUAL m native_res
           then pick_video_mode rm native_res rest (Some m)
           else pick_video_mode rm native_res rest picked
  end.

Section SetVideoMode.
Context {FW : Type}.

Definition set_video_mode (cfg : config) (entry : loadable_entry)
  (vs : video_services) (out_fb : ultra_framebuffer)
  : M FW (bool * ultra_framebuffer) :=
  let native_res := {| res_width := DEFAULT_WIDTH; res_height := DEFAULT_HEIGHT |} in
  let rm := {| rm_width := DEFAULT_WIDTH; rm_height := DEFAULT_HEIGHT;
               rm_bpp := DEFAULT_BPP;
               constraint := VIDEO_MODE_CONSTRAINT_AT_LEAST;
               none := false |} in
  (video_mode_val <- lift_result
     (cfg_get_one_of cfg (le_cfg_off entry) "video-mode"
        (Z.lor (Z.lor VALUE_OBJECT VALUE_STRING) VALUE_NONE));;
   rm <- match video_mode_val with
         | Some v => lift_result (video_mode_from_value cfg v rm)
         | None => ret rm
         end;;
   if none rm then ret (false, out_fb)
   else
     let native_res := query_resolution vs native_res in
     let mode_list := list_modes vs in
     match pick_video_mode rm native_res mode_list None with
     | None => oops "failed to pick a video mode according to constraints"
     | Some picked_vm =>
         print_info "picked video mode";;
         match set_mode vs (vm_id picked_vm) with
         | None => oops "failed to set picked video mode"
         | Some fb => emit (EvSetMode (vm_id picked_vm));; ret (true, fb)
         end
     end)%loader.

End SetVideoMode.

(** ** The page-table builder *)

Inductive page_type : Type :=
| PAGE_TYPE_NORMAL
| PAGE_TYPE_HUGE.

(** One leaf translation: the page at [pm_virtual] maps to the frame at
    [pm_physical]. *)
Record page_mapping : Type := {
  pm_virtual : Z;
  pm_physical : Z;
  pm_type : page_type
}.

(** [struct page_table], with the leaf mappings entered so far. *)
Record page_table : Type := {
  root : Z;
  levels : Z;
  pt_mappings : list page_mapping
}.

Section PageTable.
Context `{ultra_abi} {FW : Type} (ms : memory_services FW).

Definition page_size_of (t : page_type) : Z :=
  match t with
  | PAGE_TYPE_NORMAL => PAGE_SIZE
  | PAGE_TYPE_HUGE => HUGE_PAGE_SIZE
  end.

(** Modelled from the spec: [virtual_memory.c] is absent.  Mapping
    [pages] pages from [virtual_base] to [physical_base] enters one leaf
    per page, with consecutive virtual and physical addresses; the
    intermediate tables it allocates on the way are left out. *)
Definition mapped_range (t : page_type) (virtual_base physical_base pages : Z)
  : list page_mapping :=
  List.map (fun i : nat =>
              {| pm_virtual := u64 (virtual_base + Z.of_nat i * page_size_of t);
                 pm_physical := u64 (physical_base + Z.of_nat i * page_size_of t);
                 pm_type := t |})
           (seq 0 (Z.to_nat pages)).

Definition map_critical_pages (pt : page_table)
  (virtual_base physical_base pages : Z) : page_table :=
  {| root := root pt; levels := levels pt;
     pt_mappings := pt_mappings pt
                    ++ mapped_range PAGE_TYPE_NORMAL virtual_base physical_base pages |}.

Definition map_critical_huge_pages (pt : page_table)
  (virtual_base physical_base pages : Z) : page_table :=
  {| root := root pt; levels := levels pt;
     pt_mappings := pt_mappings pt
                    ++ mapped_range PAGE_TYPE_HUGE virtual_base physical_base pages |}.

(** Returns [None] where the source returns 0 (no table is built). *)
Definition build_page_table (bi : binary_info) : M FW (option page_table) :=
  if negb (bitness bi =? 64) then ret None
  else
    (pt_root <- allocate_critical_pages ms 1;;
     let pt := {| root := pt_root; levels := 4; pt_mappings := [] |} in
     (* identity map bottom 4 gigabytes *)
     let pt := map_critical_huge_pages pt 0 0 ((4 * GB) / HUGE_PAGE_SIZE) in
     (* direct map higher half *)
     let pt := map_critical_huge_pages pt DIRECT_MAP_BASE 0
                 ((4 * GB) / HUGE_PAGE_SIZE) in
     (* If kernel had allocate-anywhere set to on, map virtual base to
        physical base, otherwise simply direct map first 2 gigabytes of
        physical. *)
     let pt :=
       if negb (kernel_range_is_direct_map bi) then
         let pages := size_t (u64 (physical_ceiling bi - physical_base bi)) in
         let pages := CEILING_DIVIDE pages PAGE_SIZE in
         map_critical_pages pt (virtual_base bi) (physical_base bi) pages
       else
         map_critical_huge_pages pt HIGHER_HALF_BASE 0
           ((2 * GB) / HUGE_PAGE_SIZE) in
     ret (Some pt))%loader.

End PageTable.

(** ** The kernel stack *)

Section PickStack.
Context `{ultra_abi} {FW : Type} (ms : memory_services FW).

Definition pick_stack (cfg : config) (le : loadable_entry) : M FW Z :=
  let address := 0 in
  let size := size_t (16 * KB) in
  (has_val <- lift_result
     (cfg_get_one_of cfg (le_cfg_off le) "stack" (Z.lor VALUE_STRING VALUE_OBJECT));;
   '(address, size) <-
     match has_val with
     | Some val =>
         if value_is_object val then
           has_alloc_at <- lift_result
             (cfg_get_one_of cfg (le_cfg_off le) "allocate-at"
                (Z.lor VALUE_STRING VALUE_UNSIGNED));;
           has_size <- lift_result
             (cfg_get_one_of cfg (le_cfg_off le) "size"
                (Z.lor VALUE_STRING VALUE_UNSIGNED));;
           address <-
             match has_alloc_at with
             | Some alloc_at_val =>
                 if value_is_string alloc_at_val then
                   if negb (sv_equals (as_string alloc_at_val) "anywhere")
                   then oops "invalid value for allocate-at"
                   else ret address
                 else ret (u64 (as_unsigned alloc_at_val))
             | None => ret address
             end;;
           size <-
             match has_size with
             | Some size_val =>
                 if value_is_string size_val then
                   if negb (sv_equals (as_string size_val) "auto")
                   then oops "invalid value for size"
                   else ret size
                 else ret (size_t (as_unsigned size_val))
             | None => ret size
             end;;
           ret (address, size)
         else
           if negb (sv_equals (as_string val) "auto")
           then oops "invalid value for stack"
           else ret (address, size)
     | None => ret (address, size)
     end;;
   let pages := CEILING_DIVIDE size PAGE_SIZE in
   address <-
     (if negb (address =? 0) then
        allocate_critical_pages_with_type_at ms address pages
          ULTRA_MEMORY_TYPE_KERNEL_STACK;;
        ret address
      else
        allocate_critical_pages_with_type ms pages ULTRA_MEMORY_TYPE_KERNEL_STACK);;
   let address := u64 (address + size_t (pages * PAGE_SIZE)) in
   ret address)%loader.

End PickStack.

(** ** Files, ELF images and the services handed to the protocol *)

Record file : Type := {
  f_size : Z;
  f_read_ok : bool
}.

Record filesystem : Type := {
  fs_open : string -> option file
}.

(** What [ultra.c] calls outside itself: path parsing, the filesystem
    table, CPU identification and the ELF loader (which allocates). *)
Record loader_env (FW : Type) : Type := {
  parse_path : string -> option full_path;
  fs_by_full_path : full_path -> option filesystem;
  elf_bitness : file -> Z;
  cpu_supports_long_mode : bool;
  elf_load : file -> bool -> bool -> Z -> FW -> (string + binary_info) * FW
}.
Arguments parse_path {FW}.
Arguments fs_by_full_path {FW}.
Arguments elf_bitness {FW}.
Arguments cpu_supports_long_mode {FW}.
Arguments elf_load {FW}.

(** [struct services] *)
Record services (FW : Type) : Type := {
  provider : service_provider;
  ms : memory_services FW;
  vs : video_services;
  get_rsdp : Z
}.
Arguments provider {FW}.
Arguments ms {FW}.
Arguments vs {FW}.
Arguments get_rsdp {FW}.

Definition zero_framebuffer : ultra_framebuffer :=
  {| fb_width := 0; fb_height := 0; fb_pitch := 0; fb_bpp := 0;
     fb_format := 0; fb_physical_address := 0 |}.

(** [array[i] = v] on an array with spare capacity: slots between the
    end of the known contents and [i] stay indeterminate. *)
Definition array_store {A : Type} (i : nat) (v : A) (l : list (option A))
  : list (option A) :=
  if Nat.ltb i (List.length l)
  then firstn i l ++ Some v :: skipn (S i) l
  else l ++ repeat None (i - List.length l) ++ [Some v].

(** [snprintf(buf, size, "unnamed_module%d", idx)]: at most [size - 1]
    characters are stored. *)
Definition snprintf_unnamed_module (size : Z) (idx : Z) : string :=
  String.substring 0 (Z.to_nat (size - 1))
    (String.append "unnamed_module" (NilZero.string_of_int (Z.to_int idx))).

(** ** Loading the kernel and the modules *)

Section Load.
Context `{ultra_abi} {FW : Type} (env : loader_env FW) (sv : services FW).

Definition get_binary_options (cfg : config) (le : loadable_entry)
  (opts : binary_options) : M FW binary_options :=
  (binary_val <- lift_result
     (CFG_MANDATORY_GET_ONE_OF (Z.lor VALUE_STRING VALUE_OBJECT) cfg
        (le_cfg_off le) "binary");;
   '(string_path, anywhere) <-
     (if value_is_object binary_val then
        string_path <- lift_result
          (CFG_MANDATORY_GET_string cfg (cfg_off binary_val) "path");;
        b <- lift_result (cfg_get_bool cfg (cfg_off binary_val) "allocate-anywhere");;
        ret (string_path,
             match b with Some x => x | None => allocate_anywhere opts end)
      else ret (as_string binary_val, allocate_anywhere opts));;
   match parse_path env string_path with
   | None => oops "invalid binary path"
   | Some p => ret {| path := p; allocate_anywhere := anywhere |}
   end)%loader.

Definition next_module_idx : M FW Z :=
  fun w =>
    let idx := w_module_idx w + 1 in
    Ok (idx, {| w_fw := w_fw w; w_trace := w_trace w;
                w_module_idx := idx;
                w_attribute_array := w_attribute_array w |}).

(** [module_load] fills the slot [attrs] points at and is modelled as
    returning the slot's final contents.  The name that [snprintf] puts
    into the slot is stored before the whole structure is assigned from
    a compound literal that names only [header], [physical_address] and
    [length]; the members it does not name, [name] among them, are
    zeroed by that assignment. *)
Definition module_load (cfg : config) (module_value : value)
  : M FW ultra_module_info_attribute :=
  let module_name := EmptyString in
  (module_idx <- next_module_idx;;
   '(module_name, str_path) <-
     (if value_is_object module_value then
        n <- lift_result (cfg_get_string cfg (cfg_off module_value) "name");;
        str_path <- lift_result
          (CFG_MANDATORY_GET_string cfg (cfg_off module_value) "path");;
        ret (match n with Some s => s | None => module_name end, str_path)
      else ret (module_name, as_string module_value));;
   let attrs_name :=
     if sv_empty module_name
     then Some (snprintf_unnamed_module sizeof_module_name module_idx)
     else None in
   match parse_path env str_path with
   | None => oops "invalid module path"
   | Some path =>
     match fs_by_full_path env path with
     | None => oops "invalid module path"
     | Some fs =>
       match fs_open fs (path_within_partition path) with
       | None => oops "invalid module path"
       | Some module_file =>
           let file_pages := CEILING_DIVIDE (f_size module_file) PAGE_SIZE in
           module_data <- allocate_critical_pages_with_type (ms sv) file_pages
                            ULTRA_MEMORY_TYPE_MODULE;;
           if negb (f_read_ok module_file) then oops "failed to read module file"
           else
             ret {| mi_header :=
                      {| ah_type := ULTRA_ATTRIBUTE_MODULE_INFO;
                         ah_size_in_bytes := sizeof_ultra_module_info_attribute |};
                    mi_name := EmptyString;
                    mi_physical_address := module_data;
                    mi_length := f_size module_file |}
       end
     end
   end)%loader.

(** [load_kernel] reads [fse->fs] without testing [fse]: where
    [fs_by_full_path] finds no entry the program has no defined
    behaviour ([module_load] above does test it). *)
Definition load_kernel (cfg : config) (entry : loadable_entry)
  (info : kernel_info) : M FW kernel_info :=
  (opts <- get_binary_options cfg entry (bin_opts info);;
   match fs_by_full_path env (path opts) with
   | None => undefined "fse->fs read through a null fse"
   | Some fs =>
     match fs_open fs (path_within_partition (path opts)) with
     | None => oops "failed to open"
     | Some f =>
         file_data <- allocate_critical_bytes (ms sv) (f_size f);;
         if negb (f_read_ok f) then oops "failed to read file" else
         let bitness := elf_bitness env f in
         if (bitness =? 0) || (negb (bitness =? 32) && negb (bitness =? 64))
         then oops "invalid ELF bitness" else
         if allocate_anywhere opts && negb (bitness =? 64)
         then oops "allocate-anywhere is only allowed for 64 bit kernels" else
         if (bitness =? 64) && negb (cpu_supports_long_mode env)
         then oops "attempted to load a 64 bit kernel on a CPU without long mode support"
         else
           res <- with_fw (elf_load env f (bitness =? 64) (allocate_anywhere opts)
                             ULTRA_MEMORY_TYPE_KERNEL_BINARY);;
           match res with
           | inl error_msg => oops (String.append "failed to load kernel binary: " error_msg)
           | inr bi => ret {| bin_opts := opts; bin_info := bi |}
           end
     end
   end)%loader.

End Load.

(** ** The protocol entry point *)

Section ProtocolLoad.
Context `{ultra_abi} {FW : Type} (env : loader_env FW).

Definition MODULES_PER_PAGE : Z := PAGE_SIZE / sizeof_ultra_module_info_attribute.

(** The module array while it is being filled: where it lives, what is
    known of its contents, its capacity and [spec.module_count]. *)
Record module_array : Type := {
  ma_modules_ptr : Z;
  ma_modules : list (option ultra_module_info_attribute);
  ma_modules_capacity : Z;
  ma_module_count : Z
}.

Definition module_mask : Z := Z.lor VALUE_STRING VALUE_OBJECT.

(** The [do ... while (cfg_get_next_one_of(...))] loop over the
    [module] keys of the entry. *)
Fixpoint load_modules (fuel : nat) (cfg : config) (sv : services FW)
  (module_value : value) (ma : module_array) : M FW module_array :=
  match fuel with
  | O => out_of_fuel
  | S fuel' =>
    (let module_count := size_t (ma_module_count ma + 1) in
     ma <-
       (if module_count =? ma_modules_capacity ma then
          let modules_capacity := ma_modules_capacity ma in
          new_modules <- allocate_critical_pages (ms sv)
                           (modules_capacity + MODULES_PER_PAGE);;
          (* memcpy(new_modules, spec.modules, modules_capacity) copies
             that many bytes: only the records that fit are carried over *)
          let copied :=
            firstn (Z.to_nat (modules_capacity / sizeof_ultra_module_info_attribute))
                   (ma_modules ma) in
          free_pages (ms sv) (ma_modules_ptr ma)
            (size_t (modules_capacity * sizeof_ultra_module_info_attribute)
             / PAGE_SIZE);;
          ret {| ma_modules_ptr := new_modules;
                 ma_modules := copied;
                 ma_modules_capacity := size_t (modules_capacity + MODULES_PER_PAGE);
                 ma_module_count := module_count |}
        else
          ret {| ma_modules_ptr := ma_modules_ptr ma;
                 ma_modules := ma_modules ma;
                 ma_modules_capacity := ma_modules_capacity ma;
                 ma_module_count := module_count |});;
     attrs <- module_load env sv cfg module_value;;
     let ma :=
       {| ma_modules_ptr := ma_modules_ptr ma;
          ma_modules := array_store (Z.to_nat (module_count - 1)) attrs (ma_modules ma);
          ma_modules_capacity := ma_modules_capacity ma;
          ma_module_count := module_count |} in
     next <- lift_result (cfg_get_next_one_of cfg module_mask module_value true);;
     match next with
     | Some module_value => load_modules fuel' cfg sv module_value ma
     | None => ret ma
     end)%loader
  end.

Definition rebase_framebuffer (f : ultra_framebuffer) : ultra_framebuffer :=
  {| fb_width := fb_width f; fb_height := fb_height f; fb_pitch := fb_pitch f;
     fb_bpp := fb_bpp f; fb_format := fb_format f;
     fb_physical_address := u64 (fb_physical_address f + DIRECT_MAP_BASE) |}.

Definition empty_kernel_info : kernel_info :=
  {| bin_opts :=
       {| path := {| disk_guid := 0; partition_guid := 0; partition_id_type := 0;
                     partition_index := 0; path_within_partition := EmptyString |};
          allocate_anywhere := false |};
     bin_info :=
       {| entrypoint_address := 0; virtual_base := 0; physical_base := 0;
          physical_ceiling := 0; bitness := 0;
          kernel_range_is_direct_map := false |} |}.

(** [kernel_handover32] and [kernel_handover64] do not return: the jump
    is the last event of a run. *)
Definition ultra_protocol_load (fuel : nat) (cfg : config) (le : loadable_entry)
  (sv : services FW) : M FW unit :=
  (let modules_capacity := MODULES_PER_PAGE in
   modules_ptr <- allocate_critical_pages (ms sv) 1;;
   kern_info <- load_kernel env sv cfg le empty_kernel_info;;
   let is_higher_half_kernel :=
     entrypoint_address (bin_info kern_info) >=? HIGHER_HALF_BASE in
   cmdline <- lift_result (cfg_get_string cfg (le_cfg_off le) "cmdline");;
   first <- lift_result
     (cfg_get_first_one_of cfg (le_cfg_off le) "module" module_mask);;
   let ma := {| ma_modules_ptr := modules_ptr; ma_modules := [];
                ma_modules_capacity := modules_capacity;
                ma_module_count := 0 |} in
   ma <- match first with
         | Some module_value => load_modules fuel cfg sv module_value ma
         | None => ret ma
         end;;
   pt <- build_page_table (ms sv) (bin_info kern_info);;
   stack_address <- pick_stack (ms sv) cfg le;;
   let acpi_rsdp_address := get_rsdp sv in
   (* Attempt to set video mode last, as we're not going to be able to
      use legacy tty logging after that. *)
   '(fb_present, fb) <- set_video_mode cfg le (vs sv) zero_framebuffer;;
   let fb := if is_higher_half_kernel then rebase_framebuffer fb else fb in
   let spec :=
     {| fb_present := fb_present;
        cmdline_present := match cmdline with Some _ => true | None => false end;
        fb := fb;
        cmdline := match cmdline with Some s => s | None => EmptyString end;
        kern_info := kern_info;
        modules := ma_modules ma;
        module_count := ma_module_count ma;
        stack_address := stack_address;
        acpi_rsdp_address := acpi_rsdp_address |} in
   (* We cannot allocate any memory after this call, as memory map is
      now saved inside the attribute array. *)
   hi <- build_attribute_array (ms sv) fuel spec (provider sv);;
   handover_res <- with_fw (ms_handover (ms sv) (memory_map_handover_key hi));;
   emit (EvHandover (memory_map_handover_key hi));;
   BUG_ON (negb handover_res) "!handover_res";;
   (* Relocate pointers to higher half for convenience *)
   let stack_address :=
     if is_higher_half_kernel then u64 (stack_address + DIRECT_MAP_BASE)
     else stack_address in
   let attribute_array_address :=
     if is_higher_half_kernel
     then u64 (attribute_array_address hi + DIRECT_MAP_BASE)
     else attribute_array_address hi in
   print_info "jumping to kernel";;
   if bitness (bin_info kern_info) =? 32 then
     emit (EvKernelHandover32 (entrypoint_address (bin_info kern_info))
             stack_address (u32 attribute_array_address) ULTRA_MAGIC)
   else
     emit (EvKernelHandover64 (entrypoint_address (bin_info kern_info))
             stack_address
             (match pt with Some t => root t | None => 0 end)
             attribute_array_address ULTRA_MAGIC))%loader.

End ProtocolLoad.

(** ** Vocabulary of the statements *)

(** The entry count the firmware reports for its current memory map. *)
Definition map_size {FW : Type} (ms : memory_services FW) (fw : FW) : Z :=
  Z.of_nat (List.length (ms_memory_map ms fw)).

Definition set_trace {FW : Type} (w : world FW) (fw : FW) (t : list event)
  : world FW :=
  {| w_fw := fw; w_trace := t; w_module_idx := w_module_idx w;
     w_attribute_array := w_attribute_array w |}.

Definition zeroed_array {FW : Type} (w : world FW) (fw : FW) (t : list event)
  (address : Z) : world FW :=
  {| w_fw := fw; w_trace := t; w_module_idx := w_module_idx w;
     w_attribute_array :=
       Some {| aa_address := address; aa_attribute_count := 0; aa_records := [] |} |}.

Definition is_handover_event (e : event) : bool :=
  match e with
  | EvHandover _ => true
  | _ => false
  end.

(** The final [copy_map] into the attribute array, as opposed to a size
    query. *)
Definition is_snapshot_event (e : event) : bool :=
  match e with
  | EvCopyMap true _ _ _ => true
  | _ => false
  end.

(** What may happen while the hand-over is being prepared: anything but
    the snapshot, the firmware hand-over and the jump. *)
Definition preparation_event (e : event) : bool :=
  negb (is_snapshot_event e || is_handover_event e || is_jump_event e).

(** Every completed run of [m] extends the trace by events satisfying
    [P] only. *)
Definition emits {FW A : Type} (P : event -> bool) (m : M FW A) : Prop :=
  forall w a w',
    m w = Ok (a, w') ->
    exists t, w_trace w' = w_trace w ++ t /\ Forall (fun e => P e = true) t.

(** The kernel-visible form of a physical address: rebased into the
    direct map for a higher-half kernel, unchanged otherwise. *)
Definition kernel_visible `{ultra_abi} (bi : binary_info) (address : Z) : Z :=
  if entrypoint_address bi >=? HIGHER_HALF_BASE
  then u64 (address + DIRECT_MAP_BASE)
  else address.

(** What a run returned and the world it left, when it completed. *)
Definition returned {FW A : Type} (r : result (A * world FW)) : option A :=
  match r with
  | Ok (a, _) => Some a
  | _ => None
  end.

Definition final_world {FW A : Type} (r : result (A * world FW))
  : option (world FW) :=
  match r with
  | Ok (_, w) => Some w
  | _ => None
  end.

(** The name fields of the MODULE_INFO records of an attribute array, in
    the order of the records. *)
Definition module_names (aa : attribute_array) : list string :=
  flat_map (fun r : Z * ultra_attribute =>
              match snd r with
              | ModuleInfoAttr a => [mi_name a]
              | _ => []
              end) (aa_records aa).

Definition module_addresses (aa : attribute_array) : list Z :=
  flat_map (fun r : Z * ultra_attribute =>
              match snd r with
              | ModuleInfoAttr a => [mi_physical_address a]
              | _ => []
              end) (aa_records aa).

(** A mode the at-least test of the picker accepts. *)
Definition candidate (rm : requested_video_mode) (native_res : resolution)
  (m : video_mode) : bool :=
  VM_GREATER_OR_EQUAL m rm && VM_LESS_OR_EQUAL m native_res.

(** ** A concrete platform and a mock firmware, for running the model *)

Module Mock.

(** The i686 BIOS build: 32-bit [size_t], 2 MiB huge pages, and the
    protocol's values for the constants. *)
Definition x86_abi : ultra_abi :=
  {| size_t_bits := 32;
     HUGE_PAGE_SIZE := 2 * MB;
     DIRECT_MAP_BASE := 0xFFFF800000000000;
     HIGHER_HALF_BASE := 0xFFFFFFFF80000000;
     ULTRA_MAGIC := 0x554c5442;
     ULTRA_MEMORY_TYPE_RESERVED := 2;
     ULTRA_MEMORY_TYPE_NVS := 4;
     ULTRA_MEMORY_TYPE_LOADER_RECLAIMABLE := 0xFFFF0001;
     ULTRA_MEMORY_TYPE_MODULE := 0xFFFF0002;
     ULTRA_MEMORY_TYPE_KERNEL_STACK := 0xFFFF0003;
     ULTRA_MEMORY_TYPE_KERNEL_BINARY := 0xFFFF0004;
     sizeof_ultra_platform_info_attribute := 56;
     sizeof_ultra_kernel_info_attribute := 320;
     sizeof_ultra_module_info_attribute := 88;
     sizeof_ultra_command_line_attribute := 8;
     sizeof_ultra_framebuffer_attribute := 40;
     sizeof_ultra_memory_map_attribute := 8;
     sizeof_ultra_memory_map_entry := 24;
     sizeof_path_on_disk := 256;
     sizeof_module_name := 64 |}.

(** A bump allocator whose memory map has one entry per live
    allocation; [growth] lists, per allocation still to come, how many
    further entries the map gains through fragmentation. *)
Record fw : Type := {
  next_free : Z;
  regions : list memory_map_entry;
  growth : list nat;
  accepts_handover : bool
}.

Definition fragments (address : Z) (n : nat) : list memory_map_entry :=
  repeat {| physical_address := address; size_in_bytes := 0; type := 2 |} n.

Definition allocate_pages (count type : Z) (s : fw) : option Z * fw :=
  let address := next_free s in
  (Some address,
   {| next_free := address + count * PAGE_SIZE;
      regions := regions s
                 ++ {| physical_address := address;
                       size_in_bytes := count * PAGE_SIZE;
                       type := type |}
                 :: fragments address (hd O (growth s));
      growth := tl (growth s);
      accepts_handover := accepts_handover s |}).

Definition allocate_pages_at (address count type : Z) (s : fw) : bool * fw :=
  (true,
   {| next_free := next_free s;
      regions := regions s
                 ++ [{| physical_address := address;
                        size_in_bytes := count * PAGE_SIZE;
                        type := type |}];
      growth := growth s;
      accepts_handover := accepts_handover s |}).

Definition free (address count : Z) (s : fw) : fw :=
  {| next_free := next_free s;
     regions := filter (fun e => negb (physical_address e =? address)) (regions s);
     growth := growth s;
     accepts_handover := accepts_handover s |}.

Definition memory_services : memory_services fw :=
  {| ms_allocate_pages := allocate_pages;
     ms_allocate_pages_at := allocate_pages_at;
     ms_free_pages := free;
     ms_memory_map := regions;
     ms_map_key := fun s => 1000 + Z.of_nat (List.length (regions s));
     ms_handover := fun key s =>
       (accepts_handover s
        && (key =? 1000 + Z.of_nat (List.length (regions s))), s) |}.

Definition firmware (growth : list nat) : fw :=
  {| next_free := 0x100000;
     regions :=
       [ {| physical_address := 0; size_in_bytes := 0x9F000; type := 1 |};
         {| physical_address := 0x9F000; size_in_bytes := 0x61000; type := 2 |};
         {| physical_address := 0xE0000000; size_in_bytes := 0x1000; type := 9 |} ];
     growth := growth;
     accepts_handover := true |}.

Definition boot (growth : list nat) : world fw :=
  {| w_fw := firmware growth; w_trace := []; w_module_idx := 0;
     w_attribute_array := None |}.

Definition video (native : resolution) (modes : list video_mode) : video_services :=
  {| query_resolution := fun _ => native;
     list_modes := modes;
     set_mode := fun id =>
       option_map (fun m =>
                     {| fb_width := vm_width m; fb_height := vm_height m;
                        fb_pitch := vm_width m * 4; fb_bpp := vm_bpp m;
                        fb_format := 1; fb_physical_address := 0xFD000000 |})
                  (find (fun m => vm_id m =? id) modes) |}.

Definition mode (w h bpp id : Z) : video_mode :=
  {| vm_width := w; vm_height := h; vm_bpp := bpp; vm_id := id |}.

Definition services (native : resolution) (modes : list video_mode)
  : services fw :=
  {| provider := SERVICE_PROVIDER_BIOS;
     ms := memory_services;
     vs := video native modes;
     get_rsdp := 0xE0000 |}.

(** Every path parses and opens a two-page file; the ELF loader reports
    the given [binary_info] without allocating. *)
Definition env (bi : binary_info) : loader_env fw :=
  {| parse_path := fun s =>
       Some {| disk_guid := 0; partition_guid := 0; partition_id_type := 0;
               partition_index := 0; path_within_partition := s |};
     fs_by_full_path := fun _ =>
       Some {| fs_open := fun _ => Some {| f_size := 8192; f_read_ok := true |} |};
     elf_bitness := fun _ => bitness bi;
     cpu_supports_long_mode := true;
     elf_load := fun _ _ _ _ s => (inr bi, s) |}.

Definition higher_half_kernel : binary_info :=
  {| entrypoint_address := 0xFFFFFFFF80100000;
     virtual_base := 0xFFFFFFFF80100000;
     physical_base := 0x100000;
     physical_ceiling := 0x104000;
     bitness := 64;
     kernel_range_is_direct_map := true |}.

Definition relocated_kernel : binary_info :=
  {| entrypoint_address := 0xFFFFFFFF80100000;
     virtual_base := 0xFFFFFFFF80100000;
     physical_base := 0x2000000;
     physical_ceiling := 0x2004000;
     bitness := 64;
     kernel_range_is_direct_map := false |}.

Definition protected_mode_kernel : binary_info :=
  {| entrypoint_address := 0x100000;
     virtual_base := 0x100000;
     physical_base := 0x100000;
     physical_ceiling := 0x104000;
     bitness := 32;
     kernel_range_is_direct_map := false |}.

Definition entry (k : string) (in_scope : nat) (v : value_data) : config_entry :=
  {| key := k; scope := in_scope; as_value := v |}.

Definition hello : loadable_entry := {| name := "hello"; le_cfg_off := 1 |}.

(** A spec with one loaded module, a command line and a framebuffer. *)
Definition sample_spec : attribute_array_spec :=
  {| fb_present := true;
     cmdline_present := true;
     fb := {| fb_width := 1024; fb_height := 768; fb_pitch := 4096;
              fb_bpp := 32; fb_format := 1; fb_physical_address := 0xFD000000 |};
     cmdline := "root=/dev/sda1";
     kern_info :=
       {| bin_opts :=
            {| path := {| disk_guid := 0; partition_guid := 0;
                          partition_id_type := 0; partition_index := 0;
                          path_within_partition := "/boot/kernel" |};
               allocate_anywhere := false |};
          bin_info := higher_half_kernel |};
     modules :=
       [Some {| mi_header :=
                  {| ah_type := ULTRA_ATTRIBUTE_MODULE_INFO;
                     ah_size_in_bytes := 88 |};
                mi_name := EmptyString;
                mi_physical_address := 0x200000;
                mi_length := 8192 |}];
     module_count := 1;
     stack_address := 0x300000;
     acpi_rsdp_address := 0xE0000 |}.

(** [binary] and two [module] keys: an object with a name, then a bare
    path; no video mode. *)
Definition cfg_two_modules : config :=
  [ entry "hello" 0 DObject;
    entry "binary" 1 (DString "/k.elf");
    entry "module" 1 DObject;
    entry "name" 3 (DString "init");
    entry "path" 3 (DString "/init");
    entry "module" 1 (DString "/mod2");
    entry "video-mode" 1 DNone ].

(** [stack = { allocate-at = 0x200000, size = 0x8000 }] *)
Definition cfg_stack_object : config :=
  [ entry "hello" 0 DObject;
    entry "binary" 1 (DString "/k.elf");
    entry "stack" 1 DObject;
    entry "allocate-at" 3 (DUnsigned 0x200000);
    entry "size" 3 (DUnsigned 0x8000) ].

(** [video-mode = { width = 1024, height = 768, bpp = 32,
    constraint = "exactly" }] *)
Definition cfg_video_exactly : config :=
  [ entry "hello" 0 DObject;
    entry "video-mode" 1 DObject;
    entry "width" 2 (DUnsigned 1024);
    entry "height" 2 (DUnsigned 768);
    entry "bpp" 2 (DUnsigned 32);
    entry "constraint" 2 (DString "exactly") ].

Definition full_hd : resolution := {| res_width := 1920; res_height := 1080 |}.

(** [binary], [cmdline] and [video-mode = "auto"]. *)
Definition cfg_boot : config :=
  [ entry "hello" 0 DObject;
    entry "binary" 1 (DString "/k.elf");
    entry "cmdline" 1 (DString "quiet");
    entry "video-mode" 1 (DString "auto") ].

(** The same keys, with [allocate-at] and [size] next to [stack] in
    the entry instead of inside the object. *)
Definition cfg_stack_siblings : config :=
  [ entry "hello" 0 DObject;
    entry "binary" 1 (DString "/k.elf");
    entry "stack" 1 DObject;
    entry "allocate-at" 1 (DUnsigned 0x200000);
    entry "size" 1 (DUnsigned 0x8000) ].

End Mock.

(** * Arrays

    A range [[begin, end)] of [T], or a buffer, is the list of its
    elements; [begin[i]] reads with [nth] and an assignment to
    [begin[i]] is [store].  The loops below only index inside the
    range. *)
Fixpoint store {T : Type} (a : list T) (i : nat) (v : T) : list T :=
  match a, i with
  | [], _ => []
  | _ :: rest, O => v :: rest
  | x :: rest, S i' => x :: store rest i' v
  end.

(** * Common/Utilities.h *)

Module Utilities.

Section Arrays.
Context {T : Type} (d : T).

(** [swap(begin[l], begin[r])]: [tmp = l; l = r; r = tmp]. *)
Definition swap (a : list T) (l r : nat) : list T :=
  let tmp := nth l a d in
  let a := store a l (nth r a d) in
  store a r tmp.

Context (comparator : T -> T -> bool).

(** The [while (left <= right)] loop of [lower_bound].  [left], [right]
    and [pivot] are [ssize_t]; the pointer [lower_bound] is kept as its
    index from [begin], so that [end] is [length a].  [None] when the
    fuel runs out before the loop ends. *)
Fixpoint lower_bound_loop (fuel : nat) (a : list T) (key : T)
  (left right lower_bound : Z) : option Z :=
  match fuel with
  | O => None
  | S fuel' =>
    if left <=? right then
      let pivot := left + Z.quot (right - left) 2 in
      let pivot_value := nth (Z.to_nat pivot) a d in
      if comparator key pivot_value then
        lower_bound_loop fuel' a key left (pivot - 1) pivot
      else if comparator pivot_value key then
        lower_bound_loop fuel' a key (pivot + 1) right lower_bound
      else Some pivot
    else Some lower_bound
  end.

Definition lower_bound (fuel : nat) (a : list T) (key : T) : option Z :=
  let end_ := Z.of_nat (List.length a) in
  if end_ =? 0 then Some end_
  else
    let lower_bound := end_ in
    let left := 0 in
    let right := end_ - 0 - 1 in
    lower_bound_loop fuel a key left right lower_bound.

(** The inner [while (j > 0 && comparator(begin[j], begin[j - 1]))] of
    [insertion_sort]. *)
Fixpoint insertion_sort_inner (a : list T) (j : nat) : list T :=
  match j with
  | O => a
  | S j' =>
    if comparator (nth j a d) (nth j' a d)
    then insertion_sort_inner (swap a j j') j'
    else a
  end.

Definition insertion_sort (a : list T) : list T :=
  (* 1 element or empty array, doesn't make sense to sort *)
  if Z.of_nat (List.length a) <? 2 then a
  else
    let array_size := List.length a in
    fold_left insertion_sort_inner (seq 0 array_size) a.

End Arrays.

(** [Less<>]: [l < r], here on integers. *)
Definition Less (l r : Z) : bool := l <? r.

Definition max (l r : Z) : Z := if l <? r then r else l.
Definition min (l r : Z) : Z := if l <? r then l else r.

(** ** Memory

    Bytes by address. *)
Definition memory : Type := Z -> Z.

Definition store_byte (m : memory) (p v : Z) : memory :=
  fun q => if q =? p then v else m q.

(** [for (size_t i = 0; i < size; ++i) byte_ptr[i] = value;] *)
Definition set_memory (ptr size value : Z) (m : memory) : memory :=
  let byte_ptr := ptr in
  fold_left (fun m i => store_byte m (byte_ptr + Z.of_nat i) value)
            (seq 0 (Z.to_nat size)) m.

Definition zero_memory (ptr size : Z) (m : memory) : memory :=
  set_memory ptr size 0 m.

(** [while (size--) *byte_dst++ = *byte_src++;] *)
Fixpoint copy_memory_loop (size : nat) (byte_src byte_dst : Z) (m : memory)
  : memory :=
  match size with
  | O => m
  | S size' =>
    copy_memory_loop size' (byte_src + 1) (byte_dst + 1)
      (store_byte m byte_dst (m byte_src))
  end.

Definition copy_memory (source destination size : Z) (m : memory) : memory :=
  copy_memory_loop (Z.to_nat size) source destination m.

(** [while (size--) *--byte_dst = *--byte_src;] *)
Fixpoint move_memory_loop (size : nat) (byte_src byte_dst : Z) (m : memory)
  : memory :=
  match size with
  | O => m
  | S size' =>
    let byte_dst := byte_dst - 1 in
    let byte_src := byte_src - 1 in
    move_memory_loop size' byte_src byte_dst
      (store_byte m byte_dst (m byte_src))
  end.

Definition move_memory (source destination size : Z) (m : memory) : memory :=
  if source <? destination then
    let byte_src := source + size in
    let byte_dst := destination + size in
    move_memory_loop (Z.to_nat size) byte_src byte_dst m
  else copy_memory source destination size m.

(** [(static_cast<u32>(segment) << 4) | offset], the operands being
    [u16]. *)
Definition real_mode_address (segment offset : Z) : Z :=
  Z.lor (u32 (Z.shiftl (u32 (u16 segment)) 4)) (u16 offset).

End Utilities.

(** * Common/Conversions.h *)

Module Conversions.

(** An integral type [T]: [sizeof(T)] and its signedness. *)
Record integral : Type := {
  sizeof : Z;
  is_signed : bool
}.

Definition bits_of (T : integral) : Z := 8 * sizeof T.

(** A value of [T] after an operation that left its range. *)
Definition wrap_as (T : integral) (x : Z) : Z :=
  if is_signed T
  then (x + 2 ^ (bits_of T - 1)) mod 2 ^ bits_of T - 2 ^ (bits_of T - 1)
  else x mod 2 ^ bits_of T.

Definition in_range (T : integral) (x : Z) : Prop :=
  if is_signed T
  then - 2 ^ (bits_of T - 1) <= x < 2 ^ (bits_of T - 1)
  else 0 <= x < 2 ^ bits_of T.

(** [static_cast<char>(x)] *)
Definition char_of (x : Z) : ascii := ascii_of_N (Z.to_N (x mod 256)).

(** [while (copy) { copy /= 10; ++required_size; }]; [None] when the
    fuel runs out before the loop ends. *)
Fixpoint count_digits (fuel : nat) (copy required_size : Z) : option Z :=
  match fuel with
  | O => None
  | S fuel' =>
    if copy =? 0 then Some required_size
    else count_digits fuel' (Z.quot copy 10) (required_size + 1)
  end.

(** [for (size_t divisor = 0; divisor < required_size - !!is_negative; ++divisor)],
    [count] being the iterations that are left. *)
Fixpoint write_digits (count : nat) (divisor number required_size : Z)
  (string : list ascii) : list ascii :=
  match count with
  | O => string
  | S count' =>
    let modulos := Z.rem number 10 in
    let number := Z.quot number 10 in
    let string :=
      store string (Z.to_nat (required_size - (divisor + 1)))
            (char_of (modulos + 48)) in
    write_digits count' (divisor + 1) number required_size string
  end.

Definition to_string (T : integral) (fuel : nat) (number : Z)
  (string : list ascii) (max_size : Z) (null_terminate : bool)
  : option (Z * list ascii) :=
  if number =? 0 then
    if max_size >=? (if null_terminate then 2 else 1) then
      let string := store string 0 "0"%char in
      let string := if null_terminate then store string 1 zero else string in
      Some (if null_terminate then 2 else 1, string)
    else Some (0, string)
  else
    let '(is_negative, number, required_size) :=
      if number <? 0 then (true, wrap_as T (- number), 1)
      else (false, number, 0) in
    let copy := number in
    match count_digits fuel copy required_size with
    | None => None
    | Some required_size =>
      if required_size + b2z null_terminate >? max_size then Some (0, string)
      else
        let string :=
          write_digits (Z.to_nat (required_size - b2z is_negative)) 0 number
                       required_size string in
        let string := if is_negative then store string 0 "-"%char else string in
        let string :=
          if null_terminate then store string (Z.to_nat required_size) zero
          else string in
        Some (required_size, string)
    end.

Definition hex_digits : string := "0123456789ABCDEF".

(** [hex_digits[k]] *)
Definition hex_digit (k : Z) : ascii :=
  match String.get (Z.to_nat k) hex_digits with
  | Some c => c
  | None => zero
  end.

(** [for (size_t i = 0; j < sizeof(number) * 2 * 4; ++i) { ...; j += 4; }],
    [count] being the iterations that are left. *)
Fixpoint write_hex_digits (count : nat) (i j number required_length : Z)
  (string : list ascii) : list ascii :=
  match count with
  | O => string
  | S count' =>
    let string :=
      store string (Z.to_nat (required_length - i - 1))
            (hex_digit (Z.land (Z.shiftr number j) 15)) in
    write_hex_digits count' (i + 1) (j + 4) number required_length string
  end.

Definition to_hex_string (T : integral) (number : Z) (string : list ascii)
  (max_size : Z) (null_terminate : bool) : Z * list ascii :=
  (* '0x' + 2 chars per hex byte *)
  let required_length := sizeof T * 2 + 2 in
  if max_size <? required_length + b2z null_terminate then (0, string)
  else
    let string := store string 0 "0"%char in
    let string := store string 1 "x"%char in
    let string :=
      if null_terminate then store string (Z.to_nat required_length) zero
      else string in
    let string :=
      write_hex_digits (Z.to_nat (sizeof T * 2)) 0 0 number required_length
                       string in
    (required_length, string).

End Conversions.

(** ** Vocabulary for the array algorithms *)

(** What the algorithms ask of a comparator: a strict weak ordering. *)
Definition strict_weak_order {T : Type} (lt : T -> T -> bool) : Prop :=
  (forall x, lt x x = false)
  /\ (forall x y z, lt x y = true -> lt y z = true -> lt x z = true)
  /\ (forall x y z, lt x y = false -> lt y z = false -> lt x z = false).

(** Neither is before the other. *)
Definition equivalent {T : Type} (lt : T -> T -> bool) (x y : T) : Prop :=
  lt x y = false /\ lt y x = false.

(** No element is before an earlier one. *)
Definition ascending {T : Type} (lt : T -> T -> bool) (a : list T) : Prop :=
  StronglySorted (fun x y => lt y x = false) a.

(** The inner loop of [insertion_sort] as it acts on the elements
    before position [j], seen from the last one back: the element sinks
    past those it is before. *)
Fixpoint sink {T : Type} (lt : T -> T -> bool) (x : T) (before : list T)
  : list T :=
  match before with
  | [] => [x]
  | y :: rest => if lt x y then y :: sink lt x rest else x :: y :: rest
  end.

(** ** Vocabulary for the conversions: reading a text back *)

Definition digit_value (c : ascii) : Z := Z.of_N (N_of_ascii c) - 48.

Definition is_digit (c : ascii) : bool :=
  (0 <=? digit_value c) && (digit_value c <=? 9).

(** The number a text of decimal digits stands for. *)
Definition decimal_value (text : list ascii) : Z :=
  fold_left (fun acc c => acc * 10 + digit_value c) text 0.

(** A decimal numeral: digits only, and no leading zero unless it is
    the one digit. *)
Definition is_numeral (text : list ascii) : bool :=
  forallb is_digit text
  && match text with
     | [] => false
     | [_] => true
     | c :: _ => negb (Ascii.eqb c "0"%char)
     end.

(** Reading a numeral, with or without a sign, back. *)
Definition parse_decimal (text : list ascii) : option Z :=
  match text with
  | [] => None
  | c :: rest =>
    if Ascii.eqb c "-"%char
    then if is_numeral rest then Some (- decimal_value rest) else None
    else if is_numeral text then Some (decimal_value text) else None
  end.

Definition hex_digit_value (c : ascii) : option Z :=
  let n := Z.of_N (N_of_ascii c) in
  if (48 <=? n) && (n <=? 57) then Some (n - 48)
  else if (65 <=? n) && (n <=? 70) then Some (n - 55)
  else None.

(** Reading [0xHH..H] back: the value of the digits after the prefix. *)
Fixpoint hex_value (acc : Z) (text : list ascii) : option Z :=
  match text with
  | [] => Some acc
  | c :: rest =>
    match hex_digit_value c with
    | Some v => hex_value (acc * 16 + v) rest
    | None => None
    end
  end.

Definition parse_hex (text : list ascii) : option Z :=
  match text with
  | "0"%char :: "x"%char :: digits => hex_value 0 digits
  | _ => None
  end.

(** The [count] low-order hexadecimal digits of [n], the highest first. *)
Fixpoint hex_digits_of (count : nat) (n : Z) : list ascii :=
  match count with
  | O => []
  | S count' =>
    hex_digits_of count' (Z.shiftr n 4)
    ++ [Conversions.hex_digit (Z.land n 15)]
  end.

(** The [count] low-order decimal digits of [n], the highest first. *)
Fixpoint decimal_digits_of (count : nat) (n : Z) : list ascii :=
  match count with
  | O => []
  | S count' =>
    decimal_digits_of count' (Z.quot n 10)
    ++ [Conversions.char_of (Z.rem n 10 + 48)]
  end.

(** ** Vocabulary of the further properties *)

(** A computation that only consults the configuration: every completed
    run returns the world it was given. *)
Definition reads_only {FW A : Type} (m : M FW A) : Prop :=
  forall w a w', m w = Ok (a, w') -> w' = w.

(** A slot of the module array that holds a loaded module's record. *)
Definition loaded_module `{ultra_abi} (m : option ultra_module_info_attribute)
  : Prop :=
  exists a, m = Some a
            /\ mi_header a =
               {| ah_type := ULTRA_ATTRIBUTE_MODULE_INFO;
                  ah_size_in_bytes := sizeof_ultra_module_info_attribute |}.

(** The bytes a record claims for itself: its header's [size_in_bytes]. *)
Definition attribute_extent (a : ultra_attribute) : Z :=
  match attribute_header a with
  | Some h => ah_size_in_bytes h
  | None => 0
  end.

(** Records laid back to back from [p]: each starts where the extent of
    the one before it ends. *)
Fixpoint contiguous (p : Z) (l : list (Z * ultra_attribute)) : Prop :=
  match l with
  | [] => True
  | (q, a) :: rest => q = p /\ contiguous (p + attribute_extent a) rest
  end.

Fixpoint layout_end (p : Z) (l : list (Z * ultra_attribute)) : Z :=
  match l with
  | [] => p
  | (_, a) :: rest => layout_end (p + attribute_extent a) rest
  end.

(** * Properties *)

(** ** Machine arithmetic *)

Lemma wrap_small bits x : 0 <= x < 2 ^ bits -> wrap bits x = x.
Proof. intros Hx. unfold wrap. now apply Z.mod_small. Qed.

Lemma wrap_range bits x : 0 <= bits -> 0 <= wrap bits x < 2 ^ bits.
Proof.
  intros Hb. unfold wrap. apply Z.mod_pos_bound.
  now apply Z.pow_pos_nonneg.
Qed.

Lemma size_t_small `{ultra_abi} x : 0 <= x < 2 ^ size_t_bits -> size_t x = x.
Proof. apply wrap_small. Qed.

Lemma u32_small x : 0 <= x < 2 ^ 32 -> u32 x = x.
Proof. apply wrap_small. Qed.

Lemma u64_small x : 0 <= x < 2 ^ 64 -> u64 x = x.
Proof. apply wrap_small. Qed.


Lemma CEILING_DIVIDE_exact k y : 0 <= k -> 0 < y -> CEILING_DIVIDE (k * y) y = k.
Proof.
  intros Hk Hy. unfold CEILING_DIVIDE.
  destruct (Z.eqb_spec (k * y) 0) as [E|E].
  - assert (k = 0) by nia. subst k. reflexivity.
  - assert (1 <= k) by nia.
    replace (k * y - 1) with ((k - 1) * y + (y - 1)) by lia.
    rewrite Z.div_add_l by lia. rewrite Z.div_small by lia. lia.
Qed.

(** ** Reasoning about runs of the loader monad *)

Lemma bind_Ok {FW A B} (m : M FW A) (f : A -> M FW B) w b w' :
  bind m f w = Ok (b, w') ->
  exists a w1, m w = Ok (a, w1) /\ f a w1 = Ok (b, w').
Proof.
  unfold bind. destruct (m w) as [[a w1]| | | |]; try discriminate.
  intros Hf. now exists a, w1.
Qed.

Lemma lift_result_Ok {FW A} (r : result A) (w : world FW) a w' :
  lift_result r w = Ok (a, w') -> r = Ok a /\ w' = w.
Proof.
  unfold lift_result. destruct r; try discriminate.
  intros E. injection E as -> ->. now split.
Qed.

(** ** The memory-map conversion *)

(** C7: [ultra_memory_map_entry_convert] copies the physical address and
    the size in bytes unchanged; the output type is the input type
    exactly when the input type is at most NVS or at least
    LOADER_RECLAIMABLE, and RESERVED in every other case.  (RESERVED is
    one of the firmware-native types, at most NVS.) *)
Theorem ultra_memory_map_entry_convert_spec `{ultra_abi} (entry : memory_map_entry) :
  ULTRA_MEMORY_TYPE_RESERVED <= ULTRA_MEMORY_TYPE_NVS ->
  let ue := ultra_memory_map_entry_convert entry in
  let passes := type entry <= ULTRA_MEMORY_TYPE_NVS
                \/ ULTRA_MEMORY_TYPE_LOADER_RECLAIMABLE <= type entry in
  ue_physical_address ue = physical_address entry
  /\ ue_size_in_bytes ue = size_in_bytes entry
  /\ (ue_type ue = type entry <-> passes)
  /\ (~ passes -> ue_type ue = ULTRA_MEMORY_TYPE_RESERVED).
Proof.
  intros Hres ue passes. subst ue passes.
  unfold ultra_memory_map_entry_convert. simpl.
  destruct (Z.leb_spec (type entry) ULTRA_MEMORY_TYPE_NVS) as [Hn|Hn];
    destruct (Z.leb_spec ULTRA_MEMORY_TYPE_LOADER_RECLAIMABLE (type entry)) as [Hl|Hl];
    simpl; repeat split; intros; try tauto; try lia.
Qed.

Lemma ultra_memory_map_entry_convert_spec_witness :
  let entry := {| physical_address := 0x100000; size_in_bytes := 0x4000; type := 9 |} in
  let ue := ultra_memory_map_entry_convert (H:=Mock.x86_abi) entry in
  ue_physical_address ue = 0x100000
  /\ ue_size_in_bytes ue = 0x4000
  /\ (ue_type ue = 9 <-> (9 <= 4 \/ 0xFFFF0001 <= 9))
  /\ (~ (9 <= 4 \/ 0xFFFF0001 <= 9) -> ue_type ue = 2).
Proof.
  apply (ultra_memory_map_entry_convert_spec (H:=Mock.x86_abi)
           {| physical_address := 0x100000; size_in_bytes := 0x4000; type := 9 |}).
  simpl. lia.
Defined.

(** ** The lookup macros *)

(** C10: the global-scope macro [cfg_get_global_signed] is the unsigned
    lookup [_cfg_get_unsigned(cfg, 0, true, key, out)] and
    [cfg_get_global_unsigned] is the signed lookup
    [_cfg_get_signed(cfg, 0, true, key, out)]: the two dispatch to
    swapped value types, while the scoped [cfg_get_signed] and
    [cfg_get_unsigned] dispatch to the matching type; and the two
    lookups being swapped do differ. *)
Theorem cfg_get_global_macros_swapped :
  (forall (cfg : config) (k : string),
      cfg_get_global_signed cfg k = _cfg_get_unsigned cfg 0 true k
      /\ cfg_get_global_unsigned cfg k = _cfg_get_signed cfg 0 true k)
  /\ (forall (cfg : config) (obj : nat) (k : string),
      cfg_get_signed cfg obj k = _cfg_get_signed cfg obj true k
      /\ cfg_get_unsigned cfg obj k = _cfg_get_unsigned cfg obj true k)
  /\ (let cfg := [Mock.entry "timeout" 0 (DUnsigned 5)] in
      cfg_get_global_signed cfg "timeout" = Ok (Some 5)
      /\ cfg_get_unsigned cfg 0 "timeout" = Ok (Some 5)
      /\ cfg_get_global_unsigned cfg "timeout"
         = Oops "unexpected type of a config value"
      /\ cfg_get_signed cfg 0 "timeout"
         = Oops "unexpected type of a config value").
Proof.
  split; [|split].
  - intros cfg k. split; reflexivity.
  - intros cfg obj k. split; reflexivity.
  - simpl. repeat split; reflexivity.
Qed.

(** ** The allocation loop of the attribute-array builder *)

Section AllocationLoop.
Context `{ultra_abi} {FW : Type} (ms : memory_services FW).

Lemma copy_map_query_run (w : world FW) :
  map_size ms (w_fw w) < 2 ^ size_t_bits ->
  copy_map ms (E:=unit) 0 0 None w =
  Ok ((map_size ms (w_fw w), ms_map_key ms (w_fw w), []),
      set_trace w (w_fw w)
        (w_trace w ++ [EvCopyMap false 0 (map_size ms (w_fw w))
                         (ms_map_key ms (w_fw w))])).
Proof.
  intros Hn. unfold copy_map, bind, emit, ret, set_trace. simpl.
  fold (map_size ms (w_fw w)).
  rewrite size_t_small by (unfold map_size in *; lia).
  reflexivity.
Qed.

(** C1: every iteration of the allocation loop reserves the entry count
    the firmware reports plus one, allocates the static byte requirement
    plus the reserved entries times the per-entry stride, and then
    queries the map again: if the reservation is greater than or equal
    to the new count it zeroes the allocated region and leaves the loop
    with that reservation and address; otherwise it frees the allocation
    and goes round again. *)
Theorem allocate_attribute_array_iteration
  (fuel : nat) (bytes_needed : Z) (w : world FW) (p : Z) (fw1 : FW) :
  let n := map_size ms (w_fw w) in
  let reserved := n + 1 in
  let bytes := bytes_needed + reserved * sizeof_ultra_memory_map_entry in
  let n' := map_size ms fw1 in
  let address := u32 p in
  let attempt :=
    w_trace w ++ [EvCopyMap false 0 n (ms_map_key ms (w_fw w));
                  EvAllocateBytes bytes p;
                  EvCopyMap false 0 n' (ms_map_key ms fw1)] in
  0 <= bytes_needed ->
  0 <= sizeof_ultra_memory_map_entry ->
  reserved < 2 ^ size_t_bits ->
  bytes < 2 ^ size_t_bits ->
  n' < 2 ^ size_t_bits ->
  ms_allocate_pages ms (CEILING_DIVIDE bytes PAGE_SIZE)
    ULTRA_MEMORY_TYPE_LOADER_RECLAIMABLE (w_fw w) = (Some p, fw1) ->
  (reserved >= n' ->
   allocate_attribute_array ms (S fuel) bytes_needed w =
   Ok ((reserved, address),
       zeroed_array w fw1 (attempt ++ [EvMemzero address bytes]) address))
  /\ (reserved < n' ->
      allocate_attribute_array ms (S fuel) bytes_needed w =
      allocate_attribute_array ms fuel bytes_needed
        (set_trace w
           (ms_free_pages ms address (CEILING_DIVIDE bytes PAGE_SIZE) fw1)
           (attempt ++ [EvFreeBytes address bytes]))).
Proof.
  intros n reserved bytes n' address attempt Hb He Hr Hbytes Hn' Halloc.
  assert (Hn : 0 <= n) by (subst n; unfold map_size; lia).
  assert (Hstep :
    allocate_attribute_array ms (S fuel) bytes_needed w =
    if reserved >=? n'
    then Ok ((reserved, address),
             zeroed_array w fw1 (attempt ++ [EvMemzero address bytes]) address)
    else allocate_attribute_array ms fuel bytes_needed
           (set_trace w
              (ms_free_pages ms address (CEILING_DIVIDE bytes PAGE_SIZE) fw1)
              (attempt ++ [EvFreeBytes address bytes]))).
  { cbn [allocate_attribute_array]. unfold bind at 1.
    rewrite copy_map_query_run by (fold n; lia).
    fold n. replace (size_t (n + 1)) with reserved
      by (symmetry; apply size_t_small; subst reserved; lia).
    assert (Hm : 0 <= reserved * sizeof_ultra_memory_map_entry) by (subst reserved; nia).
    rewrite (size_t_small (reserved * _)) by (subst bytes; lia).
    fold bytes. rewrite (size_t_small bytes) by (subst bytes; lia).
    unfold bind at 1. unfold allocate_critical_bytes, bind at 1.
    unfold with_fw at 1. cbn [w_fw set_trace]. rewrite Halloc.
    unfold bind at 1. unfold emit at 1, ret at 1.
    cbn [w_fw w_trace w_module_idx w_attribute_array set_trace].
    unfold bind at 1.
    match goal with
    | |- context [copy_map ms 0 0 None ?w1] =>
        rewrite (copy_map_query_run w1) by (cbn [w_fw]; fold n'; lia)
    end.
    cbn [w_fw w_trace w_module_idx w_attribute_array set_trace]. fold n' address.
    destruct (reserved >=? n') eqn:Hc.
    - unfold bind, memzero_attribute_array, ret, zeroed_array, set_trace.
      cbn [w_fw w_trace w_module_idx w_attribute_array].
      subst attempt. rewrite <- !app_assoc. cbn [app]. reflexivity.
    - unfold bind at 1. unfold free_bytes, bind at 1. unfold with_fw at 1.
      unfold emit at 1. unfold set_trace.
      cbn [w_fw w_trace w_module_idx w_attribute_array].
      subst attempt. rewrite <- !app_assoc. cbn [app]. reflexivity. }
  split; intros Hcmp; rewrite Hstep.
  - destruct (Z.geb_spec reserved n'); [reflexivity | lia].
  - destruct (Z.geb_spec reserved n'); [lia | reflexivity].
Qed.

End AllocationLoop.

(** The map grows by two entries under the first allocation (one more
    than reserved), so the first iteration frees and retries. *)
Lemma allocate_attribute_array_iteration_witness :
  let w := Mock.boot [1%nat] in
  let fw1 := snd (Mock.allocate_pages 1 0xFFFF0001 (Mock.firmware [1%nat])) in
  allocate_attribute_array (H:=Mock.x86_abi) Mock.memory_services 2 100 w =
  allocate_attribute_array (H:=Mock.x86_abi) Mock.memory_services 1 100
    (set_trace w (Mock.free 0x100000 1 fw1)
       [EvCopyMap false 0 3 1003; EvAllocateBytes 196 0x100000;
        EvCopyMap false 0 5 1005; EvFreeBytes 0x100000 196]).
Proof.
  intros w fw1.
  refine (proj2 (allocate_attribute_array_iteration (H:=Mock.x86_abi)
                   Mock.memory_services 1 100 w 0x100000 fw1 _ _ _ _ _ _) _);
    vm_compute; solve [reflexivity | discriminate].
Defined.

(** ** The records of the attribute array *)

Section AttributeArrayRecords.
Context `{ultra_abi} {FW : Type} (ms : memory_services FW).

Lemma allocate_attribute_array_zeroed fuel bytes_needed (w : world FW) r a w' :
  allocate_attribute_array ms fuel bytes_needed w = Ok ((r, a), w') ->
  w_attribute_array w' =
  Some {| aa_address := a; aa_attribute_count := 0; aa_records := [] |}.
Proof.
  revert w. induction fuel as [|fuel IH]; intros w Hrun; [discriminate|].
  cbn [allocate_attribute_array] in Hrun.
  apply bind_Ok in Hrun as ([[n k] l] & w1 & _ & Hrun).
  apply bind_Ok in Hrun as (p & w2 & _ & Hrun).
  apply bind_Ok in Hrun as ([[n' k'] l'] & w3 & _ & Hrun).
  destruct (_ >=? n').
  - apply bind_Ok in Hrun as ([] & w4 & Hz & Hret).
    unfold memzero_attribute_array in Hz. injection Hz as <-.
    unfold ret in Hret. injection Hret as <- <- <-. reflexivity.
  - apply bind_Ok in Hrun as ([] & w4 & _ & Hrun). now apply IH in Hrun.
Qed.




Lemma store_memory_map_entries_modules header_ptr entries attr_ptr
  (spec : attribute_array_spec) :
  List.map (fun r : Z * ultra_attribute =>
              match r with
              | (p, MemoryMapAttr h _) =>
                  if p =? header_ptr then (p, MemoryMapAttr h entries) else r
              | _ => r
              end) (copied_modules attr_ptr spec)
  = copied_modules attr_ptr spec.
Proof.
  unfold copied_modules. rewrite map_map. apply map_ext.
  intros i. destruct (nth i (modules spec) None); reflexivity.
Qed.


End AttributeArrayRecords.

Lemma Ok_pair_inj {A B} (a a' : A) (b b' : B) :
  Ok (a, b) = Ok (a', b') -> a = a' /\ b = b'.
Proof. intros E. injection E as -> ->. now split. Qed.

(** ** The attribute array as built *)

Section AttributeArrayTheorem.
Context `{ultra_abi} {FW : Type} (ms : memory_services FW).

Lemma build_attribute_array_run fuel (spec : attribute_array_spec) sp (w : world FW) hi w' :
  build_attribute_array ms fuel spec sp w = Ok (hi, w') ->
  exists reserved address w1 pi ka mm_header n,
    allocate_attribute_array ms fuel (bytes_needed_of spec) w
      = Ok ((reserved, address), w1)
    /\ create_kernel_info_attribute (kern_info spec) = Ok ka
    /\ hi = {| memory_map_handover_key := ms_map_key ms (w_fw w1);
               attribute_array_address := address |}
    /\ w_fw w' = w_fw w1
    /\ w_module_idx w' = w_module_idx w1
    /\ w_trace w' = w_trace w1
                    ++ [EvCopyMap true reserved n (ms_map_key ms (w_fw w1))]
    /\ (exists records,
        w_attribute_array w' =
          Some {| aa_address := address;
                  aa_attribute_count :=
                    (let c := u32 (u32 (u32 0 + 1) + 1) in
                     let c := if module_count spec =? 0 then c
                              else u32 (c + module_count spec) in
                     let c := if cmdline_present spec then u32 (c + 1) else c in
                     let c := if fb_present spec then u32 (c + 1) else c in
                     u32 (c + 1));
                  aa_records := records |}
        /\ List.map snd records =
           PlatformInfoAttr pi :: KernelInfoAttr ka
           :: (if module_count spec =? 0 then []
               else List.map snd (copied_modules
                      (address + sizeof_uint32_t + sizeof_uint32_t
                       + sizeof_ultra_platform_info_attribute
                       + sizeof_ultra_kernel_info_attribute) spec))
           ++ (if cmdline_present spec
               then [CommandLineAttr
                       {| ah_type := ULTRA_ATTRIBUTE_COMMAND_LINE;
                          ah_size_in_bytes := cmdline_aligned_length_of spec |}
                       (cmdline spec)]
               else [])
           ++ (if fb_present spec
               then [FramebufferAttr
                       {| ah_type := ULTRA_ATTRIBUTE_FRAMEBUFFER_INFO;
                          ah_size_in_bytes := sizeof_ultra_framebuffer_attribute |}
                       (fb spec)]
               else [])
           ++ [MemoryMapAttr mm_header
                 (firstn (Z.to_nat reserved)
                    (List.map ultra_memory_map_entry_convert
                       (ms_memory_map ms (w_fw w1))))])
    /\ ah_type (pi_header pi) = ULTRA_ATTRIBUTE_PLATFORM_INFO
    /\ ah_type mm_header = ULTRA_ATTRIBUTE_MEMORY_MAP.
Proof.
  intros Hrun. unfold build_attribute_array in Hrun.
  apply bind_Ok in Hrun as ([reserved address] & w1 & Hloop & Hrun).
  pose proof (allocate_attribute_array_zeroed _ _ _ _ _ _ _ Hloop) as Hz.
  destruct w1 as [fw1 t1 idx1 arr1]. cbn [w_attribute_array] in Hz. subst arr1.
  destruct (create_kernel_info_attribute (kern_info spec)) as [ka| | | |] eqn:Hka;
    try (cbv beta iota zeta delta
           [bind ret set_attr_count write_attribute add_attr_count
            modify_attribute_array lift_result option_map
            w_fw w_trace w_module_idx w_attribute_array] in Hrun;
         discriminate).
  destruct (module_count spec =? 0) eqn:Hmc;
    destruct (cmdline_present spec) eqn:Hcmd;
    destruct (fb_present spec) eqn:Hfb.
  all: cbv beta iota zeta delta
         [bind ret set_attr_count write_attribute write_attributes add_attr_count
          modify_attribute_array lift_result option_map copy_map emit
          store_memory_map_entries
          w_fw w_trace w_module_idx w_attribute_array
          aa_address aa_attribute_count aa_records] in Hrun.
  all: apply Ok_pair_inj in Hrun as [<- <-].
  all: eexists reserved, address, _, _, ka, _, _.
  all: cbn [w_fw w_trace w_module_idx w_attribute_array].
  all: split; [exact Hloop|].
  all: split; [reflexivity|].
  all: split; [reflexivity|].
  all: split; [reflexivity|].
  all: split; [reflexivity|].
  all: split; [reflexivity|].
  all: (split;
        [ eexists; split; [reflexivity|];
          rewrite ?map_app; cbn [List.map app];
          rewrite ?store_memory_map_entries_modules;
          rewrite ?map_app; cbn [List.map app snd];
          rewrite Z.eqb_refl; cbn [snd];
          rewrite <- ?app_assoc; cbn [app]; reflexivity
        | split; reflexivity ]).
Qed.



Lemma build_attribute_array_framebuffer fuel (spec : attribute_array_spec) sp
  (w : world FW) hi w' aa :
  build_attribute_array ms fuel spec sp w = Ok (hi, w') ->
  w_attribute_array w' = Some aa ->
  forall h f,
    In (FramebufferAttr h f) (List.map snd (aa_records aa)) ->
    fb_present spec = true /\ f = fb spec.
Proof.
  intros Hrun Haa h f Hin.
  apply build_attribute_array_run in Hrun
    as (reserved & address & w1 & pi & ka & mm & n & _ & _ & _ & _ & _ & _
        & (records & Harr & Hrecs) & _).
  rewrite Harr in Haa. injection Haa as <-. cbn [aa_records] in Hin.
  rewrite Hrecs in Hin.
  destruct Hin as [E|[E|Hin]]; try discriminate.
  apply in_app_or in Hin as [Hin|Hin].
  { destruct (module_count spec =? 0); [destruct Hin|].
    apply in_map_iff in Hin as ([q a] & E & Hin). cbn [snd] in E. subst a.
    unfold copied_modules in Hin. apply in_map_iff in Hin as (i & E & _).
    injection E as _ E. destruct (nth i (modules spec) None); discriminate. }
  apply in_app_or in Hin as [Hin|Hin].
  { destruct (cmdline_present spec); [|destruct Hin].
    destruct Hin as [E|[]]. discriminate. }
  apply in_app_or in Hin as [Hin|Hin].
  { destruct (fb_present spec); [|destruct Hin].
    destruct Hin as [E|[]]. injection E as _ <-. now split. }
  destruct Hin as [E|[]]. discriminate.
Qed.

End AttributeArrayTheorem.


(** ** What each phase may leave in the trace *)

Section Traces.
Context `{ultra_abi} {FW : Type}.
Variable P : event -> bool.

Lemma emits_ret {A} (a : A) : emits (FW:=FW) P (ret a).
Proof.
  intros w a' w' E. injection E as <- <-. exists []. split.
  - now rewrite app_nil_r.
  - constructor.
Qed.

Lemma emits_bind {A B} (m : M FW A) (f : A -> M FW B) :
  emits P m -> (forall a, emits P (f a)) -> emits P (bind m f).
Proof.
  intros Hm Hf w b w' E.
  apply bind_Ok in E as (a & w1 & E1 & E2).
  apply Hm in E1 as (t1 & Ht1 & F1). apply Hf in E2 as (t2 & Ht2 & F2).
  exists (t1 ++ t2). split.
  - now rewrite Ht2, Ht1, app_assoc.
  - now apply Forall_app.
Qed.

Lemma emits_oops {A} r : emits (FW:=FW) (A:=A) P (oops r).
Proof. intros w a w' E. discriminate. Qed.

Lemma emits_bug {A} r : emits (FW:=FW) (A:=A) P (bug r).
Proof. intros w a w' E. discriminate. Qed.

Lemma emits_out_of_fuel {A} : emits (FW:=FW) (A:=A) P out_of_fuel.
Proof. intros w a w' E. discriminate. Qed.

Lemma emits_emit e : P e = true -> emits (FW:=FW) P (emit e).
Proof.
  intros He w a w' E. injection E as <- <-. exists [e]. split.
  - reflexivity.
  - now repeat constructor.
Qed.

Lemma emits_undefined {A} what : emits (FW:=FW) (A:=A) P (undefined what).
Proof. intros w a w' E. discriminate. Qed.

Lemma emits_with_fw {A} (f : FW -> A * FW) : emits P (with_fw f).
Proof.
  intros w a w' E. unfold with_fw in E. destruct (f (w_fw w)) as [x fw'].
  injection E as <- <-. exists []. split.
  - cbn. now rewrite app_nil_r.
  - constructor.
Qed.

Lemma emits_lift_result {A} (r : result A) : emits (FW:=FW) P (lift_result r).
Proof.
  intros w a w' E. apply lift_result_Ok in E as [_ ->]. exists []. split.
  - now rewrite app_nil_r.
  - constructor.
Qed.

Lemma emits_next_module_idx : emits (FW:=FW) P next_module_idx.
Proof.
  intros w a w' E. injection E as <- <-. exists []. split.
  - cbn. now rewrite app_nil_r.
  - constructor.
Qed.

Lemma emits_BUG_ON c what : emits (FW:=FW) P (BUG_ON c what).
Proof. destruct c; [apply emits_bug | apply emits_ret]. Qed.

End Traces.

Ltac emits_step :=
  lazymatch goal with
  | |- emits _ (bind _ _) => apply emits_bind; [| intros ? ]
  | |- emits _ (ret _) => apply emits_ret
  | |- emits _ (oops _) => apply emits_oops
  | |- emits _ (bug _) => apply emits_bug
  | |- emits _ out_of_fuel => apply emits_out_of_fuel
  | |- emits _ (undefined _) => apply emits_undefined
  | |- emits _ (emit _) => apply emits_emit; reflexivity
  | |- emits _ (print_info _) => apply emits_emit; reflexivity
  | |- emits _ (with_fw _) => apply emits_with_fw
  | |- emits _ (lift_result _) => apply emits_lift_result
  | |- emits _ next_module_idx => apply emits_next_module_idx
  | |- emits _ (BUG_ON _ _) => apply emits_BUG_ON
  | |- emits _ (match ?x with _ => _ end) => destruct x
  | |- emits _ (let _ := _ in _) => cbv zeta
  end.

Section PreparationTraces.
Context `{ultra_abi} {FW : Type} (env : loader_env FW) (sv : services FW).

Lemma emits_allocate_critical_pages_with_type count type :
  emits preparation_event (allocate_critical_pages_with_type (ms sv) count type).
Proof. unfold allocate_critical_pages_with_type. repeat emits_step. Qed.

Lemma emits_allocate_critical_pages count :
  emits preparation_event (allocate_critical_pages (ms sv) count).
Proof. apply emits_allocate_critical_pages_with_type. Qed.

Lemma emits_allocate_critical_pages_with_type_at address count type :
  emits preparation_event (allocate_critical_pages_with_type_at (ms sv) address count type).
Proof. unfold allocate_critical_pages_with_type_at. repeat emits_step. Qed.

Lemma emits_allocate_critical_bytes bytes :
  emits preparation_event (allocate_critical_bytes (ms sv) bytes).
Proof. unfold allocate_critical_bytes. repeat emits_step. Qed.

Lemma emits_free_pages address count :
  emits preparation_event (free_pages (ms sv) address count).
Proof. unfold free_pages. repeat emits_step. Qed.

Lemma emits_free_bytes address bytes :
  emits preparation_event (free_bytes (ms sv) address bytes).
Proof. unfold free_bytes. repeat emits_step. Qed.

Lemma emits_copy_map_query :
  emits preparation_event (copy_map (ms sv) (E:=unit) 0 0 None).
Proof.
  intros w a w' E. unfold copy_map, bind, emit, ret in E.
  injection E as <- <-. eexists. split; [reflexivity|].
  now repeat constructor.
Qed.

Lemma emits_memzero address bytes :
  emits (FW:=FW) preparation_event (memzero_attribute_array address bytes).
Proof.
  intros w a w' E. injection E as <- <-. eexists. split; [reflexivity|].
  now repeat constructor.
Qed.

Lemma emits_allocate_attribute_array fuel bytes_needed :
  emits preparation_event (allocate_attribute_array (ms sv) fuel bytes_needed).
Proof.
  induction fuel as [|fuel IH]; cbn [allocate_attribute_array].
  - apply emits_out_of_fuel.
  - apply emits_bind; [apply emits_copy_map_query|]. intros [[n k] l].
    apply emits_bind; [apply emits_allocate_critical_bytes|]. intros p.
    apply emits_bind; [apply emits_copy_map_query|]. intros [[n' k'] l'].
    destruct (_ >=? n').
    + apply emits_bind; [apply emits_memzero|]. intros _. apply emits_ret.
    + apply emits_bind; [apply emits_free_bytes|]. intros _. exact IH.
Qed.

End PreparationTraces.

Section PreparationPhases.
Context `{ultra_abi} {FW : Type} (env : loader_env FW) (sv : services FW).

Ltac emits_auto :=
  repeat first
    [ apply emits_allocate_critical_pages_with_type
    | apply emits_allocate_critical_pages
    | apply emits_allocate_critical_pages_with_type_at
    | apply emits_allocate_critical_bytes
    | apply emits_free_pages
    | apply emits_free_bytes
    | emits_step ].

Lemma emits_get_binary_options cfg le opts :
  emits preparation_event (get_binary_options env cfg le opts).
Proof. unfold get_binary_options. emits_auto. Qed.

Lemma emits_load_kernel cfg entry info :
  emits preparation_event (load_kernel env sv cfg entry info).
Proof.
  unfold load_kernel.
  apply emits_bind; [apply emits_get_binary_options|]. intros opts.
  emits_auto.
Qed.

Lemma emits_module_load cfg module_value :
  emits preparation_event (module_load env sv cfg module_value).
Proof. unfold module_load. emits_auto. Qed.

Lemma emits_load_modules fuel cfg module_value ma :
  emits preparation_event (load_modules env fuel cfg sv module_value ma).
Proof.
  revert module_value ma.
  induction fuel as [|fuel IH]; intros module_value ma; cbn [load_modules].
  - apply emits_out_of_fuel.
  - cbv zeta. apply emits_bind; [emits_auto|]. intros ma'.
    apply emits_bind; [apply emits_module_load|]. intros attrs.
    apply emits_bind; [apply emits_lift_result|]. intros [next|].
    + apply IH.
    + apply emits_ret.
Qed.

Lemma emits_build_page_table bi :
  emits preparation_event (build_page_table (ms sv) bi).
Proof. unfold build_page_table. emits_auto. Qed.

Lemma emits_pick_stack cfg le :
  emits preparation_event (pick_stack (ms sv) cfg le).
Proof. unfold pick_stack. emits_auto. Qed.

Lemma emits_set_video_mode cfg entry (v : video_services) out_fb :
  emits (FW:=FW) preparation_event (set_video_mode cfg entry v out_fb).
Proof. unfold set_video_mode. emits_auto. Qed.

End PreparationPhases.

(** ** Runs of the protocol entry point *)

Section ProtocolRuns.
Context `{ultra_abi} {FW : Type} (env : loader_env FW).

Lemma ultra_protocol_load_run fuel cfg le (sv : services FW) (w w' : world FW) :
  ultra_protocol_load env fuel cfg le sv w = Ok (tt, w') ->
  exists ki cmdline ma pt stack fbp fb0 hi w_pre w_pt w_stack w_video w_built
         fw_final,
    (exists t, w_trace w_pre = w_trace w ++ t
               /\ Forall (fun e => preparation_event e = true) t)
    /\ build_page_table (ms sv) (bin_info ki) w_pre = Ok (pt, w_pt)
    /\ pick_stack (ms sv) cfg le w_pt = Ok (stack, w_stack)
    /\ set_video_mode cfg le (vs sv) zero_framebuffer w_stack
       = Ok ((fbp, fb0), w_video)
    /\ build_attribute_array (ms sv) fuel
         {| fb_present := fbp;
            cmdline_present := match cmdline with Some _ => true | None => false end;
            fb := if entrypoint_address (bin_info ki) >=? HIGHER_HALF_BASE
                  then rebase_framebuffer fb0 else fb0;
            cmdline := match cmdline with Some s => s | None => EmptyString end;
            kern_info := ki;
            modules := ma_modules ma;
            module_count := ma_module_count ma;
            stack_address := stack;
            acpi_rsdp_address := get_rsdp sv |}
         (provider sv) w_video = Ok (hi, w_built)
    /\ ms_handover (ms sv) (memory_map_handover_key hi) (w_fw w_built)
       = (true, fw_final)
    /\ w' =
       {| w_fw := fw_final;
          w_trace :=
            w_trace w_built
            ++ [EvHandover (memory_map_handover_key hi);
                EvPrintInfo "jumping to kernel";
                if bitness (bin_info ki) =? 32
                then EvKernelHandover32 (entrypoint_address (bin_info ki))
                       (kernel_visible (bin_info ki) stack)
                       (u32 (kernel_visible (bin_info ki)
                               (attribute_array_address hi)))
                       ULTRA_MAGIC
                else EvKernelHandover64 (entrypoint_address (bin_info ki))
                       (kernel_visible (bin_info ki) stack)
                       (match pt with Some t => root t | None => 0 end)
                       (kernel_visible (bin_info ki)
                          (attribute_array_address hi))
                       ULTRA_MAGIC];
          w_module_idx := w_module_idx w_built;
          w_attribute_array := w_attribute_array w_built |}.
Proof.
  intros Hrun. unfold ultra_protocol_load in Hrun. cbv zeta in Hrun.
  apply bind_Ok in Hrun as (modules_ptr & w1 & H1 & Hrun).
  apply bind_Ok in Hrun as (ki & w2 & H2 & Hrun).
  apply bind_Ok in Hrun as (cmdline & w3 & H3 & Hrun).
  apply bind_Ok in Hrun as (first & w4 & H4 & Hrun).
  apply bind_Ok in Hrun as (ma & w5 & H5 & Hrun).
  apply bind_Ok in Hrun as (pt & w6 & H6 & Hrun).
  apply bind_Ok in Hrun as (stack & w7 & H7 & Hrun).
  apply bind_Ok in Hrun as ([fbp fb0] & w8 & H8 & Hrun).
  apply bind_Ok in Hrun as (hi & w9 & H9 & Hrun).
  apply bind_Ok in Hrun as (handover_res & w10 & H10 & Hrun).
  apply bind_Ok in Hrun as ([] & w11 & H11 & Hrun).
  apply bind_Ok in Hrun as ([] & w12 & H12 & Hrun).
  apply bind_Ok in Hrun as ([] & w13 & H13 & Hrun).
  exists ki, cmdline, ma, pt, stack, fbp, fb0, hi, w5, w6, w7, w8, w9.
  unfold with_fw in H10.
  destruct (ms_handover (ms sv) (memory_map_handover_key hi) (w_fw w9))
    as [res fw_final] eqn:Hh.
  apply Ok_pair_inj in H10 as [<- <-].
  exists fw_final.
  split.
  { apply emits_allocate_critical_pages in H1 as (t1 & E1 & F1).
    apply emits_load_kernel in H2 as (t2 & E2 & F2).
    apply lift_result_Ok in H3 as [_ ->].
    apply lift_result_Ok in H4 as [_ ->].
    assert (E5 : exists t5, w_trace w5 = w_trace w2 ++ t5
                            /\ Forall (fun e => preparation_event e = true) t5).
    { destruct first.
      - now apply emits_load_modules in H5.
      - now apply (emits_ret preparation_event) in H5. }
    destruct E5 as (t5 & E5 & F5).
    exists (t1 ++ t2 ++ t5). split.
    - rewrite E5, E2, E1. now rewrite <- !app_assoc.
    - apply Forall_app; split; [assumption|]. apply Forall_app; now split. }
  do 4 (split; [assumption|]).
  destruct res; [|unfold emit in H11; apply Ok_pair_inj in H11 as [_ <-]; discriminate].
  split; [reflexivity|].
  unfold emit in H11. apply Ok_pair_inj in H11 as [_ <-].
  unfold BUG_ON, ret in H12. cbn [negb] in H12. apply Ok_pair_inj in H12 as [_ <-].
  unfold print_info, emit in H13. apply Ok_pair_inj in H13 as [_ <-].
  unfold kernel_visible.
  destruct (bitness (bin_info ki) =? 32);
    unfold emit in Hrun; apply Ok_pair_inj in Hrun as [_ <-];
    cbn [w_fw w_trace w_module_idx w_attribute_array];
    rewrite <- !app_assoc; reflexivity.
Qed.

(** C3: in a run of [ultra_protocol_load] that reaches the jump,
    [build_attribute_array] completes (its last act being the
    memory-map snapshot) strictly before [ms->handover] is invoked, the
    hand-over strictly before the jump, and between the snapshot and
    the jump there is no allocator or free operation: the trace ends
    with snapshot, hand-over, log line, jump, and nothing before them is
    a snapshot, a hand-over or a jump.  The hand-over is the firmware's
    own: [ms->handover] is called with the builder's key on the firmware
    state the builder left, it accepts, and the state it leaves is the
    one the kernel is entered with. *)
Theorem handover_ordering fuel cfg le (sv : services FW) (w w' : world FW) :
  ultra_protocol_load env fuel cfg le sv w = Ok (tt, w') ->
  exists before capacity count key message jump,
    w_trace w' =
      w_trace w ++ before
      ++ [EvCopyMap true capacity count key; EvHandover key;
          EvPrintInfo message; jump]
    /\ Forall (fun e => preparation_event e = true) before
    /\ is_jump_event jump = true
    /\ Forall (fun e => is_allocator_event e = false)
         [EvCopyMap true capacity count key; EvHandover key;
          EvPrintInfo message; jump]
    /\ exists spec hi w0 w1,
        build_attribute_array (ms sv) fuel spec (provider sv) w0 = Ok (hi, w1)
        /\ memory_map_handover_key hi = key
        /\ w_trace w1 =
           w_trace w ++ before ++ [EvCopyMap true capacity count key]
        /\ ms_handover (ms sv) key (w_fw w1) = (true, w_fw w').
Proof.
  intros Hrun.
  apply ultra_protocol_load_run in Hrun
    as (ki & cmdline & ma & pt & stack & fbp & fb0 & hi & w_pre & w_pt
        & w_stack & w_video & w_built & fw_final
        & (t0 & E0 & F0) & Hpt & Hstack & Hvideo & Hbuild & Hh & ->).
  apply emits_build_page_table in Hpt as (t1 & E1 & F1).
  apply emits_pick_stack in Hstack as (t2 & E2 & F2).
  apply emits_set_video_mode in Hvideo as (t3 & E3 & F3).
  pose proof Hbuild as Hb.
  apply build_attribute_array_run in Hb
    as (reserved & address & w1 & pi & ka & mm & n & Hloop & _ & Hhi & _ & _
        & Et & _).
  apply emits_allocate_attribute_array in Hloop as (t4 & E4 & F4).
  exists (t0 ++ t1 ++ t2 ++ t3 ++ t4), reserved, n,
         (memory_map_handover_key hi), "jumping to kernel"%string.
  eexists. cbn [w_trace].
  assert (Etrace :
    w_trace w_built =
    w_trace w ++ (t0 ++ t1 ++ t2 ++ t3 ++ t4)
    ++ [EvCopyMap true reserved n (memory_map_handover_key hi)]).
  { rewrite Et, E4, E3, E2, E1, E0, Hhi. cbn [memory_map_handover_key].
    now rewrite <- !app_assoc. }
  split; [|split; [|split; [|split]]].
  - rewrite Etrace. rewrite <- !app_assoc. cbn [app]. reflexivity.
  - repeat (apply Forall_app; split; [assumption|]). assumption.
  - destruct (bitness (bin_info ki) =? 32); reflexivity.
  - destruct (bitness (bin_info ki) =? 32); repeat constructor.
  - eexists _, hi, w_video, w_built. split; [exact Hbuild|].
    split; [reflexivity|]. split; [exact Etrace|exact Hh].
Qed.

End ProtocolRuns.

Lemma handover_ordering_witness :
  exists w' before capacity count key message jump,
    ultra_protocol_load (H:=Mock.x86_abi) (Mock.env Mock.higher_half_kernel) 8
      Mock.cfg_two_modules Mock.hello (Mock.services Mock.full_hd [])
      (Mock.boot []) = Ok (tt, w')
    /\ w_trace w' =
       before ++ [EvCopyMap true capacity count key; EvHandover key;
                  EvPrintInfo message; jump]
    /\ Forall (fun e => preparation_event e = true) before
    /\ is_jump_event jump = true
    /\ exists fw,
         ms_handover Mock.memory_services key fw = (true, w_fw w').
Proof.
  destruct (ultra_protocol_load (H:=Mock.x86_abi)
              (Mock.env Mock.higher_half_kernel) 8
              Mock.cfg_two_modules Mock.hello (Mock.services Mock.full_hd [])
              (Mock.boot [])) as [[[] w']| | | |] eqn:Hrun;
    try (vm_compute in Hrun; discriminate).
  destruct (handover_ordering (H:=Mock.x86_abi) _ _ _ _ _ _ _ Hrun)
    as (before & capacity & count & key & message & jump
        & Etrace & Hbefore & Hjump & _
        & spec & hi & w0 & w1 & _ & _ & _ & Hh).
  exists w', before, capacity, count, key, message, jump.
  split; [reflexivity|]. split; [exact Etrace|].
  split; [exact Hbefore|]. split; [exact Hjump|].
  exists (w_fw w1). exact Hh.
Defined.

(** ** Rebasing for a higher-half kernel *)

Section HigherHalf.
Context `{ultra_abi} {FW : Type} (env : loader_env FW).

Lemma allocate_attribute_array_address (ms : memory_services FW) fuel
  bytes_needed (w : world FW) r a w1 :
  allocate_attribute_array ms fuel bytes_needed w = Ok ((r, a), w1) ->
  u32 a = a.
Proof.
  revert w. induction fuel as [|f IH]; intros w Hloop; [discriminate|].
  cbn [allocate_attribute_array] in Hloop.
  apply bind_Ok in Hloop as ([[n k] l] & wa & _ & Hloop).
  apply bind_Ok in Hloop as (p & wb & _ & Hloop).
  apply bind_Ok in Hloop as ([[n' k'] l'] & wc & _ & Hloop).
  destruct (_ >=? n').
  - apply bind_Ok in Hloop as ([] & wd & _ & Hret).
    apply Ok_pair_inj in Hret as [E _]. injection E as _ <-.
    apply u32_small. apply wrap_range. lia.
  - apply bind_Ok in Hloop as ([] & wd & _ & Hloop). now apply IH in Hloop.
Qed.

(** C6: in a run of [ultra_protocol_load] that reaches the jump, the
    framebuffer address put into the attribute array and the stack and
    attribute-array addresses handed to the kernel are the physical ones
    increased by DIRECT_MAP_BASE (in 64-bit arithmetic) if the kernel's
    entry point is at or above HIGHER_HALF_BASE, and the physical ones
    themselves if it is below ([kernel_handover32] receives the
    attribute-array address through its [u32] cast).  The rebasing moves
    nothing: the stack is where [pick_stack] put it, the attribute array
    is still the region [build_attribute_array] allocated, and after
    that call only the firmware hand-over touches the firmware state. *)
Theorem higher_half_rebase fuel cfg le (sv : services FW) (w w' : world FW) :
  ultra_protocol_load env fuel cfg le sv w = Ok (tt, w') ->
  exists ki pt stack fbp fb0 spec hi aa w_pt w_stack w_video w_built before,
    let visible := kernel_visible (bin_info ki) in
    pick_stack (ms sv) cfg le w_pt = Ok (stack, w_stack)
    /\ set_video_mode cfg le (vs sv) zero_framebuffer w_stack
       = Ok ((fbp, fb0), w_video)
    /\ build_attribute_array (ms sv) fuel spec (provider sv) w_video
       = Ok (hi, w_built)
    /\ kern_info spec = ki
    /\ fb_present spec = fbp
    /\ fb_physical_address (fb spec) = visible (fb_physical_address fb0)
    /\ (forall h f,
          In (FramebufferAttr h f) (List.map snd (aa_records aa)) ->
          fbp = true
          /\ fb_physical_address f = visible (fb_physical_address fb0))
    /\ w_trace w' =
       before
       ++ [if bitness (bin_info ki) =? 32
           then EvKernelHandover32 (entrypoint_address (bin_info ki))
                  (visible stack)
                  (u32 (visible (attribute_array_address hi))) ULTRA_MAGIC
           else EvKernelHandover64 (entrypoint_address (bin_info ki))
                  (visible stack)
                  (match pt with Some t => root t | None => 0 end)
                  (visible (attribute_array_address hi)) ULTRA_MAGIC]
    /\ (forall x, HIGHER_HALF_BASE <= entrypoint_address (bin_info ki) ->
                  visible x = u64 (x + DIRECT_MAP_BASE))
    /\ (forall x, entrypoint_address (bin_info ki) < HIGHER_HALF_BASE ->
                  visible x = x)
    /\ (entrypoint_address (bin_info ki) < HIGHER_HALF_BASE ->
        u32 (visible (attribute_array_address hi)) = attribute_array_address hi)
    /\ w_attribute_array w' = Some aa
    /\ aa_address aa = attribute_array_address hi
    /\ w_attribute_array w' = w_attribute_array w_built
    /\ w_fw w' = snd (ms_handover (ms sv) (memory_map_handover_key hi)
                        (w_fw w_built)).
Proof.
  intros Hrun.
  apply ultra_protocol_load_run in Hrun
    as (ki & cmdline & ma & pt & stack & fbp & fb0 & hi & w_pre & w_pt
        & w_stack & w_video & w_built & fw_final
        & _ & Hpt & Hstack & Hvideo & Hbuild & Hh & ->).
  pose proof Hbuild as Hb.
  apply build_attribute_array_run in Hb
    as (reserved & address & w1 & pi & ka & mm & n & Hloop & _ & Hhi & _ & _
        & _ & (records & Harr & _) & _).
  assert (Haddr : u32 (attribute_array_address hi) = attribute_array_address hi).
  { rewrite Hhi. cbn [attribute_array_address].
    now apply allocate_attribute_array_address in Hloop. }
  eexists ki, pt, stack, fbp, fb0, _, hi, _, w_pt, w_stack, w_video, w_built,
          (w_trace w_built
           ++ [EvHandover (memory_map_handover_key hi);
               EvPrintInfo "jumping to kernel"]).
  cbv zeta. cbn [w_trace w_fw w_attribute_array].
  split; [exact Hstack|]. split; [exact Hvideo|]. split; [exact Hbuild|].
  cbn [kern_info fb_present fb].
  split; [reflexivity|]. split; [reflexivity|].
  assert (Hfb :
    fb_physical_address
      (if entrypoint_address (bin_info ki) >=? HIGHER_HALF_BASE
       then rebase_framebuffer fb0 else fb0)
    = kernel_visible (bin_info ki) (fb_physical_address fb0)).
  { unfold kernel_visible.
    destruct (entrypoint_address (bin_info ki) >=? HIGHER_HALF_BASE); reflexivity. }
  split; [exact Hfb|].
  split.
  { intros h f Hin.
    destruct (build_attribute_array_framebuffer _ _ _ _ _ _ _ _ Hbuild Harr h f Hin)
      as [Hp ->].
    cbn [fb_present fb] in *. now split. }
  split.
  { rewrite <- app_assoc. reflexivity. }
  split.
  { intros x Hx. unfold kernel_visible.
    destruct (Z.geb_spec (entrypoint_address (bin_info ki)) HIGHER_HALF_BASE);
      [reflexivity|lia]. }
  split.
  { intros x Hx. unfold kernel_visible.
    destruct (Z.geb_spec (entrypoint_address (bin_info ki)) HIGHER_HALF_BASE);
      [lia|reflexivity]. }
  split.
  { intros Hx. unfold kernel_visible.
    destruct (Z.geb_spec (entrypoint_address (bin_info ki)) HIGHER_HALF_BASE);
      [lia|exact Haddr]. }
  split; [exact Harr|].
  split; [rewrite Hhi; reflexivity|].
  split; [reflexivity|].
  now rewrite Hh.
Qed.

End HigherHalf.

Lemma higher_half_rebase_witness :
  exists w' ki pt stack hi aa before,
    ultra_protocol_load (H:=Mock.x86_abi) (Mock.env Mock.higher_half_kernel) 8
      Mock.cfg_boot Mock.hello
      (Mock.services Mock.full_hd [Mock.mode 1024 768 32 3])
      (Mock.boot []) = Ok (tt, w')
    /\ w_trace w' =
       before
       ++ [if bitness (bin_info ki) =? 32
           then EvKernelHandover32 (entrypoint_address (bin_info ki))
                  (kernel_visible (H:=Mock.x86_abi) (bin_info ki) stack)
                  (u32 (kernel_visible (H:=Mock.x86_abi) (bin_info ki)
                          (attribute_array_address hi)))
                  0x554c5442
           else EvKernelHandover64 (entrypoint_address (bin_info ki))
                  (kernel_visible (H:=Mock.x86_abi) (bin_info ki) stack)
                  (match pt with Some t => root t | None => 0 end)
                  (kernel_visible (H:=Mock.x86_abi) (bin_info ki)
                     (attribute_array_address hi))
                  0x554c5442]
    /\ w_attribute_array w' = Some aa
    /\ aa_address aa = attribute_array_address hi.
Proof.
  destruct (ultra_protocol_load (H:=Mock.x86_abi)
              (Mock.env Mock.higher_half_kernel) 8
              Mock.cfg_boot Mock.hello
              (Mock.services Mock.full_hd [Mock.mode 1024 768 32 3])
              (Mock.boot [])) as [[[] w']| | | |] eqn:Hrun;
    try (vm_compute in Hrun; discriminate).
  destruct (higher_half_rebase (H:=Mock.x86_abi) _ _ _ _ _ _ _ Hrun)
    as (ki & pt & stack & fbp & fb0 & spec & hi & aa & w_pt & w_stack
        & w_video & w_built & before
        & _ & _ & _ & _ & _ & _ & _ & Etrace & _ & _ & _ & Harr & Haddr & _).
  exists w', ki, pt, stack, hi, aa, before.
  repeat split; assumption.
Defined.

(** ** The page table as built *)

Section PageTableMappings.
Context `{ultra_abi} {FW : Type} (ms : memory_services FW).

Lemma CEILING_DIVIDE_covers x y :
  0 <= x -> 0 < y ->
  0 <= CEILING_DIVIDE x y /\ x <= CEILING_DIVIDE x y * y < x + y.
Proof.
  intros Hx Hy. unfold CEILING_DIVIDE.
  destruct (Z.eqb_spec x 0) as [->|Hn].
  - rewrite Z.div_0_l by lia. lia.
  - pose proof (Z.div_mod (x - 1) y ltac:(lia)) as Hdm.
    pose proof (Z.mod_pos_bound (x - 1) y Hy) as Hb.
    assert (0 <= (x - 1) / y) by (apply Z.div_pos; lia).
    nia.
Qed.

Lemma mapped_range_covers t vb pb pages a :
  0 < page_size_of t -> 0 <= pages -> 0 <= vb -> 0 <= pb ->
  vb + pages * page_size_of t <= 2 ^ 64 ->
  pb + pages * page_size_of t <= 2 ^ 64 ->
  0 <= a < pages * page_size_of t ->
  exists m,
    In m (mapped_range t vb pb pages)
    /\ pm_type m = t
    /\ pm_virtual m <= vb + a < pm_virtual m + page_size_of t
    /\ pm_physical m - pb = pm_virtual m - vb.
Proof.
  intros Hps Hpages Hvb Hpb Hv Hp Ha.
  set (s := page_size_of t) in *.
  set (i := a / s).
  assert (Hi : 0 <= i < pages).
  { subst i. split; [apply Z.div_pos; lia|]. apply Z.div_lt_upper_bound; lia. }
  pose proof (Z.div_mod a s ltac:(lia)) as Hdm. fold i in Hdm.
  pose proof (Z.mod_pos_bound a s Hps) as Hm.
  exists {| pm_virtual := u64 (vb + Z.of_nat (Z.to_nat i) * s);
            pm_physical := u64 (pb + Z.of_nat (Z.to_nat i) * s);
            pm_type := t |}.
  split.
  { unfold mapped_range. apply in_map_iff. exists (Z.to_nat i). split.
    - reflexivity.
    - apply in_seq. lia. }
  cbn [pm_type pm_virtual pm_physical]. rewrite Z2Nat.id by lia.
  rewrite !u64_small by nia.
  split; [reflexivity|]. split; nia.
Qed.

Lemma mapped_range_type t vb pb pages m :
  In m (mapped_range t vb pb pages) -> pm_type m = t.
Proof.
  unfold mapped_range. intros Hin. apply in_map_iff in Hin as (i & <- & _).
  reflexivity.
Qed.

Lemma build_page_table_run (bi : binary_info) (w : world FW)
  (root_address : Z) (fw1 : FW) :
  bitness bi = 64 ->
  ms_allocate_pages ms 1 ULTRA_MEMORY_TYPE_LOADER_RECLAIMABLE (w_fw w)
    = (Some root_address, fw1) ->
  build_page_table ms bi w =
  Ok (Some
        (let pt := {| root := root_address; levels := 4; pt_mappings := [] |} in
         let pt := map_critical_huge_pages pt 0 0 ((4 * GB) / HUGE_PAGE_SIZE) in
         let pt := map_critical_huge_pages pt DIRECT_MAP_BASE 0
                     ((4 * GB) / HUGE_PAGE_SIZE) in
         if negb (kernel_range_is_direct_map bi)
         then map_critical_pages pt (virtual_base bi) (physical_base bi)
                (CEILING_DIVIDE
                   (size_t (u64 (physical_ceiling bi - physical_base bi)))
                   PAGE_SIZE)
         else map_critical_huge_pages pt HIGHER_HALF_BASE 0
                ((2 * GB) / HUGE_PAGE_SIZE)),
      set_trace w fw1
        (w_trace w
         ++ [EvAllocatePages 1 ULTRA_MEMORY_TYPE_LOADER_RECLAIMABLE root_address])).
Proof.
  intros Hbits Halloc.
  unfold build_page_table. rewrite Hbits. cbn [Z.eqb Pos.eqb negb].
  unfold bind at 1. unfold allocate_critical_pages,
    allocate_critical_pages_with_type, bind at 1, with_fw at 1.
  rewrite Halloc. unfold bind, emit, ret. cbn [w_fw w_trace].
  reflexivity.
Qed.

(** C5, as the code has it: for a 64-bit [binary_info] the table has
    four levels, identity-maps physical 0..4 GiB with huge pages and maps
    DIRECT_MAP_BASE..DIRECT_MAP_BASE+4 GiB to physical 0..4 GiB with huge
    pages.  When [kernel_range_is_direct_map] is false it additionally
    maps [virtual_base, virtual_base + (ceiling - base)) to
    [physical_base, physical_ceiling) at 4 KiB granularity.  When it is
    true the table has no 4 KiB mapping, but one more huge-page window:
    HIGHER_HALF_BASE..HIGHER_HALF_BASE+2 GiB to physical 0..2 GiB. *)
Theorem build_page_table_mappings (bi : binary_info) (w : world FW)
  (root_address : Z) (fw1 : FW) :
  bitness bi = 64 ->
  0 < HUGE_PAGE_SIZE -> (2 * GB) mod HUGE_PAGE_SIZE = 0 ->
  0 <= DIRECT_MAP_BASE -> DIRECT_MAP_BASE + 4 * GB <= 2 ^ 64 ->
  0 <= HIGHER_HALF_BASE -> HIGHER_HALF_BASE + 2 * GB <= 2 ^ 64 ->
  size_t_bits <= 64 ->
  0 <= physical_base bi <= physical_ceiling bi ->
  physical_ceiling bi - physical_base bi < 2 ^ size_t_bits ->
  physical_ceiling bi + PAGE_SIZE <= 2 ^ 64 ->
  0 <= virtual_base bi ->
  virtual_base bi + (physical_ceiling bi - physical_base bi) + PAGE_SIZE
    <= 2 ^ 64 ->
  ms_allocate_pages ms 1 ULTRA_MEMORY_TYPE_LOADER_RECLAIMABLE (w_fw w)
    = (Some root_address, fw1) ->
  exists pt w',
    build_page_table ms bi w = Ok (Some pt, w')
    /\ root pt = root_address /\ levels pt = 4
    /\ pt_mappings pt =
       mapped_range PAGE_TYPE_HUGE 0 0 ((4 * GB) / HUGE_PAGE_SIZE)
       ++ mapped_range PAGE_TYPE_HUGE DIRECT_MAP_BASE 0 ((4 * GB) / HUGE_PAGE_SIZE)
       ++ (if kernel_range_is_direct_map bi
           then mapped_range PAGE_TYPE_HUGE HIGHER_HALF_BASE 0
                  ((2 * GB) / HUGE_PAGE_SIZE)
           else mapped_range PAGE_TYPE_NORMAL (virtual_base bi) (physical_base bi)
                  (CEILING_DIVIDE (physical_ceiling bi - physical_base bi)
                     PAGE_SIZE))
    /\ (forall a, 0 <= a < 4 * GB ->
          exists m, In m (pt_mappings pt) /\ pm_type m = PAGE_TYPE_HUGE
                    /\ pm_virtual m <= a < pm_virtual m + HUGE_PAGE_SIZE
                    /\ pm_physical m = pm_virtual m)
    /\ (forall a, 0 <= a < 4 * GB ->
          exists m, In m (pt_mappings pt) /\ pm_type m = PAGE_TYPE_HUGE
                    /\ pm_virtual m <= DIRECT_MAP_BASE + a
                       < pm_virtual m + HUGE_PAGE_SIZE
                    /\ pm_physical m + DIRECT_MAP_BASE = pm_virtual m)
    /\ (kernel_range_is_direct_map bi = false ->
        forall a, 0 <= a < physical_ceiling bi - physical_base bi ->
          exists m, In m (pt_mappings pt) /\ pm_type m = PAGE_TYPE_NORMAL
                    /\ pm_virtual m <= virtual_base bi + a
                       < pm_virtual m + PAGE_SIZE
                    /\ pm_physical m - physical_base bi
                       = pm_virtual m - virtual_base bi)
    /\ (kernel_range_is_direct_map bi = true ->
        (forall m, In m (pt_mappings pt) -> pm_type m = PAGE_TYPE_HUGE)
        /\ forall a, 0 <= a < 2 * GB ->
          exists m, In m (pt_mappings pt) /\ pm_type m = PAGE_TYPE_HUGE
                    /\ pm_virtual m <= HIGHER_HALF_BASE + a
                       < pm_virtual m + HUGE_PAGE_SIZE
                    /\ pm_physical m + HIGHER_HALF_BASE = pm_virtual m).
Proof.
  intros Hbits Hh Hdiv Hd0 Hd1 Hhh0 Hhh1 Hsz Hrange Hlen Hpc Hvb Hvend Halloc.
  set (L := physical_ceiling bi - physical_base bi) in *.
  assert (H2G : (2 * GB) / HUGE_PAGE_SIZE * HUGE_PAGE_SIZE = 2 * GB).
  { assert (Hnz : HUGE_PAGE_SIZE <> 0) by lia.
    pose proof (Z.div_mod (2 * GB) HUGE_PAGE_SIZE Hnz) as E.
    rewrite Hdiv in E. rewrite Z.mul_comm. lia. }
  assert (H4G : (4 * GB) / HUGE_PAGE_SIZE * HUGE_PAGE_SIZE = 4 * GB).
  { replace (4 * GB) with (2 * ((2 * GB) / HUGE_PAGE_SIZE) * HUGE_PAGE_SIZE) by lia.
    rewrite Z.div_mul by lia. lia. }
  assert (HGB : GB = 1073741824) by reflexivity.
  assert (Hn2 : 0 <= (2 * GB) / HUGE_PAGE_SIZE) by (apply Z.div_pos; lia).
  assert (Hn4 : 0 <= (4 * GB) / HUGE_PAGE_SIZE) by (apply Z.div_pos; lia).
  assert (Hpow : 2 ^ size_t_bits <= 2 ^ 64).
  { destruct (Z.le_gt_cases 0 size_t_bits).
    - apply Z.pow_le_mono_r; lia.
    - rewrite Z.pow_neg_r by lia. lia. }
  assert (Hpages : size_t (u64 L) = L).
  { rewrite u64_small by lia. apply size_t_small. lia. }
  pose proof (CEILING_DIVIDE_covers L PAGE_SIZE ltac:(lia) ltac:(reflexivity))
    as (Hc0 & Hc1).
  assert (HP : PAGE_SIZE = 4096) by reflexivity.
  eexists _, _. split.
  { eapply build_page_table_run; eassumption. }
  cbv zeta.
  fold L. rewrite Hpages.
  destruct (kernel_range_is_direct_map bi) eqn:Hdm;
    cbn [negb root levels pt_mappings map_critical_huge_pages
         map_critical_pages app];
    rewrite <- ?app_assoc;
    (split; [reflexivity|]); (split; [reflexivity|]);
    (split; [reflexivity|]).
  all: split; [|split; [|split]].
  all: try (intros Hf; discriminate Hf).
  - intros a Ha.
    destruct (mapped_range_covers PAGE_TYPE_HUGE 0 0 ((4 * GB) / HUGE_PAGE_SIZE) a)
      as (m & Hin & Ht & Hv & Hp); cbn [page_size_of]; try lia.
    exists m. split; [|repeat split; cbn [page_size_of] in *; first [assumption|lia]].
    apply in_or_app; now left.
  - intros a Ha.
    destruct (mapped_range_covers PAGE_TYPE_HUGE DIRECT_MAP_BASE 0
                ((4 * GB) / HUGE_PAGE_SIZE) a)
      as (m & Hin & Ht & Hv & Hp); cbn [page_size_of]; try lia.
    exists m. split; [|repeat split; cbn [page_size_of] in *; first [assumption|lia]].
    apply in_or_app; right; apply in_or_app; now left.
  - intros _. split.
    + intros m Hin.
      apply in_app_or in Hin as [Hin|Hin];
        [|apply in_app_or in Hin as [Hin|Hin]];
        now apply mapped_range_type in Hin.
    + intros a Ha.
      destruct (mapped_range_covers PAGE_TYPE_HUGE HIGHER_HALF_BASE 0
                  ((2 * GB) / HUGE_PAGE_SIZE) a)
        as (m & Hin & Ht & Hv & Hp); cbn [page_size_of]; try lia.
      exists m. split; [|repeat split; cbn [page_size_of] in *; first [assumption|lia]].
      apply in_or_app; right; apply in_or_app; now right.
  - intros a Ha.
    destruct (mapped_range_covers PAGE_TYPE_HUGE 0 0 ((4 * GB) / HUGE_PAGE_SIZE) a)
      as (m & Hin & Ht & Hv & Hp); cbn [page_size_of]; try lia.
    exists m. split; [|repeat split; cbn [page_size_of] in *; first [assumption|lia]].
    apply in_or_app; now left.
  - intros a Ha.
    destruct (mapped_range_covers PAGE_TYPE_HUGE DIRECT_MAP_BASE 0
                ((4 * GB) / HUGE_PAGE_SIZE) a)
      as (m & Hin & Ht & Hv & Hp); cbn [page_size_of]; try lia.
    exists m. split; [|repeat split; cbn [page_size_of] in *; first [assumption|lia]].
    apply in_or_app; right; apply in_or_app; now left.
  - intros _ a Ha.
    destruct (mapped_range_covers PAGE_TYPE_NORMAL (virtual_base bi)
                (physical_base bi) (CEILING_DIVIDE L PAGE_SIZE) a)
      as (m & Hin & Ht & Hv & Hp); cbn [page_size_of]; try lia.
    exists m. split; [|repeat split; cbn [page_size_of] in *; first [assumption|lia]].
    apply in_or_app; right; apply in_or_app; now right.
Qed.

End PageTableMappings.

Lemma build_page_table_mappings_witness :
  exists pt w',
    build_page_table (H:=Mock.x86_abi) Mock.memory_services
      Mock.relocated_kernel (Mock.boot []) = Ok (Some pt, w')
    /\ root pt = 0x100000 /\ levels pt = 4
    /\ exists m, In m (pt_mappings pt) /\ pm_type m = PAGE_TYPE_NORMAL
                 /\ pm_virtual m <= 0xFFFFFFFF80100000 + 0x2345
                    < pm_virtual m + PAGE_SIZE
                 /\ pm_physical m - 0x2000000 = pm_virtual m - 0xFFFFFFFF80100000.
Proof.
  destruct (build_page_table_mappings (H:=Mock.x86_abi) Mock.memory_services
              Mock.relocated_kernel (Mock.boot []) 0x100000
              (snd (Mock.allocate_pages 1 0xFFFF0001 (Mock.firmware []))))
    as (pt & w' & Hrun & Hroot & Hlevels & _ & _ & _ & Hkernel & _);
    try first [reflexivity | cbn; lia].
  exists pt, w'. repeat split; try assumption.
  apply (Hkernel eq_refl 0x2345). cbn. lia.
Defined.

(** C5, the counterexample: for a 64-bit kernel whose range is the
    direct map, the table holds an entry (the first of the
    HIGHER_HALF_BASE window) that belongs neither to the identity map
    nor to the DIRECT_MAP_BASE window. *)
Lemma build_page_table_direct_map_counterexample :
  exists pt w' m,
    build_page_table (H:=Mock.x86_abi) Mock.memory_services
      Mock.higher_half_kernel (Mock.boot []) = Ok (Some pt, w')
    /\ kernel_range_is_direct_map Mock.higher_half_kernel = true
    /\ In m (pt_mappings pt)
    /\ pm_virtual m = 0xFFFFFFFF80000000
    /\ ~ (0 <= pm_virtual m < 4 * GB)
    /\ ~ (0xFFFF800000000000 <= pm_virtual m < 0xFFFF800000000000 + 4 * GB).
Proof.
  eexists _, _, {| pm_virtual := 0xFFFFFFFF80000000; pm_physical := 0;
                   pm_type := PAGE_TYPE_HUGE |}.
  split.
  { apply (build_page_table_run (H:=Mock.x86_abi) Mock.memory_services
             Mock.higher_half_kernel (Mock.boot []) 0x100000
             (snd (Mock.allocate_pages 1 0xFFFF0001 (Mock.firmware []))));
      reflexivity. }
  split; [reflexivity|]. split.
  { cbn [negb kernel_range_is_direct_map Mock.higher_half_kernel pt_mappings
         map_critical_huge_pages].
    apply in_or_app. right. unfold mapped_range. apply in_map_iff.
    exists 0%nat. split; [reflexivity|]. apply in_seq. vm_compute. lia. }
  cbn [pm_virtual]. split; [reflexivity|]. split; cbn; lia.
Qed.

(** ** The video-mode picker *)

Section VideoModePicker.

Lemma find_snoc {A} (f : A -> bool) (l : list A) (x : A) :
  find f (l ++ [x]) =
  match find f l with
  | Some y => Some y
  | None => if f x then Some x else None
  end.
Proof.
  induction l as [|a l IH]; cbn [find app]; [reflexivity|].
  destruct (f a); [reflexivity|exact IH].
Qed.

(** With the "at-least" constraint the last mode of the list that is a
    candidate wins; without any candidate nothing is picked. *)
Lemma pick_video_mode_at_least rm native_res mode_list picked :
  constraint rm = VIDEO_MODE_CONSTRAINT_AT_LEAST ->
  pick_video_mode rm native_res mode_list picked =
  match find (candidate rm native_res) (rev mode_list) with
  | Some m => Some m
  | None => picked
  end.
Proof.
  intros Hc. revert picked.
  induction mode_list as [|m rest IH]; intros picked; [reflexivity|].
  cbn [pick_video_mode rev]. rewrite Hc. cbn [is_exactly andb].
  rewrite find_snoc. fold (candidate rm native_res m).
  destruct (candidate rm native_res m) eqn:Hm; rewrite IH;
    destruct (find _ (rev rest)); reflexivity.
Qed.

(** With the "exactly" constraint the first mode equal to the request
    wins, when there is one. *)
Lemma pick_video_mode_exactly rm native_res before m after picked :
  constraint rm = VIDEO_MODE_CONSTRAINT_EXACTLY ->
  Forall (fun m' => VM_EQUALS m' rm = false) before ->
  VM_EQUALS m rm = true ->
  pick_video_mode rm native_res (before ++ m :: after) picked = Some m.
Proof.
  intros Hc Hb Hm. revert picked.
  induction Hb as [|m' before Hm' _ IH]; intros picked;
    cbn [pick_video_mode app]; rewrite Hc; cbn [is_exactly andb].
  - now rewrite Hm.
  - rewrite Hm'. destruct (_ && _); apply IH.
Qed.

(** C4, the failing input: the request is 1024x768x32 "exactly", the
    only mode is 1920x1080x32 and so no mode matches the constraint; the
    picker does not halt but sets that mode, because the at-least test
    also runs under the "exactly" constraint. *)
Theorem set_video_mode_exactly_without_match :
  let modes := [Mock.mode 1920 1080 32 7] in
  let rm := {| rm_width := 1024; rm_height := 768; rm_bpp := 32;
               constraint := VIDEO_MODE_CONSTRAINT_EXACTLY; none := false |} in
  let run := set_video_mode Mock.cfg_video_exactly Mock.hello
               (Mock.video Mock.full_hd modes) zero_framebuffer (Mock.boot []) in
  forallb (fun m => negb (VM_EQUALS m rm)) modes = true
  /\ pick_video_mode rm Mock.full_hd modes None = Some (Mock.mode 1920 1080 32 7)
  /\ option_map fst (returned run) = Some true
  /\ option_map w_trace (final_world run)
     = Some [EvPrintInfo "picked video mode"; EvSetMode 7].
Proof. vm_compute. repeat split; reflexivity. Qed.

End VideoModePicker.

(** ** Module records *)

Section ModuleRecords.
Context `{ultra_abi} {FW : Type} (env : loader_env FW) (sv : services FW).

(** Whatever the configuration says, the record [module_load] leaves
    behind has an all-zero name: the structure assignment that ends the
    function names neither the configured name nor the generated one. *)
Lemma module_load_name cfg module_value (w : world FW) attrs w' :
  module_load env sv cfg module_value w = Ok (attrs, w') ->
  mi_name attrs = EmptyString
  /\ mi_header attrs =
     {| ah_type := ULTRA_ATTRIBUTE_MODULE_INFO;
        ah_size_in_bytes := sizeof_ultra_module_info_attribute |}.
Proof.
  unfold module_load. intros Hrun.
  apply bind_Ok in Hrun as (idx & w1 & _ & Hrun).
  apply bind_Ok in Hrun as ([module_name str_path] & w2 & _ & Hrun).
  destruct (parse_path env str_path) as [p|]; [|discriminate].
  destruct (fs_by_full_path env p) as [fs|]; [|discriminate].
  destruct (fs_open fs (path_within_partition p)) as [f|]; [|discriminate].
  apply bind_Ok in Hrun as (module_data & w3 & _ & Hrun).
  destruct (f_read_ok f); [|discriminate].
  apply Ok_pair_inj in Hrun as [<- _]. split; reflexivity.
Qed.

End ModuleRecords.

(** C8, the failing input: an entry with the modules
    [{ name = "init", path = "/init" }] and ["/mod2"].  The run reaches
    the jump and the two MODULE_INFO records are in source order, but
    both name fields are empty: neither "init" nor a generated
    "unnamed_module" name is in the array. *)
Theorem ultra_protocol_load_module_names :
  let run := ultra_protocol_load (H:=Mock.x86_abi)
               (Mock.env Mock.higher_half_kernel) 8 Mock.cfg_two_modules
               Mock.hello (Mock.services Mock.full_hd []) (Mock.boot []) in
  let array := match final_world run with
               | Some w => w_attribute_array w
               | None => None
               end in
  chain Mock.cfg_two_modules 1 "module"
    = [ {| data := DObject; cfg_off := 3 |};
        {| data := DString "/mod2"; cfg_off := 6 |} ]
  /\ cfg_get_string Mock.cfg_two_modules 3 "name" = Ok (Some "init"%string)
  /\ returned run = Some tt
  /\ option_map module_addresses array = Some [0x103000; 0x105000]
  /\ option_map module_names array = Some [EmptyString; EmptyString]
  /\ snprintf_unnamed_module 64 2 = "unnamed_module2"%string.
Proof. vm_compute. repeat split; reflexivity. Qed.

(** ** The stack picker *)

(** C9, the failing input: [stack = { allocate-at = 0x200000,
    size = 0x8000 }].  The sub-keys are looked up in the loadable entry,
    not in the object, so they are not found: the stack gets the default
    16 KiB at an address of the allocator's choosing.  The same two keys
    placed next to [stack] in the entry are honoured. *)
Theorem pick_stack_ignores_object_keys :
  let inside := pick_stack (H:=Mock.x86_abi) Mock.memory_services
                  Mock.cfg_stack_object Mock.hello (Mock.boot []) in
  let beside := pick_stack (H:=Mock.x86_abi) Mock.memory_services
                  Mock.cfg_stack_siblings Mock.hello (Mock.boot []) in
  cfg_get_one_of Mock.cfg_stack_object 3 "allocate-at"
    (Z.lor VALUE_STRING VALUE_UNSIGNED)
    = Ok (Some {| data := DUnsigned 0x200000; cfg_off := 4 |})
  /\ cfg_get_one_of Mock.cfg_stack_object 3 "size"
       (Z.lor VALUE_STRING VALUE_UNSIGNED)
     = Ok (Some {| data := DUnsigned 0x8000; cfg_off := 5 |})
  /\ returned inside = Some (0x100000 + 16 * KB)
  /\ option_map w_trace (final_world inside)
     = Some [EvAllocatePages 4 0xFFFF0003 0x100000]
  /\ returned beside = Some (0x200000 + 0x8000)
  /\ option_map w_trace (final_world beside)
     = Some [EvAllocatePagesAt 0x200000 8 0xFFFF0003].
Proof. vm_compute. repeat split; reflexivity. Qed.

(** ** End-to-end scenarios on the mock firmware *)

(** A 32-bit kernel, no modules, no video: the loader jumps through
    [kernel_handover32] with physical addresses, and the attribute array
    holds PLATFORM_INFO, KERNEL_INFO and MEMORY_MAP only. *)
Example protected_mode_boot :
  let cfg := [ Mock.entry "hello" 0 DObject;
               Mock.entry "binary" 1 (DString "/k.elf");
               Mock.entry "video-mode" 1 DNone ] in
  let run := ultra_protocol_load (H:=Mock.x86_abi)
               (Mock.env Mock.protected_mode_kernel) 8 cfg Mock.hello
               (Mock.services Mock.full_hd []) (Mock.boot []) in
  option_map (fun w => last (w_trace w) (EvPrintInfo EmptyString)) (final_world run)
    = Some (EvKernelHandover32 0x100000 0x107000 0x107000 0x554c5442)
  /\ option_map (fun w => option_map
                            (fun aa => List.map (fun r => attribute_type (snd r))
                                         (aa_records aa))
                            (w_attribute_array w)) (final_world run)
     = Some (Some [ULTRA_ATTRIBUTE_PLATFORM_INFO; ULTRA_ATTRIBUTE_KERNEL_INFO;
                   ULTRA_ATTRIBUTE_MEMORY_MAP]).
Proof. vm_compute. split; reflexivity. Qed.

(** The memory map outgrows the reservation on the first iteration of
    the allocation loop and is stable on the second: the builder
    succeeds after one free and two allocations. *)
Example attribute_array_second_attempt :
  let run := allocate_attribute_array (H:=Mock.x86_abi) Mock.memory_services
               2 100 (Mock.boot [1%nat]) in
  returned run = Some (4, 0x101000)
  /\ option_map w_trace (final_world run)
     = Some [EvCopyMap false 0 3 1003; EvAllocateBytes 196 0x100000;
             EvCopyMap false 0 5 1005; EvFreeBytes 0x100000 196;
             EvCopyMap false 0 3 1003; EvAllocateBytes 196 0x101000;
             EvCopyMap false 0 4 1004; EvMemzero 0x101000 196].
Proof. vm_compute. split; reflexivity. Qed.

(** The name [snprintf] generates for the first module. *)
Example first_unnamed_module :
  snprintf_unnamed_module 64 1 = "unnamed_module1"%string.
Proof. reflexivity. Qed.

(** * Further properties of the protocol loader *)

(** ** Ceiling division *)

(** X1: for a non-negative dividend and a positive divisor,
    [CEILING_DIVIDE(x, y)] is the least number of [y]-sized units that
    hold [x]: it is at most [k] exactly when [x <= k * y]. *)
Theorem CEILING_DIVIDE_least (x y k : Z) :
  0 <= x -> 0 < y ->
  (CEILING_DIVIDE x y <= k <-> x <= k * y).
Proof.
  intros Hx Hy. unfold CEILING_DIVIDE.
  destruct (Z.eqb_spec x 0) as [->|Hn].
  - rewrite Z.div_0_l by lia. nia.
  - pose proof (Z.div_mod (x - 1) y ltac:(lia)) as Hdm.
    pose proof (Z.mod_pos_bound (x - 1) y Hy) as Hb.
    split; intros Hk; nia.
Qed.

Lemma CEILING_DIVIDE_least_witness :
  CEILING_DIVIDE 4097 4096 <= 2 <-> 4097 <= 2 * 4096.
Proof. apply (CEILING_DIVIDE_least 4097 4096 2); lia. Defined.

(** ** Allocator calls, one at a time *)

Section AllocatorRuns.
Context `{ultra_abi} {FW : Type} (ms : memory_services FW).

Lemma allocate_critical_pages_with_type_Ok count type (w : world FW) a w' :
  allocate_critical_pages_with_type ms count type w = Ok (a, w') ->
  exists fw1,
    ms_allocate_pages ms count type (w_fw w) = (Some a, fw1)
    /\ w' = set_trace w fw1 (w_trace w ++ [EvAllocatePages count type a]).
Proof.
  unfold allocate_critical_pages_with_type, bind, with_fw.
  destruct (ms_allocate_pages ms count type (w_fw w)) as [[p|] fw1];
    [|discriminate].
  unfold emit, ret. cbn [w_fw w_trace w_module_idx w_attribute_array].
  intros E. apply Ok_pair_inj in E as [<- <-]. exists fw1. now split.
Qed.

Lemma allocate_critical_pages_with_type_at_Ok address count type
  (w : world FW) w' :
  allocate_critical_pages_with_type_at ms address count type w = Ok (tt, w') ->
  exists fw1,
    ms_allocate_pages_at ms address count type (w_fw w) = (true, fw1)
    /\ w' = set_trace w fw1
              (w_trace w ++ [EvAllocatePagesAt address count type]).
Proof.
  unfold allocate_critical_pages_with_type_at, bind, with_fw.
  destruct (ms_allocate_pages_at ms address count type (w_fw w)) as [[|] fw1];
    [|discriminate].
  unfold emit. cbn [w_fw w_trace w_module_idx w_attribute_array].
  intros E. apply Ok_pair_inj in E as [_ <-]. exists fw1. now split.
Qed.


End AllocatorRuns.

(** ** Computations that leave the world alone *)

Section ReadsOnly.
Context {FW : Type}.

Lemma reads_only_ret {A} (a : A) : reads_only (FW:=FW) (ret a).
Proof. intros w a' w' E. now apply Ok_pair_inj in E as [_ <-]. Qed.

Lemma reads_only_bind {A B} (m : M FW A) (f : A -> M FW B) :
  reads_only m -> (forall a, reads_only (f a)) -> reads_only (bind m f).
Proof.
  intros Hm Hf w b w' E. apply bind_Ok in E as (a & w1 & E1 & E2).
  apply Hm in E1. subst w1. now apply Hf in E2.
Qed.

Lemma reads_only_oops {A} r : reads_only (FW:=FW) (A:=A) (oops r).
Proof. intros w a w' E. discriminate. Qed.

Lemma reads_only_lift_result {A} (r : result A) :
  reads_only (FW:=FW) (lift_result r).
Proof. intros w a w' E. now apply lift_result_Ok in E as [_ ->]. Qed.

End ReadsOnly.

Ltac reads_only_step :=
  lazymatch goal with
  | |- reads_only (bind _ _) => apply reads_only_bind; [| intros ? ]
  | |- reads_only (ret _) => apply reads_only_ret
  | |- reads_only (oops _) => apply reads_only_oops
  | |- reads_only (lift_result _) => apply reads_only_lift_result
  | |- reads_only (match ?x with _ => _ end) => destruct x
  | |- reads_only (let _ := _ in _) => cbv zeta
  end.

(** ** The kernel stack, in general *)

Section PickStackRuns.
Context `{ultra_abi} {FW : Type} (ms : memory_services FW).

(** X2: whatever the configuration says, a completed [pick_stack]
    performs exactly one allocation, of type KERNEL_STACK (at a fixed
    address only if that address is not 0), and returns the address just
    past the end of the allocated pages: the initial stack top. *)
Theorem pick_stack_allocates_once cfg le (w : world FW) top w' :
  pick_stack ms cfg le w = Ok (top, w') ->
  exists base pages,
    top = u64 (base + size_t (pages * PAGE_SIZE))
    /\ (w_trace w' =
          w_trace w ++ [EvAllocatePages pages ULTRA_MEMORY_TYPE_KERNEL_STACK base]
        \/ (base <> 0
            /\ w_trace w' =
               w_trace w
               ++ [EvAllocatePagesAt base pages ULTRA_MEMORY_TYPE_KERNEL_STACK])).
Proof.
  unfold pick_stack. intros Hrun.
  apply bind_Ok in Hrun as (has_val & w1 & H1 & Hrun).
  apply lift_result_Ok in H1 as [_ ->].
  apply bind_Ok in Hrun as ([address size] & w2 & H2 & Hrun).
  assert (w2 = w) as ->.
  { match type of H2 with
    | ?m w = Ok _ =>
        assert (Hr : reads_only m) by (repeat reads_only_step)
    end.
    exact (Hr _ _ _ H2). }
  apply bind_Ok in Hrun as (base & w3 & H3 & Hrun).
  apply Ok_pair_inj in Hrun as [<- <-].
  exists base, (CEILING_DIVIDE size PAGE_SIZE). split; [reflexivity|].
  destruct (Z.eqb_spec address 0) as [E|E]; cbn [negb] in H3.
  - left. apply allocate_critical_pages_with_type_Ok in H3 as (fw1 & _ & ->).
    reflexivity.
  - right. apply bind_Ok in H3 as ([] & w4 & H3 & Hret).
    apply Ok_pair_inj in Hret as [<- <-].
    apply allocate_critical_pages_with_type_at_Ok in H3 as (fw1 & _ & ->).
    now split.
Qed.

End PickStackRuns.

Lemma pick_stack_allocates_once_witness :
  exists top w' base pages,
    pick_stack (H:=Mock.x86_abi) Mock.memory_services Mock.cfg_stack_siblings
      Mock.hello (Mock.boot []) = Ok (top, w')
    /\ top = u64 (base + size_t (H:=Mock.x86_abi) (pages * PAGE_SIZE))
    /\ (w_trace w' = [EvAllocatePages pages 0xFFFF0003 base]
        \/ (base <> 0 /\ w_trace w' = [EvAllocatePagesAt base pages 0xFFFF0003])).
Proof.
  destruct (pick_stack (H:=Mock.x86_abi) Mock.memory_services
              Mock.cfg_stack_siblings Mock.hello (Mock.boot []))
    as [[top w']| | | |] eqn:Hrun; try (vm_compute in Hrun; discriminate).
  destruct (pick_stack_allocates_once (H:=Mock.x86_abi) _ _ _ _ _ _ Hrun)
    as (base & pages & Htop & Htrace).
  exists top, w', base, pages. repeat split; assumption.
Defined.

Section PickStackDefaults.
Context `{ultra_abi} {FW : Type} (ms : memory_services FW).

(** X3: without a [stack] key, or with [stack = "auto"], the stack is
    16 KiB: four pages of type KERNEL_STACK wherever the allocator puts
    them, and the returned stack top is 16384 bytes above their base. *)
Theorem pick_stack_default cfg le (w : world FW) base fw1 :
  (chain cfg (le_cfg_off le) "stack" = []
   \/ exists off, chain cfg (le_cfg_off le) "stack"
                  = [{| data := DString "auto"; cfg_off := off |}]) ->
  16 * KB < 2 ^ size_t_bits ->
  ms_allocate_pages ms 4 ULTRA_MEMORY_TYPE_KERNEL_STACK (w_fw w)
    = (Some base, fw1) ->
  pick_stack ms cfg le w =
  Ok (u64 (base + 16 * KB),
      set_trace w fw1
        (w_trace w ++ [EvAllocatePages 4 ULTRA_MEMORY_TYPE_KERNEL_STACK base])).
Proof.
  intros Hkey Hbits Halloc.
  assert (Hsize : size_t (16 * KB) = 16 * KB)
    by (apply size_t_small; split; [now vm_compute|exact Hbits]).
  assert (Hpages : CEILING_DIVIDE (16 * KB) PAGE_SIZE = 4) by reflexivity.
  assert (Htop : size_t (4 * PAGE_SIZE) = 16 * KB).
  { change (4 * PAGE_SIZE) with (16 * KB). exact Hsize. }
  unfold pick_stack, cfg_get_one_of, _cfg_get_one_of.
  destruct Hkey as [-> | [off ->]]; cbn [andb negb List.length Nat.eqb].
  - unfold bind, lift_result, ret. rewrite Hsize, Hpages. cbn [Z.eqb negb].
    unfold allocate_critical_pages_with_type, bind, with_fw.
    rewrite Halloc. unfold emit, ret, set_trace.
    cbn [w_fw w_trace w_module_idx w_attribute_array]. now rewrite Htop.
  - change (type_in_mask {| data := DString "auto"; cfg_off := off |}
              (Z.lor VALUE_STRING VALUE_OBJECT)) with true.
    cbn match. unfold bind at 1, lift_result at 1.
    change (value_is_object {| data := DString "auto"; cfg_off := off |})
      with false.
    cbn match.
    change (sv_equals (as_string {| data := DString "auto"; cfg_off := off |})
              "auto") with true.
    cbn [negb]. unfold bind, ret. rewrite Hsize, Hpages. cbn [Z.eqb negb].
    unfold allocate_critical_pages_with_type, bind, with_fw.
    rewrite Halloc. unfold emit, ret, set_trace.
    cbn [w_fw w_trace w_module_idx w_attribute_array]. now rewrite Htop.
Qed.

(** X4: a [stack] key holding any string other than ["auto"] halts the
    loader with the "invalid value" oops, on every firmware state and
    whatever its allocator would answer. *)
Theorem pick_stack_invalid_string cfg le (w : world FW) s off :
  chain cfg (le_cfg_off le) "stack" = [{| data := DString s; cfg_off := off |}] ->
  s <> "auto"%string ->
  pick_stack ms cfg le w = Oops "invalid value for stack".
Proof.
  intros Hkey Hs.
  unfold pick_stack, cfg_get_one_of, _cfg_get_one_of. rewrite Hkey.
  cbn [andb negb List.length Nat.eqb].
  change (type_in_mask {| data := DString s; cfg_off := off |}
            (Z.lor VALUE_STRING VALUE_OBJECT)) with true.
  cbn match. unfold bind at 1, lift_result at 1.
  change (value_is_object {| data := DString s; cfg_off := off |}) with false.
  cbn match. unfold sv_equals, as_string. cbn [data].
  destruct (String.eqb_spec s "auto") as [E|E]; [contradiction|].
  reflexivity.
Qed.

End PickStackDefaults.

Lemma pick_stack_default_witness :
  pick_stack (H:=Mock.x86_abi) Mock.memory_services Mock.cfg_boot Mock.hello
    (Mock.boot []) =
  Ok (u64 (0x100000 + 16 * KB),
      set_trace (Mock.boot [])
        (snd (Mock.allocate_pages 4 0xFFFF0003 (Mock.firmware [])))
        [EvAllocatePages 4 0xFFFF0003 0x100000]).
Proof.
  apply (pick_stack_default (H:=Mock.x86_abi) Mock.memory_services
           Mock.cfg_boot Mock.hello (Mock.boot []) 0x100000
           (snd (Mock.allocate_pages 4 0xFFFF0003 (Mock.firmware [])))).
  - left. reflexivity.
  - reflexivity.
  - reflexivity.
Defined.

Lemma pick_stack_invalid_string_witness :
  pick_stack (H:=Mock.x86_abi) Mock.memory_services
    [Mock.entry "hello" 0 DObject; Mock.entry "stack" 1 (DString "big")]
    Mock.hello (Mock.boot []) = Oops "invalid value for stack".
Proof.
  apply (pick_stack_invalid_string (H:=Mock.x86_abi) Mock.memory_services
           _ Mock.hello (Mock.boot []) "big" 2%nat).
  - reflexivity.
  - discriminate.
Defined.

(** ** Loading the kernel *)

Section LoadKernelRuns.
Context `{ultra_abi} {FW : Type} (env : loader_env FW) (sv : services FW).



(** X6: without a [binary] key in the entry [load_kernel] halts with
    the oops of the mandatory lookup, whatever the filesystems, the ELF
    loader and the allocator would answer. *)
Theorem load_kernel_missing_binary cfg entry info (w : world FW) :
  chain cfg (le_cfg_off entry) "binary" = [] ->
  load_kernel env sv cfg entry info w
  = Oops "couldn't find mandatory key in the config file!".
Proof.
  intros Hkey.
  unfold load_kernel, get_binary_options, CFG_MANDATORY_GET_ONE_OF,
    _cfg_get_one_of.
  rewrite Hkey. reflexivity.
Qed.

(** X7: a completed [module_load] has resolved the path the
    configuration gives for the module (the value itself, or the
    mandatory [path] of an object) to a file, opened it and read it; it
    has advanced the module counter by exactly one and has made one
    allocation, of type MODULE, of the pages that hold that file; and
    the record describes it: its address is the allocation's and its
    length is the file's size. *)
Theorem module_load_record cfg module_value (w : world FW) attrs w' :
  module_load env sv cfg module_value w = Ok (attrs, w') ->
  exists str_path p fs f,
    (if value_is_object module_value
     then CFG_MANDATORY_GET_string cfg (cfg_off module_value) "path"
          = Ok str_path
     else str_path = as_string module_value)
    /\ parse_path env str_path = Some p
    /\ fs_by_full_path env p = Some fs
    /\ fs_open fs (path_within_partition p) = Some f
    /\ f_read_ok f = true
    /\ mi_length attrs = f_size f
    /\ w_module_idx w' = w_module_idx w + 1
    /\ w_trace w' =
       w_trace w
       ++ [EvAllocatePages (CEILING_DIVIDE (f_size f) PAGE_SIZE)
             ULTRA_MEMORY_TYPE_MODULE (mi_physical_address attrs)]
    /\ ms_allocate_pages (ms sv) (CEILING_DIVIDE (f_size f) PAGE_SIZE)
         ULTRA_MEMORY_TYPE_MODULE (w_fw w)
       = (Some (mi_physical_address attrs), w_fw w').
Proof.
  unfold module_load. intros Hrun.
  apply bind_Ok in Hrun as (idx & w1 & H1 & Hrun).
  apply Ok_pair_inj in H1 as [<- <-].
  apply bind_Ok in Hrun as ([module_name str_path] & w2 & H2 & Hrun).
  assert (Hw2 : w2 = {| w_fw := w_fw w; w_trace := w_trace w;
                        w_module_idx := w_module_idx w + 1;
                        w_attribute_array := w_attribute_array w |}).
  { match type of H2 with
    | ?m _ = Ok _ => assert (Hr : reads_only m) by (repeat reads_only_step)
    end.
    exact (Hr _ _ _ H2). }
  subst w2.
  assert (Hpath :
    if value_is_object module_value
    then CFG_MANDATORY_GET_string cfg (cfg_off module_value) "path"
         = Ok str_path
    else str_path = as_string module_value).
  { destruct (value_is_object module_value).
    - apply bind_Ok in H2 as (n & wa & _ & H2).
      apply bind_Ok in H2 as (s & wb & Hs & H2).
      apply lift_result_Ok in Hs as [Hs _].
      apply Ok_pair_inj in H2 as [E _]. injection E as _ <-. exact Hs.
    - apply Ok_pair_inj in H2 as [E _]. now injection E as _ <-. }
  destruct (parse_path env str_path) as [p|] eqn:Hp; [|discriminate].
  destruct (fs_by_full_path env p) as [fs|] eqn:Hfs; [|discriminate].
  destruct (fs_open fs (path_within_partition p)) as [f|] eqn:Hf;
    [|discriminate].
  apply bind_Ok in Hrun as (module_data & w3 & H3 & Hrun).
  destruct (f_read_ok f) eqn:Hread; [|discriminate].
  apply Ok_pair_inj in Hrun as [<- <-]. cbn [mi_length mi_physical_address].
  apply allocate_critical_pages_with_type_Ok in H3 as (fw1 & Ha & ->).
  cbn [w_fw] in Ha.
  exists str_path, p, fs, f.
  split; [exact Hpath|]. split; [exact Hp|]. split; [exact Hfs|].
  split; [exact Hf|]. split; [exact Hread|]. split; [reflexivity|].
  split; [reflexivity|]. split; [reflexivity|]. exact Ha.
Qed.

End LoadKernelRuns.


Lemma load_kernel_missing_binary_witness :
  load_kernel (H:=Mock.x86_abi) (Mock.env Mock.higher_half_kernel)
    (Mock.services Mock.full_hd []) Mock.cfg_video_exactly Mock.hello
    empty_kernel_info (Mock.boot [])
  = Oops "couldn't find mandatory key in the config file!".
Proof.
  apply (load_kernel_missing_binary (H:=Mock.x86_abi)).
  reflexivity.
Defined.

Lemma module_load_record_witness :
  exists attrs w' p fs f,
    module_load (H:=Mock.x86_abi) (Mock.env Mock.higher_half_kernel)
      (Mock.services Mock.full_hd []) Mock.cfg_two_modules
      {| data := DString "/mod2"; cfg_off := 6 |} (Mock.boot [])
    = Ok (attrs, w')
    /\ parse_path (Mock.env Mock.higher_half_kernel) "/mod2" = Some p
    /\ fs_by_full_path (Mock.env Mock.higher_half_kernel) p = Some fs
    /\ fs_open fs (path_within_partition p) = Some f
    /\ mi_length attrs = f_size f
    /\ w_module_idx w' = 1
    /\ w_trace w' =
       [EvAllocatePages (CEILING_DIVIDE (f_size f) PAGE_SIZE) 0xFFFF0002
          (mi_physical_address attrs)].
Proof.
  destruct (module_load (H:=Mock.x86_abi) (Mock.env Mock.higher_half_kernel)
              (Mock.services Mock.full_hd []) Mock.cfg_two_modules
              {| data := DString "/mod2"; cfg_off := 6 |} (Mock.boot []))
    as [[attrs w']| | | |] eqn:Hrun; try (vm_compute in Hrun; discriminate).
  destruct (module_load_record (H:=Mock.x86_abi) _ _ _ _ _ _ _ Hrun)
    as (str_path & p & fs & f & Hpath & Hp & Hfs & Hf & _ & Hlen & Hidx
        & Htrace & _).
  cbn in Hpath. subst str_path.
  exists attrs, w', p, fs, f. repeat split; assumption.
Defined.

(** ** Video-mode selection, in general *)

Lemma pick_video_mode_sound rm native_res mode_list picked m :
  pick_video_mode rm native_res mode_list picked = Some m ->
  picked = Some m
  \/ (In m mode_list
      /\ ((is_exactly (constraint rm) = true /\ VM_EQUALS m rm = true)
          \/ candidate rm native_res m = true)).
Proof.
  revert picked. induction mode_list as [|m' rest IH]; intros picked Hp.
  - now left.
  - cbn [pick_video_mode] in Hp.
    destruct (is_exactly (constraint rm) && VM_EQUALS m' rm) eqn:He.
    + injection Hp as <-. right. split; [now left|]. left.
      now apply andb_true_iff in He.
    + fold (candidate rm native_res m') in Hp.
      destruct (candidate rm native_res m') eqn:Hc; apply IH in Hp.
      * destruct Hp as [Hp|[Hin Hok]].
        -- injection Hp as <-. right. split; [now left|now right].
        -- right. split; [now right|exact Hok].
      * destruct Hp as [Hp|[Hin Hok]]; [now left|].
        right. split; [now right|exact Hok].
Qed.

Section SetVideoModeRuns.
Context {FW : Type}.

(** X8: when [set_video_mode] reports a framebuffer, the request [rm]
    is the one the configuration makes (the defaults 1024x768, 32 bpp,
    at least, as changed by the [video-mode] key through
    [video_mode_from_value]), and the mode that was set is the one the
    loop picks for that request out of the modes the video services
    enumerated: it equals the request in width, height and bpp, the
    constraint being "exactly", or it is at least the request in all
    three and within the native resolution; it is set once, after the
    log line. *)
Theorem set_video_mode_sets_listed_mode cfg entry (vs : video_services)
  out_fb (w : world FW) fb w' :
  set_video_mode cfg entry vs out_fb w = Ok ((true, fb), w') ->
  let default_rm :=
    {| rm_width := DEFAULT_WIDTH; rm_height := DEFAULT_HEIGHT;
       rm_bpp := DEFAULT_BPP;
       constraint := VIDEO_MODE_CONSTRAINT_AT_LEAST;
       none := false |} in
  let native_res :=
    query_resolution vs {| res_width := DEFAULT_WIDTH;
                           res_height := DEFAULT_HEIGHT |} in
  exists video_mode_val rm m,
    cfg_get_one_of cfg (le_cfg_off entry) "video-mode"
      (Z.lor (Z.lor VALUE_OBJECT VALUE_STRING) VALUE_NONE)
    = Ok video_mode_val
    /\ match video_mode_val with
       | Some v => video_mode_from_value cfg v default_rm = Ok rm
       | None => rm = default_rm
       end
    /\ none rm = false
    /\ pick_video_mode rm native_res (list_modes vs) None = Some m
    /\ In m (list_modes vs)
    /\ ((is_exactly (constraint rm) = true /\ VM_EQUALS m rm = true)
        \/ candidate rm native_res m = true)
    /\ set_mode vs (vm_id m) = Some fb
    /\ w_trace w' =
       w_trace w ++ [EvPrintInfo "picked video mode"; EvSetMode (vm_id m)]
    /\ w_fw w' = w_fw w.
Proof.
  unfold set_video_mode. intros Hrun. cbv zeta.
  apply bind_Ok in Hrun as (video_mode_val & w1 & H1 & Hrun).
  apply lift_result_Ok in H1 as [Hval ->].
  apply bind_Ok in Hrun as (rm & w2 & H2 & Hrun).
  assert (Hrm : match video_mode_val with
                | Some v =>
                    video_mode_from_value cfg v
                      {| rm_width := DEFAULT_WIDTH; rm_height := DEFAULT_HEIGHT;
                         rm_bpp := DEFAULT_BPP;
                         constraint := VIDEO_MODE_CONSTRAINT_AT_LEAST;
                         none := false |} = Ok rm
                | None =>
                    rm = {| rm_width := DEFAULT_WIDTH;
                            rm_height := DEFAULT_HEIGHT;
                            rm_bpp := DEFAULT_BPP;
                            constraint := VIDEO_MODE_CONSTRAINT_AT_LEAST;
                            none := false |}
                end /\ w2 = w).
  { destruct video_mode_val.
    - now apply lift_result_Ok in H2.
    - apply Ok_pair_inj in H2 as [<- <-]. now split. }
  destruct Hrm as [Hrm ->].
  destruct (none rm) eqn:Hnone.
  { apply Ok_pair_inj in Hrun as [E _]. discriminate. }
  destruct (pick_video_mode rm _ (list_modes vs) None) as [m|] eqn:Hpick;
    [|discriminate].
  pose proof Hpick as Hsound.
  apply pick_video_mode_sound in Hsound as [Hp|[Hin Hok]]; [discriminate|].
  apply bind_Ok in Hrun as ([] & w3 & H3 & Hrun).
  apply Ok_pair_inj in H3 as [_ <-].
  destruct (set_mode vs (vm_id m)) as [fb'|] eqn:Hset; [|discriminate].
  apply bind_Ok in Hrun as ([] & w4 & H4 & Hrun).
  apply Ok_pair_inj in H4 as [_ <-].
  apply Ok_pair_inj in Hrun as [E <-]. injection E as <-.
  exists video_mode_val, rm, m. cbn [w_trace w_fw]. rewrite <- app_assoc.
  split; [exact Hval|]. split; [exact Hrm|]. split; [exact Hnone|].
  split; [exact Hpick|]. split; [exact Hin|]. split; [exact Hok|].
  split; [exact Hset|]. split; reflexivity.
Qed.

(** X9: a [video-mode] of [null] or ["unset"] makes [set_video_mode]
    return false at once: the caller's framebuffer is handed back
    untouched and the video services are neither queried nor asked to
    set a mode. *)
Theorem set_video_mode_unset cfg entry (vs : video_services) out_fb
  (w : world FW) v :
  chain cfg (le_cfg_off entry) "video-mode" = [v] ->
  data v = DNone \/ data v = DString "unset" ->
  set_video_mode cfg entry vs out_fb w = Ok ((false, out_fb), w).
Proof.
  intros Hkey Hv.
  unfold set_video_mode, cfg_get_one_of, _cfg_get_one_of. rewrite Hkey.
  cbn [andb negb List.length Nat.eqb].
  destruct v as [d off]. cbn [data] in Hv.
  destruct Hv as [-> | ->]; reflexivity.
Qed.

End SetVideoModeRuns.

Lemma set_video_mode_sets_listed_mode_witness :
  exists fb w' rm m,
    set_video_mode Mock.cfg_boot Mock.hello
      (Mock.video Mock.full_hd [Mock.mode 800 600 32 1; Mock.mode 1280 1024 32 2])
      zero_framebuffer (Mock.boot []) = Ok ((true, fb), w')
    /\ video_mode_from_value Mock.cfg_boot
         {| data := DString "auto"; cfg_off := 3 |}
         {| rm_width := DEFAULT_WIDTH; rm_height := DEFAULT_HEIGHT;
            rm_bpp := DEFAULT_BPP;
            constraint := VIDEO_MODE_CONSTRAINT_AT_LEAST;
            none := false |} = Ok rm
    /\ pick_video_mode rm Mock.full_hd
         [Mock.mode 800 600 32 1; Mock.mode 1280 1024 32 2] None = Some m
    /\ w_trace w' = [EvPrintInfo "picked video mode"; EvSetMode (vm_id m)].
Proof.
  destruct (set_video_mode Mock.cfg_boot Mock.hello
              (Mock.video Mock.full_hd
                 [Mock.mode 800 600 32 1; Mock.mode 1280 1024 32 2])
              zero_framebuffer (Mock.boot []))
    as [[[[|] fb] w']| | | |] eqn:Hrun; try (vm_compute in Hrun; discriminate).
  destruct (set_video_mode_sets_listed_mode _ _ _ _ _ _ _ Hrun)
    as (v & rm & m & Hval & Hrm & _ & Hpick & _ & _ & _ & Htrace & _).
  vm_compute in Hval. injection Hval as <-.
  exists fb, w', rm, m. repeat split; assumption.
Defined.

Lemma set_video_mode_unset_witness :
  set_video_mode Mock.cfg_two_modules Mock.hello (Mock.video Mock.full_hd [])
    zero_framebuffer (Mock.boot [])
  = Ok ((false, zero_framebuffer), Mock.boot []).
Proof.
  apply (set_video_mode_unset Mock.cfg_two_modules Mock.hello
           (Mock.video Mock.full_hd []) zero_framebuffer (Mock.boot [])
           {| data := DNone; cfg_off := 7 |}).
  - reflexivity.
  - now left.
Defined.

(** X10: under the "at-least" constraint the picker returns the last
    enumerated mode that is at least the request in width, height and
    bpp and within the native resolution, and nothing if there is none. *)
Theorem pick_video_mode_last_candidate rm native_res mode_list :
  constraint rm = VIDEO_MODE_CONSTRAINT_AT_LEAST ->
  pick_video_mode rm native_res mode_list None
  = find (candidate rm native_res) (rev mode_list).
Proof.
  intros Hc. rewrite pick_video_mode_at_least by exact Hc.
  now destruct (find _ _).
Qed.

Lemma pick_video_mode_last_candidate_witness :
  pick_video_mode
    {| rm_width := 1024; rm_height := 768; rm_bpp := 32;
       constraint := VIDEO_MODE_CONSTRAINT_AT_LEAST; none := false |}
    Mock.full_hd
    [Mock.mode 800 600 32 1; Mock.mode 1024 768 32 2; Mock.mode 1920 1080 32 3;
     Mock.mode 2560 1440 32 4]
    None
  = Some (Mock.mode 1920 1080 32 3).
Proof.
  exact (pick_video_mode_last_candidate
           {| rm_width := 1024; rm_height := 768; rm_bpp := 32;
              constraint := VIDEO_MODE_CONSTRAINT_AT_LEAST; none := false |}
           Mock.full_hd
           [Mock.mode 800 600 32 1; Mock.mode 1024 768 32 2;
            Mock.mode 1920 1080 32 3; Mock.mode 2560 1440 32 4]
           eq_refl).
Defined.

(** X11: under the "exactly" constraint, when some enumerated mode
    equals the request in width, height and bpp, the picker returns the
    first such mode, whatever was enumerated before or after it. *)
Theorem pick_video_mode_first_exact rm native_res mode_list :
  constraint rm = VIDEO_MODE_CONSTRAINT_EXACTLY ->
  existsb (fun m => VM_EQUALS m rm) mode_list = true ->
  pick_video_mode rm native_res mode_list None
  = find (fun m => VM_EQUALS m rm) mode_list.
Proof.
  intros Hc. generalize (@None video_mode).
  induction mode_list as [|m rest IH]; intros picked Hex; [discriminate|].
  cbn [pick_video_mode find existsb] in *. rewrite Hc. cbn [is_exactly andb].
  destruct (VM_EQUALS m rm); [reflexivity|]. cbn [orb] in Hex.
  destruct (_ && _); now apply IH.
Qed.

Lemma pick_video_mode_first_exact_witness :
  pick_video_mode
    {| rm_width := 1024; rm_height := 768; rm_bpp := 32;
       constraint := VIDEO_MODE_CONSTRAINT_EXACTLY; none := false |}
    Mock.full_hd
    [Mock.mode 1920 1080 32 1; Mock.mode 1024 768 32 2; Mock.mode 1024 768 32 3]
    None
  = Some (Mock.mode 1024 768 32 2).
Proof.
  exact (pick_video_mode_first_exact
           {| rm_width := 1024; rm_height := 768; rm_bpp := 32;
              constraint := VIDEO_MODE_CONSTRAINT_EXACTLY; none := false |}
           Mock.full_hd
           [Mock.mode 1920 1080 32 1; Mock.mode 1024 768 32 2;
            Mock.mode 1024 768 32 3]
           eq_refl eq_refl).
Defined.

(** ** The module loop *)

Lemma chain_from_next (buffer : config) from in_scope k pre v post :
  chain_from buffer from in_scope k = pre ++ v :: post ->
  (from <= cfg_off v)%nat
  /\ exists e,
       nth_error buffer (cfg_off v - from) = Some e
       /\ scope e = in_scope /\ key e = k
       /\ chain_from (skipn (S (cfg_off v - from)) buffer) (S (cfg_off v))
            in_scope k = post.
Proof.
  revert from pre. induction buffer as [|e rest IH]; intros from pre Hc.
  - destruct pre; discriminate.
  - cbn [chain_from] in Hc.
    destruct (Nat.eqb (scope e) in_scope && String.eqb (key e) k) eqn:Hm.
    + destruct pre as [|p pre].
      * injection Hc as <- Hpost. cbn [cfg_off]. split; [lia|].
        rewrite Nat.sub_diag. exists e. cbn [nth_error skipn].
        apply andb_true_iff in Hm as [Hs Hk].
        apply Nat.eqb_eq in Hs. apply String.eqb_eq in Hk.
        now repeat split.
      * injection Hc as _ Hc. apply IH in Hc as (Hle & e' & Hn & Hs & Hk & Hp).
        split; [lia|]. exists e'.
        replace (cfg_off v - from)%nat with (S (cfg_off v - S from)) by lia.
        now repeat split.
    + apply IH in Hc as (Hle & e' & Hn & Hs & Hk & Hp).
      split; [lia|]. exists e'.
      replace (cfg_off v - from)%nat with (S (cfg_off v - S from)) by lia.
      now repeat split.
Qed.

Lemma cfg_get_next_one_of_chain (cfg : config) in_scope k pre v post mask :
  chain cfg in_scope k = pre ++ v :: post ->
  cfg_get_next_one_of cfg mask v true = next_in_chain post mask true.
Proof.
  intros Hc. apply chain_from_next in Hc as (Hle & e & Hn & Hs & Hk & Hp).
  unfold cfg_get_next_one_of.
  replace (pred (cfg_off v)) with (cfg_off v - 1)%nat by lia.
  rewrite Hn, Hs, Hk.
  replace (cfg_off v) with (S (cfg_off v - 1)) at 1 by lia.
  now rewrite Hp.
Qed.

Section ModuleLoop.
Context `{ultra_abi} {FW : Type} (env : loader_env FW) (sv : services FW).

(** X12: as long as the module array does not have to grow, the module
    loop leaves exactly one loaded MODULE_INFO record per [module] key
    of the entry, appended behind the records already there, and
    [module_count] counts them: a completed loop that started
    at the key [v], with [pre] keys before it and [post] after it, ends
    with [length pre + 1 + length post] records. *)
Theorem load_modules_one_record_per_key fuel cfg in_scope pre v post
  (ma : module_array) (w : world FW) ma' w' :
  chain cfg in_scope "module" = pre ++ v :: post ->
  ma_module_count ma = Z.of_nat (List.length pre) ->
  List.length (ma_modules ma) = List.length pre ->
  Z.of_nat (List.length (pre ++ v :: post)) < ma_modules_capacity ma ->
  ma_modules_capacity ma < 2 ^ size_t_bits ->
  load_modules env fuel cfg sv v ma w = Ok (ma', w') ->
  ma_module_count ma' = Z.of_nat (List.length (pre ++ v :: post))
  /\ ma_modules_ptr ma' = ma_modules_ptr ma
  /\ ma_modules_capacity ma' = ma_modules_capacity ma
  /\ exists loaded,
       ma_modules ma' = ma_modules ma ++ loaded
       /\ List.length loaded = List.length (v :: post)
       /\ Forall loaded_module loaded.
Proof.
  revert pre v post ma w.
  induction fuel as [|fuel IH]; intros pre v post ma w Hc Hcount Hlen Hcap Hsz Hrun;
    [discriminate|].
  cbn [load_modules] in Hrun. cbv zeta in Hrun.
  rewrite length_app in Hcap. cbn [List.length] in Hcap.
  assert (Hnext : size_t (ma_module_count ma + 1) = ma_module_count ma + 1)
    by (apply size_t_small; lia).
  rewrite Hnext in Hrun.
  destruct (Z.eqb_spec (ma_module_count ma + 1) (ma_modules_capacity ma))
    as [E|_]; [lia|].
  apply bind_Ok in Hrun as (ma1 & w1 & H1 & Hrun).
  apply Ok_pair_inj in H1 as [<- <-].
  cbn [ma_modules_ptr ma_modules ma_modules_capacity ma_module_count] in Hrun.
  apply bind_Ok in Hrun as (attrs & w2 & H2 & Hrun).
  apply module_load_name in H2 as [_ Hheader].
  apply bind_Ok in Hrun as (next & w3 & H3 & Hrun).
  apply lift_result_Ok in H3 as [H3 ->].
  rewrite (cfg_get_next_one_of_chain _ _ _ _ _ _ _ Hc) in H3.
  replace (Z.to_nat (ma_module_count ma + 1 - 1))
    with (List.length (ma_modules ma)) in Hrun by lia.
  assert (Hstore :
    array_store (List.length (ma_modules ma)) attrs (ma_modules ma)
    = ma_modules ma ++ [Some attrs]).
  { unfold array_store. rewrite Nat.ltb_irrefl, Nat.sub_diag. reflexivity. }
  rewrite Hstore in Hrun.
  assert (Hloaded : loaded_module (Some attrs)) by (exists attrs; now split).
  destruct post as [|v' post].
  - cbn [next_in_chain] in H3. injection H3 as <-.
    apply Ok_pair_inj in Hrun as [<- <-].
    cbn [ma_modules_ptr ma_modules ma_modules_capacity ma_module_count].
    rewrite length_app. cbn [List.length].
    split; [lia|]. split; [reflexivity|]. split; [reflexivity|].
    exists [Some attrs]. split; [reflexivity|]. split; [reflexivity|].
    now constructor.
  - cbn [next_in_chain] in H3.
    destruct (type_in_mask v' module_mask); [|discriminate].
    injection H3 as <-.
    apply (IH (pre ++ [v]) v' post) in Hrun.
    + cbn [ma_modules_ptr ma_modules ma_modules_capacity ma_module_count]
        in Hrun.
      destruct Hrun as (Hc' & Hp' & Hcap' & loaded & Hm & Hl & Hf).
      rewrite <- app_assoc in Hc'. cbn [app] in Hc'.
      split; [exact Hc'|]. split; [exact Hp'|]. split; [exact Hcap'|].
      exists (Some attrs :: loaded). rewrite Hm, <- app_assoc.
      split; [reflexivity|]. split; [cbn [List.length]; now rewrite Hl|].
      now constructor.
    + now rewrite <- app_assoc.
    + cbn [ma_module_count]. rewrite length_app. cbn [List.length]. lia.
    + cbn [ma_modules]. rewrite !length_app. cbn [List.length]. lia.
    + cbn [ma_modules_capacity]. rewrite !length_app.
      cbn [List.length] in *. lia.
    + exact Hsz.
Qed.

End ModuleLoop.

Lemma load_modules_one_record_per_key_witness :
  exists ma' w',
    load_modules (H:=Mock.x86_abi) (Mock.env Mock.higher_half_kernel) 4
      Mock.cfg_two_modules (Mock.services Mock.full_hd [])
      {| data := DObject; cfg_off := 3 |}
      {| ma_modules_ptr := 0x100000; ma_modules := [];
         ma_modules_capacity := 46; ma_module_count := 0 |}
      (Mock.boot []) = Ok (ma', w')
    /\ ma_module_count ma' = 2
    /\ exists loaded, ma_modules ma' = loaded
                      /\ List.length loaded = 2%nat
                      /\ Forall (loaded_module (H:=Mock.x86_abi)) loaded.
Proof.
  destruct (load_modules (H:=Mock.x86_abi) (Mock.env Mock.higher_half_kernel) 4
              Mock.cfg_two_modules (Mock.services Mock.full_hd [])
              {| data := DObject; cfg_off := 3 |}
              {| ma_modules_ptr := 0x100000; ma_modules := [];
                 ma_modules_capacity := 46; ma_module_count := 0 |}
              (Mock.boot []))
    as [[ma' w']| | | |] eqn:Hrun; try (vm_compute in Hrun; discriminate).
  destruct (load_modules_one_record_per_key (H:=Mock.x86_abi)
              (Mock.env Mock.higher_half_kernel)
              (Mock.services Mock.full_hd []) 4 Mock.cfg_two_modules 1%nat []
              {| data := DObject; cfg_off := 3 |}
              [{| data := DString "/mod2"; cfg_off := 6 |}]
              {| ma_modules_ptr := 0x100000; ma_modules := [];
                 ma_modules_capacity := 46; ma_module_count := 0 |}
              (Mock.boot []) ma' w'
              eq_refl eq_refl eq_refl eq_refl eq_refl Hrun)
    as (Hcount & _ & _ & loaded & Hm & Hl & Hf).
  exists ma', w'. split; [reflexivity|]. split; [exact Hcount|].
  exists loaded. repeat split; assumption.
Defined.

Section ModuleArrayGrowth.
Context `{ultra_abi} {FW : Type} (env : loader_env FW) (sv : services FW).


End ModuleArrayGrowth.


(** ** The memory-map snapshot *)

Section Snapshot.
Context `{ultra_abi} {FW : Type} (ms : memory_services FW).

Lemma allocate_attribute_array_commit fuel bytes_needed (w : world FW) r a w1 :
  allocate_attribute_array ms fuel bytes_needed w = Ok ((r, a), w1) ->
  size_t (map_size ms (w_fw w1)) <= r
  /\ exists t,
       w_trace w1 =
       t ++ [EvMemzero a
               (size_t (bytes_needed
                        + size_t (r * sizeof_ultra_memory_map_entry)))].
Proof.
  revert w. induction fuel as [|fuel IH]; intros w Hrun; [discriminate|].
  cbn [allocate_attribute_array] in Hrun.
  apply bind_Ok in Hrun as ([[n k] l] & wa & _ & Hrun).
  apply bind_Ok in Hrun as (p & wb & _ & Hrun).
  apply bind_Ok in Hrun as ([[n' k'] l'] & wc & Hq & Hrun).
  unfold copy_map, bind, emit, ret in Hq.
  apply Ok_pair_inj in Hq as [Hq <-]. injection Hq as <- _ _.
  cbn [w_fw w_trace] in Hrun.
  destruct (Z.geb_spec (size_t (n + 1))
              (size_t (Z.of_nat (List.length (ms_memory_map ms (w_fw wb))))))
    as [Hge|Hlt].
  - apply bind_Ok in Hrun as ([] & wd & Hz & Hret).
    apply Ok_pair_inj in Hz as [_ <-].
    apply Ok_pair_inj in Hret as [E <-]. injection E as <- <-.
    cbn [w_fw w_trace]. split; [exact Hge|]. eexists. reflexivity.
  - apply bind_Ok in Hrun as ([] & wd & _ & Hrun). now apply IH in Hrun.
Qed.

(** X14: the memory map [build_attribute_array] leaves in the attribute
    array is complete and current: it holds every entry of the
    firmware's map as it is when the builder returns, converted, in
    order, and the hand-over key it returns is the key of that very map. *)
Theorem build_attribute_array_snapshot fuel (spec : attribute_array_spec) sp
  (w : world FW) hi w' :
  build_attribute_array ms fuel spec sp w = Ok (hi, w') ->
  map_size ms (w_fw w') < 2 ^ size_t_bits ->
  memory_map_handover_key hi = ms_map_key ms (w_fw w')
  /\ exists aa h,
       w_attribute_array w' = Some aa
       /\ last (List.map snd (aa_records aa)) IndeterminateAttr
          = MemoryMapAttr h
              (List.map ultra_memory_map_entry_convert
                 (ms_memory_map ms (w_fw w'))).
Proof.
  intros Hrun Hsize.
  apply build_attribute_array_run in Hrun
    as (reserved & address & w1 & pi & ka & mm & n & Hloop & _ & -> & Hfw & _
        & _ & (records & Harr & Hrecs) & _).
  apply allocate_attribute_array_commit in Hloop as [Hres _].
  rewrite Hfw in *. cbn [memory_map_handover_key]. split; [reflexivity|].
  eexists _, mm. split; [exact Harr|]. cbn [aa_records]. rewrite Hrecs.
  rewrite size_t_small in Hres by (unfold map_size in *; lia).
  rewrite firstn_all2 by (rewrite length_map; unfold map_size in Hres; lia).
  change (PlatformInfoAttr pi :: KernelInfoAttr ka :: ?l)
    with ([PlatformInfoAttr pi; KernelInfoAttr ka] ++ l).
  rewrite !app_assoc. apply last_last.
Qed.

End Snapshot.

Lemma build_attribute_array_snapshot_witness :
  exists hi w' aa h,
    build_attribute_array (H:=Mock.x86_abi) Mock.memory_services 4
      Mock.sample_spec SERVICE_PROVIDER_BIOS (Mock.boot [1%nat]) = Ok (hi, w')
    /\ memory_map_handover_key hi = 1004
    /\ w_attribute_array w' = Some aa
    /\ last (List.map snd (aa_records aa)) IndeterminateAttr
       = MemoryMapAttr h
           (List.map (ultra_memory_map_entry_convert (H:=Mock.x86_abi))
              (Mock.regions (w_fw w'))).
Proof.
  destruct (build_attribute_array (H:=Mock.x86_abi) Mock.memory_services 4
              Mock.sample_spec SERVICE_PROVIDER_BIOS (Mock.boot [1%nat]))
    as [[hi w']| | | |] eqn:Hrun; try (vm_compute in Hrun; discriminate).
  destruct (build_attribute_array_snapshot (H:=Mock.x86_abi) _ _ _ _ _ _ _ Hrun)
    as (Hkey & aa & h & Harr & Hlast).
  - vm_compute in Hrun. injection Hrun as _ <-. reflexivity.
  - exists hi, w', aa, h. split; [reflexivity|]. split.
    + rewrite Hkey. vm_compute in Hrun. injection Hrun as _ <-. reflexivity.
    + split; assumption.
Defined.

Section HandoverKey.
Context `{ultra_abi} {FW : Type} (env : loader_env FW).

(** X15: in a run of [ultra_protocol_load] that reaches the jump, the
    firmware's [handover] was called on the very firmware state the
    snapshot was taken from, with the key of that state's memory map,
    and it accepted; and (the map's size fitting [size_t]) the memory
    map in the attribute array is the complete, converted map of that
    state. *)
Theorem handover_uses_snapshot_key fuel cfg le (sv : services FW)
  (w w' : world FW) :
  ultra_protocol_load env fuel cfg le sv w = Ok (tt, w') ->
  exists fw aa,
    ms_handover (ms sv) (ms_map_key (ms sv) fw) fw = (true, w_fw w')
    /\ In (EvHandover (ms_map_key (ms sv) fw)) (w_trace w')
    /\ w_attribute_array w' = Some aa
    /\ (map_size (ms sv) fw < 2 ^ size_t_bits ->
        exists h,
          last (List.map snd (aa_records aa)) IndeterminateAttr
          = MemoryMapAttr h
              (List.map ultra_memory_map_entry_convert
                 (ms_memory_map (ms sv) fw))).
Proof.
  intros Hrun.
  apply ultra_protocol_load_run in Hrun
    as (ki & cmdline & ma & pt & stack & fbp & fb0 & hi & w_pre & w_pt
        & w_stack & w_video & w_built & fw_final
        & _ & _ & _ & _ & Hbuild & Hh & ->).
  pose proof Hbuild as Hb.
  apply build_attribute_array_run in Hb
    as (reserved & address & w1 & pi & ka & mm & n & Hloop & _ & Hhi & Hfw & _
        & _ & (records & Harr & Hrecs) & _).
  assert (Hkey : memory_map_handover_key hi = ms_map_key (ms sv) (w_fw w_built))
    by (rewrite Hhi, Hfw; reflexivity).
  rewrite Hkey in *.
  eexists (w_fw w_built), _. cbn [w_fw w_trace w_attribute_array].
  split; [exact Hh|]. split.
  { apply in_or_app. right. now left. }
  split; [exact Harr|].
  intros Hsize.
  apply allocate_attribute_array_commit in Hloop as [Hres _].
  rewrite Hfw in *. exists mm. cbn [aa_records]. rewrite Hrecs.
  rewrite size_t_small in Hres by (unfold map_size in *; lia).
  rewrite firstn_all2 by (rewrite length_map; unfold map_size in Hres; lia).
  change (PlatformInfoAttr pi :: KernelInfoAttr ka :: ?l)
    with ([PlatformInfoAttr pi; KernelInfoAttr ka] ++ l).
  rewrite !app_assoc. apply last_last.
Qed.

End HandoverKey.

Lemma handover_uses_snapshot_key_witness :
  exists w' fw aa,
    ultra_protocol_load (H:=Mock.x86_abi) (Mock.env Mock.higher_half_kernel) 8
      Mock.cfg_boot Mock.hello
      (Mock.services Mock.full_hd [Mock.mode 1024 768 32 3])
      (Mock.boot []) = Ok (tt, w')
    /\ Mock.memory_services.(ms_handover)
         (ms_map_key Mock.memory_services fw) fw = (true, w_fw w')
    /\ w_attribute_array w' = Some aa.
Proof.
  destruct (ultra_protocol_load (H:=Mock.x86_abi)
              (Mock.env Mock.higher_half_kernel) 8
              Mock.cfg_boot Mock.hello
              (Mock.services Mock.full_hd [Mock.mode 1024 768 32 3])
              (Mock.boot [])) as [[[] w']| | | |] eqn:Hrun;
    try (vm_compute in Hrun; discriminate).
  destruct (handover_uses_snapshot_key (H:=Mock.x86_abi) _ _ _ _ _ _ _ Hrun)
    as (fw & aa & Hh & _ & Harr & _).
  exists w', fw, aa. repeat split; assumption.
Defined.

(** ** The layout of the attribute array *)

Section Layout.
Context `{ultra_abi} {FW : Type} (ms : memory_services FW).

Lemma build_attribute_array_layout_run fuel (spec : attribute_array_spec) sp
  (w : world FW) hi w' :
  build_attribute_array ms fuel spec sp w = Ok (hi, w') ->
  exists reserved w1 pi ka mm entries aa,
    allocate_attribute_array ms fuel (bytes_needed_of spec) w
      = Ok ((reserved, attribute_array_address hi), w1)
    /\ w_trace w' =
       w_trace w1
       ++ [EvCopyMap true reserved (size_t (map_size ms (w_fw w1)))
             (ms_map_key ms (w_fw w1))]
    /\ w_attribute_array w' = Some aa
    /\ aa_address aa = attribute_array_address hi
    /\ pi_header pi =
       {| ah_type := ULTRA_ATTRIBUTE_PLATFORM_INFO;
          ah_size_in_bytes := sizeof_ultra_platform_info_attribute |}
    /\ ka_header ka =
       {| ah_type := ULTRA_ATTRIBUTE_KERNEL_INFO;
          ah_size_in_bytes := sizeof_ultra_kernel_info_attribute |}
    /\ mm =
       {| ah_type := ULTRA_ATTRIBUTE_MEMORY_MAP;
          ah_size_in_bytes :=
            u32 (size_t (size_t (reserved * sizeof_ultra_memory_map_entry)
                         + sizeof_ultra_memory_map_attribute)) |}
    /\ (let p0 := attribute_array_address hi + sizeof_uint32_t + sizeof_uint32_t in
        let p1 := p0 + sizeof_ultra_platform_info_attribute in
        let p2 := p1 + sizeof_ultra_kernel_info_attribute in
        let p3 := if module_count spec =? 0 then p2
                  else p2 + size_t (module_count spec
                                    * sizeof_ultra_module_info_attribute) in
        let p4 := if cmdline_present spec
                  then p3 + cmdline_aligned_length_of spec else p3 in
        let p5 := if fb_present spec
                  then p4 + sizeof_ultra_framebuffer_attribute else p4 in
        aa_records aa =
        (p0, PlatformInfoAttr pi) :: (p1, KernelInfoAttr ka)
        :: (if module_count spec =? 0 then [] else copied_modules p2 spec)
        ++ (if cmdline_present spec
            then [(p3, CommandLineAttr
                         {| ah_type := ULTRA_ATTRIBUTE_COMMAND_LINE;
                            ah_size_in_bytes := cmdline_aligned_length_of spec |}
                         (cmdline spec))]
            else [])
        ++ (if fb_present spec
            then [(p4, FramebufferAttr
                         {| ah_type := ULTRA_ATTRIBUTE_FRAMEBUFFER_INFO;
                            ah_size_in_bytes := sizeof_ultra_framebuffer_attribute |}
                         (fb spec))]
            else [])
        ++ [(p5, MemoryMapAttr mm entries)]).
Proof.
  intros Hrun. unfold build_attribute_array in Hrun.
  apply bind_Ok in Hrun as ([reserved address] & w1 & Hloop & Hrun).
  pose proof (allocate_attribute_array_zeroed _ _ _ _ _ _ _ Hloop) as Hz.
  destruct w1 as [fw1 t1 idx1 arr1]. cbn [w_attribute_array] in Hz. subst arr1.
  destruct (create_kernel_info_attribute (kern_info spec)) as [ka| | | |] eqn:Hka;
    try (cbv beta iota zeta delta
           [bind ret set_attr_count write_attribute add_attr_count
            modify_attribute_array lift_result option_map
            w_fw w_trace w_module_idx w_attribute_array] in Hrun;
         discriminate).
  assert (Hkh : ka_header ka =
                {| ah_type := ULTRA_ATTRIBUTE_KERNEL_INFO;
                   ah_size_in_bytes := sizeof_ultra_kernel_info_attribute |}).
  { unfold create_kernel_info_attribute in Hka.
    destruct (_ >? _); [discriminate|]. injection Hka as <-. reflexivity. }
  destruct (module_count spec =? 0) eqn:Hmc;
    destruct (cmdline_present spec) eqn:Hcmd;
    destruct (fb_present spec) eqn:Hfb.
  all: cbv beta iota zeta delta
         [bind ret set_attr_count write_attribute write_attributes add_attr_count
          modify_attribute_array lift_result option_map copy_map emit
          store_memory_map_entries
          w_fw w_trace w_module_idx w_attribute_array
          aa_address aa_attribute_count aa_records] in Hrun.
  all: apply Ok_pair_inj in Hrun as [<- <-].
  all: cbn [attribute_array_address].
  all: eexists reserved, _, _, ka, _, _, _.
  all: cbn [w_fw w_trace w_module_idx w_attribute_array].
  all: split; [exact Hloop|].
  all: split; [reflexivity|].
  all: split; [reflexivity|].
  all: cbn [aa_address aa_records].
  all: split; [reflexivity|].
  all: (split;
        [| split; [exact Hkh|]; split; [reflexivity|];
           cbv zeta;
           rewrite ?map_app; cbn [List.map app];
           rewrite ?store_memory_map_entries_modules;
           rewrite ?map_app; cbn [List.map app];
           rewrite Z.eqb_refl;
           rewrite <- ?app_assoc; cbn [app]; reflexivity ]).
  all: reflexivity.
Qed.

Lemma contiguous_app p l1 l2 :
  contiguous p (l1 ++ l2) <-> contiguous p l1 /\ contiguous (layout_end p l1) l2.
Proof.
  revert p. induction l1 as [|[q a] l1 IH]; intros p; cbn [contiguous layout_end app].
  - tauto.
  - rewrite IH. tauto.
Qed.

Lemma module_slots_contiguous (l : list (option ultra_module_info_attribute))
  p a n :
  (forall i, (a <= i < a + n)%nat -> loaded_module (nth i l None)) ->
  let slots :=
    List.map (fun i : nat =>
                (p + Z.of_nat i * sizeof_ultra_module_info_attribute,
                 module_slot (nth i l None))) (seq a n) in
  contiguous (p + Z.of_nat a * sizeof_ultra_module_info_attribute) slots
  /\ layout_end (p + Z.of_nat a * sizeof_ultra_module_info_attribute) slots
     = p + Z.of_nat (a + n) * sizeof_ultra_module_info_attribute.
Proof.
  revert a. induction n as [|n IH]; intros a Hl; cbn [seq List.map].
  - cbn [contiguous layout_end]. split; [exact I|]. now rewrite Nat.add_0_r.
  - destruct (Hl a ltac:(lia)) as (r & Hr & Hh). rewrite Hr.
    cbn [contiguous layout_end module_slot].
    unfold attribute_extent. cbn [attribute_header]. rewrite Hh.
    cbn [ah_size_in_bytes].
    replace (p + Z.of_nat a * sizeof_ultra_module_info_attribute
             + sizeof_ultra_module_info_attribute)
      with (p + Z.of_nat (S a) * sizeof_ultra_module_info_attribute) by lia.
    destruct (IH (S a)) as [Hc He]; [intros i Hi; apply Hl; lia|].
    split; [split; [reflexivity|exact Hc]|].
    rewrite He. f_equal. f_equal. lia.
Qed.

Lemma copied_modules_contiguous p (spec : attribute_array_spec) :
  module_count spec = Z.of_nat (List.length (modules spec)) ->
  Forall loaded_module (modules spec) ->
  contiguous p (copied_modules p spec)
  /\ layout_end p (copied_modules p spec)
     = p + module_count spec * sizeof_ultra_module_info_attribute.
Proof.
  intros Hc Hf. unfold copied_modules. rewrite Hc, Nat2Z.id.
  destruct (module_slots_contiguous (modules spec) p 0
              (List.length (modules spec))) as [H1 H2].
  { intros i Hi. rewrite Forall_forall in Hf. apply Hf. apply nth_In. lia. }
  cbn [Z.of_nat] in H1, H2. rewrite Z.mul_0_l, Z.add_0_r in H1, H2.
  now split.
Qed.

Ltac size_t_norm :=
  repeat match goal with
         | |- context [size_t ?x] => rewrite (size_t_small x) by lia
         end.

(** X16: the records of the attribute array lie back to back, in the
    order they were written, starting right behind the two 32-bit
    words (pad and count) at the head of the array: each record starts
    where the [size_in_bytes] of the record before it ends. *)
Theorem build_attribute_array_contiguous fuel (spec : attribute_array_spec) sp
  (w : world FW) hi w' :
  module_count spec = Z.of_nat (List.length (modules spec)) ->
  Forall loaded_module (modules spec) ->
  0 <= sizeof_ultra_module_info_attribute ->
  module_count spec * sizeof_ultra_module_info_attribute < 2 ^ size_t_bits ->
  build_attribute_array ms fuel spec sp w = Ok (hi, w') ->
  exists aa,
    w_attribute_array w' = Some aa
    /\ aa_address aa = attribute_array_address hi
    /\ contiguous (aa_address aa + sizeof_uint32_t + sizeof_uint32_t)
         (aa_records aa).
Proof.
  intros Hcount Hmods Hs Hfit Hrun.
  apply build_attribute_array_layout_run in Hrun
    as (reserved & w1 & pi & ka & mm & entries & aa & _ & _ & Harr & Haddr
        & Hpi & Hka & _ & Hrecs).
  exists aa. split; [exact Harr|]. split; [exact Haddr|].
  cbv zeta in Hrecs. rewrite Hrecs, Haddr.
  assert (Hm : 0 <= module_count spec) by lia.
  rewrite size_t_small by nia.
  destruct (copied_modules_contiguous
              (attribute_array_address hi + sizeof_uint32_t + sizeof_uint32_t
               + sizeof_ultra_platform_info_attribute
               + sizeof_ultra_kernel_info_attribute) spec Hcount Hmods)
    as [Hc He].
  cbn [contiguous].
  change (attribute_extent (PlatformInfoAttr pi))
    with (ah_size_in_bytes (pi_header pi)).
  change (attribute_extent (KernelInfoAttr ka))
    with (ah_size_in_bytes (ka_header ka)).
  rewrite Hpi, Hka. cbn [ah_size_in_bytes].
  split; [reflexivity|]. split; [reflexivity|].
  destruct (module_count spec =? 0) eqn:Hz;
    destruct (cmdline_present spec), (fb_present spec);
    cbn [app contiguous];
    rewrite ?contiguous_app, ?He; cbn [contiguous];
    unfold attribute_extent; cbn [attribute_header ah_size_in_bytes];
    repeat split; try reflexivity; try exact Hc.
Qed.

Lemma allocate_attribute_array_reserved fuel bytes_needed (w : world FW) r a w1 :
  allocate_attribute_array ms fuel bytes_needed w = Ok ((r, a), w1) ->
  exists n, r = size_t (n + 1).
Proof.
  revert w. induction fuel as [|fuel IH]; intros w Hrun; [discriminate|].
  cbn [allocate_attribute_array] in Hrun.
  apply bind_Ok in Hrun as ([[n k] l] & wa & _ & Hrun).
  apply bind_Ok in Hrun as (p & wb & _ & Hrun).
  apply bind_Ok in Hrun as ([[n' k'] l'] & wc & _ & Hrun).
  destruct (_ >=? _).
  - apply bind_Ok in Hrun as ([] & wd & _ & Hret).
    apply Ok_pair_inj in Hret as [E _]. injection E as <- _. now exists n.
  - apply bind_Ok in Hrun as ([] & wd & _ & Hrun). now apply IH in Hrun.
Qed.

Lemma bytes_needed_of_exact (spec : attribute_array_spec) :
  0 <= sizeof_ultra_platform_info_attribute ->
  0 <= sizeof_ultra_kernel_info_attribute ->
  0 <= sizeof_ultra_module_info_attribute ->
  0 <= sizeof_ultra_framebuffer_attribute ->
  0 <= module_count spec ->
  sizeof_uint64_t + sizeof_ultra_platform_info_attribute
  + sizeof_ultra_kernel_info_attribute
  + module_count spec * sizeof_ultra_module_info_attribute
  + cmdline_aligned_length_of spec
  + b2z (fb_present spec) * sizeof_ultra_framebuffer_attribute
  < 2 ^ size_t_bits ->
  bytes_needed_of spec =
  sizeof_uint64_t + sizeof_ultra_platform_info_attribute
  + sizeof_ultra_kernel_info_attribute
  + module_count spec * sizeof_ultra_module_info_attribute
  + cmdline_aligned_length_of spec
  + b2z (fb_present spec) * sizeof_ultra_framebuffer_attribute.
Proof.
  intros HP HK HS HF Hm Hfit.
  assert (Hc : 0 <= cmdline_aligned_length_of spec).
  { unfold cmdline_aligned_length_of.
    destruct (cmdline_present spec); [|reflexivity].
    cbv zeta. destruct (_ =? 0); apply wrap_range; lia. }
  assert (Hms : 0 <= module_count spec * sizeof_ultra_module_info_attribute)
    by nia.
  assert (Hfb : 0 <= b2z (fb_present spec) * sizeof_ultra_framebuffer_attribute)
    by (destruct (fb_present spec); cbn [b2z]; lia).
  unfold bytes_needed_of. cbv zeta. unfold sizeof_uint64_t in *.
  size_t_norm. lia.
Qed.

(** X17: the memory-map record is written [bytes_needed] bytes into the
    attribute array, and [bytes_needed] leaves its header out: the array
    was requested and zeroed as [bytes_needed] plus the reserved entries,
    so the record, whose [size_in_bytes] is the reserved entries plus
    [sizeof(struct ultra_memory_map_attribute)], ends that many bytes
    past the end of the allocation. *)
Theorem build_attribute_array_memory_map_extent fuel
  (spec : attribute_array_spec) sp (w : world FW) hi w' :
  0 <= sizeof_ultra_platform_info_attribute ->
  0 <= sizeof_ultra_kernel_info_attribute ->
  0 <= sizeof_ultra_module_info_attribute ->
  0 <= sizeof_ultra_framebuffer_attribute ->
  0 <= sizeof_ultra_memory_map_attribute ->
  0 <= sizeof_ultra_memory_map_entry ->
  0 <= module_count spec ->
  sizeof_uint64_t + sizeof_ultra_platform_info_attribute
  + sizeof_ultra_kernel_info_attribute
  + module_count spec * sizeof_ultra_module_info_attribute
  + cmdline_aligned_length_of spec
  + b2z (fb_present spec) * sizeof_ultra_framebuffer_attribute
  < 2 ^ size_t_bits ->
  build_attribute_array ms fuel spec sp w = Ok (hi, w') ->
  exists aa before mm entries start reserved bytes t n key,
    w_attribute_array w' = Some aa
    /\ aa_records aa = before ++ [(start, MemoryMapAttr mm entries)]
    /\ w_trace w' =
       t ++ [EvMemzero (attribute_array_address hi) bytes;
             EvCopyMap true reserved n key]
    /\ start = attribute_array_address hi + bytes_needed_of spec
    /\ (bytes_needed_of spec
        + reserved * sizeof_ultra_memory_map_entry
        + sizeof_ultra_memory_map_attribute < 2 ^ Z.min 32 size_t_bits ->
        bytes = bytes_needed_of spec
                + reserved * sizeof_ultra_memory_map_entry
        /\ start + attribute_extent (MemoryMapAttr mm entries)
           = attribute_array_address hi + bytes
             + sizeof_ultra_memory_map_attribute).
Proof.
  intros HP HK HS HF HA HE Hm Hfit Hrun.
  pose proof (bytes_needed_of_exact spec HP HK HS HF Hm Hfit) as Hbn.
  assert (Hc : 0 <= cmdline_aligned_length_of spec).
  { unfold cmdline_aligned_length_of.
    destruct (cmdline_present spec); [|reflexivity].
    cbv zeta. destruct (_ =? 0); apply wrap_range; lia. }
  assert (Hbits : 0 <= size_t_bits).
  { destruct (Z.leb_spec 0 size_t_bits) as [|Hneg]; [assumption|].
    rewrite (Z.pow_neg_r 2 size_t_bits Hneg) in Hfit.
    unfold sizeof_uint64_t in Hfit.
    destruct (fb_present spec); cbn [b2z] in Hfit; nia. }
  apply build_attribute_array_layout_run in Hrun
    as (reserved & w1 & pi & ka & mm & entries & aa & Hloop & Htrace & Harr
        & _ & _ & _ & Hmm & Hrecs).
  destruct (allocate_attribute_array_commit _ _ _ _ _ _ _ Hloop)
    as (_ & t & Ht).
  destruct (allocate_attribute_array_reserved _ _ _ _ _ _ Hloop) as (n0 & Hr).
  assert (Hr0 : 0 <= reserved) by (subst reserved; apply wrap_range; lia).
  cbv zeta in Hrecs.
  eexists aa, _, mm, entries, _, reserved, _, t, _, _.
  split; [exact Harr|].
  split.
  { rewrite Hrecs.
    change (?a :: ?b :: ?l) with ([a; b] ++ l).
    rewrite !app_assoc. reflexivity. }
  split.
  { rewrite Htrace, Ht, <- app_assoc. reflexivity. }
  match goal with
  | |- ?s = _ /\ _ =>
      assert (Hstart : s = attribute_array_address hi + bytes_needed_of spec)
  end.
  { rewrite Hbn. unfold sizeof_uint64_t, sizeof_uint32_t.
    assert (Hcl : cmdline_present spec = false ->
                  cmdline_aligned_length_of spec = 0).
    { intros E. unfold cmdline_aligned_length_of. now rewrite E. }
    rewrite (size_t_small (module_count spec
                           * sizeof_ultra_module_info_attribute))
      by (unfold sizeof_uint64_t in Hfit;
          destruct (fb_present spec); cbn [b2z] in Hfit; nia).
    destruct (Z.eqb_spec (module_count spec) 0) as [E0|_];
      [rewrite E0|];
      destruct (cmdline_present spec); try rewrite (Hcl eq_refl);
      destruct (fb_present spec); cbn [b2z]; lia. }
  split; [exact Hstart|].
  intros Hroom.
  assert (Hre : 0 <= reserved * sizeof_ultra_memory_map_entry) by nia.
  assert (Hbn0 : 0 <= bytes_needed_of spec).
  { rewrite Hbn. unfold sizeof_uint64_t.
    destruct (fb_present spec); cbn [b2z]; nia. }
  assert (H32 : 2 ^ Z.min 32 size_t_bits <= 2 ^ 32)
    by (apply Z.pow_le_mono_r; lia).
  assert (Hst : 2 ^ Z.min 32 size_t_bits <= 2 ^ size_t_bits)
    by (apply Z.pow_le_mono_r; lia).
  unfold attribute_extent. cbn [attribute_header]. rewrite Hmm.
  cbn [ah_size_in_bytes].
  size_t_norm. rewrite u32_small by lia. lia.
Qed.

End Layout.

Lemma build_attribute_array_contiguous_witness :
  exists hi w' aa,
    build_attribute_array (H:=Mock.x86_abi) Mock.memory_services 4
      Mock.sample_spec SERVICE_PROVIDER_BIOS (Mock.boot []) = Ok (hi, w')
    /\ w_attribute_array w' = Some aa
    /\ contiguous (aa_address aa + sizeof_uint32_t + sizeof_uint32_t)
         (aa_records aa).
Proof.
  destruct (build_attribute_array (H:=Mock.x86_abi) Mock.memory_services 4
              Mock.sample_spec SERVICE_PROVIDER_BIOS (Mock.boot []))
    as [[hi w']| | | |] eqn:Hrun; try (vm_compute in Hrun; discriminate).
  destruct (build_attribute_array_contiguous (H:=Mock.x86_abi)
              Mock.memory_services 4 Mock.sample_spec SERVICE_PROVIDER_BIOS
              (Mock.boot []) hi w')
    as (aa & Harr & _ & Hc).
  - reflexivity.
  - repeat constructor. eexists. split; reflexivity.
  - vm_compute. discriminate.
  - vm_compute. reflexivity.
  - exact Hrun.
  - exists hi, w', aa. repeat split; assumption.
Defined.

Lemma build_attribute_array_memory_map_extent_witness :
  exists hi w' aa before mm entries start,
    build_attribute_array (H:=Mock.x86_abi) Mock.memory_services 4
      Mock.sample_spec SERVICE_PROVIDER_BIOS (Mock.boot []) = Ok (hi, w')
    /\ w_attribute_array w' = Some aa
    /\ aa_records aa = before ++ [(start, MemoryMapAttr mm entries)]
    /\ start = attribute_array_address hi
               + bytes_needed_of (H:=Mock.x86_abi) Mock.sample_spec.
Proof.
  destruct (build_attribute_array (H:=Mock.x86_abi) Mock.memory_services 4
              Mock.sample_spec SERVICE_PROVIDER_BIOS (Mock.boot []))
    as [[hi w']| | | |] eqn:Hrun; try (vm_compute in Hrun; discriminate).
  destruct (build_attribute_array_memory_map_extent (H:=Mock.x86_abi)
              Mock.memory_services 4 Mock.sample_spec SERVICE_PROVIDER_BIOS
              (Mock.boot []) hi w')
    as (aa & before & mm & entries & start & reserved & bytes & t & n & key
        & Harr & Hrecs & _ & Hstart & _).
  1-7: vm_compute; discriminate.
  - vm_compute. reflexivity.
  - exact Hrun.
  - exists hi, w', aa, before, mm, entries, start. repeat split; assumption.
Defined.

(** * Common/Utilities.h *)

Section MemoryProperties.
Import Utilities.

Lemma set_memory_loop_spec ptr value n (m : memory) q :
  fold_left (fun m i => store_byte m (ptr + Z.of_nat i) value) (seq 0 n) m q
  = if (ptr <=? q) && (q <? ptr + Z.of_nat n) then value else m q.
Proof.
  induction n as [|n IH].
  - cbn. destruct (ptr <=? q) eqn:E; [|reflexivity].
    cbn. destruct (Z.ltb_spec q (ptr + 0)); [lia|reflexivity].
  - rewrite seq_S, fold_left_app. cbn [fold_left Nat.add].
    unfold store_byte at 1. rewrite IH.
    destruct (Z.eqb_spec q (ptr + Z.of_nat n)) as [->|Hne].
    + destruct (Z.leb_spec ptr (ptr + Z.of_nat n)); [|lia].
      destruct (Z.ltb_spec (ptr + Z.of_nat n) (ptr + Z.of_nat (S n))); [|lia].
      reflexivity.
    + destruct (Z.leb_spec ptr q); cbn [andb]; [|reflexivity].
      destruct (Z.ltb_spec q (ptr + Z.of_nat n)),
               (Z.ltb_spec q (ptr + Z.of_nat (S n))); try reflexivity; lia.
Qed.

(** X18: [set_memory] sets exactly the [size] bytes from [ptr] to
    [value], and [zero_memory] clears them: every byte in the range
    reads back as the value, every byte outside it is as before. *)
Theorem set_memory_range ptr size value (m : memory) q :
  0 <= size ->
  set_memory ptr size value m q
  = (if (ptr <=? q) && (q <? ptr + size) then value else m q)
  /\ zero_memory ptr size m q
     = (if (ptr <=? q) && (q <? ptr + size) then 0 else m q).
Proof.
  intros Hs. unfold zero_memory, set_memory. cbv zeta.
  rewrite !set_memory_loop_spec, Z2Nat.id by assumption. now split.
Qed.

Lemma copy_memory_loop_outside n src dst (m : memory) q :
  q < dst \/ dst + Z.of_nat n <= q ->
  copy_memory_loop n src dst m q = m q.
Proof.
  revert src dst m. induction n as [|n IH]; intros src dst m Hq; [reflexivity|].
  cbn [copy_memory_loop]. rewrite IH by lia.
  unfold store_byte. destruct (Z.eqb_spec q dst); [lia|reflexivity].
Qed.

Lemma copy_memory_loop_inside n src dst (m : memory) i :
  dst <= src \/ src + Z.of_nat n <= dst ->
  0 <= i < Z.of_nat n ->
  copy_memory_loop n src dst m (dst + i) = m (src + i).
Proof.
  revert src dst m i. induction n as [|n IH]; intros src dst m i Hov Hi; [lia|].
  cbn [copy_memory_loop].
  destruct (Z.eq_dec i 0) as [->|Hnz].
  - rewrite copy_memory_loop_outside by lia.
    unfold store_byte. rewrite !Z.add_0_r, Z.eqb_refl. reflexivity.
  - replace (dst + i) with (dst + 1 + (i - 1)) by lia.
    rewrite IH by lia.
    unfold store_byte.
    destruct (Z.eqb_spec (src + 1 + (i - 1)) dst); [lia|].
    f_equal. lia.
Qed.

Lemma move_memory_loop_outside n src dst (m : memory) q :
  q < dst - Z.of_nat n \/ dst <= q ->
  move_memory_loop n src dst m q = m q.
Proof.
  revert src dst m. induction n as [|n IH]; intros src dst m Hq; [reflexivity|].
  cbn [move_memory_loop]. rewrite IH by lia.
  unfold store_byte. destruct (Z.eqb_spec q (dst - 1)); [lia|reflexivity].
Qed.

Lemma move_memory_loop_inside n src dst (m : memory) i :
  src <= dst ->
  0 < i <= Z.of_nat n ->
  move_memory_loop n src dst m (dst - i) = m (src - i).
Proof.
  revert src dst m i. induction n as [|n IH]; intros src dst m i Hov Hi; [lia|].
  cbn [move_memory_loop].
  destruct (Z.eq_dec i 1) as [->|Hnz].
  - rewrite move_memory_loop_outside by lia.
    unfold store_byte. rewrite Z.eqb_refl. reflexivity.
  - replace (dst - i) with (dst - 1 - (i - 1)) by lia.
    rewrite IH by lia.
    unfold store_byte.
    destruct (Z.eqb_spec (src - 1 - (i - 1)) (dst - 1)); [lia|].
    f_equal. lia.
Qed.

(** X19: [move_memory] copies [size] bytes correctly whatever the
    overlap of the two ranges: every byte of the destination range ends
    up as the source byte was before the call, and no byte outside the
    destination range changes. *)
Theorem move_memory_overlap_safe source destination size (m : memory) :
  0 <= size ->
  (forall i, 0 <= i < size ->
     move_memory source destination size m (destination + i) = m (source + i))
  /\ (forall q, q < destination \/ destination + size <= q ->
        move_memory source destination size m q = m q).
Proof.
  intros Hs. unfold move_memory, copy_memory. cbv zeta.
  destruct (Z.ltb_spec source destination) as [Hlt|Hge]; split.
  - intros i Hi.
    replace (destination + i) with (destination + size - (size - i)) by lia.
    rewrite move_memory_loop_inside by lia. f_equal. lia.
  - intros q Hq. apply move_memory_loop_outside. lia.
  - intros i Hi. apply copy_memory_loop_inside; lia.
  - intros q Hq. apply copy_memory_loop_outside. lia.
Qed.

(** X20: [copy_memory] copies front to back, so it is a copy only when
    the destination does not start inside the source range; when it
    does, the first [destination - source] source bytes are repeated
    through the whole destination range. *)
Theorem copy_memory_forward source destination size (m : memory) i :
  0 <= i < size ->
  copy_memory source destination size m (destination + i)
  = if (source <? destination) && (destination <? source + size)
    then m (source + i mod (destination - source))
    else m (source + i).
Proof.
  intros Hi. unfold copy_memory.
  destruct (Z.ltb_spec source destination) as [Hlt|Hge]; cbn [andb].
  2: { apply copy_memory_loop_inside; lia. }
  destruct (Z.ltb_spec destination (source + size)) as [Hin|Hout].
  2: { apply copy_memory_loop_inside; lia. }
  assert (Hgen : forall n src dst (m : memory) i,
            src < dst -> 0 <= i < Z.of_nat n ->
            copy_memory_loop n src dst m (dst + i)
            = m (src + i mod (dst - src))).
  { clear. intros n. induction n as [|n IH]; intros src dst m i Hlt Hi; [lia|].
    cbn [copy_memory_loop].
    destruct (Z.eq_dec i 0) as [->|Hnz].
    - rewrite copy_memory_loop_outside by lia.
      unfold store_byte. rewrite Z.add_0_r, Z.eqb_refl.
      rewrite Z.mod_0_l by lia. now rewrite Z.add_0_r.
    - replace (dst + i) with (dst + 1 + (i - 1)) by lia.
      rewrite IH by lia.
      replace (dst + 1 - (src + 1)) with (dst - src) by lia.
      set (g := dst - src) in *.
      assert (Hg : 0 < g) by (subst g; lia).
      pose proof (Z.mod_pos_bound (i - 1) g Hg) as Hb.
      pose proof (Z.mod_pos_bound i g Hg) as Hb'.
      unfold store_byte.
      destruct (Z.eqb_spec (src + 1 + (i - 1) mod g) dst) as [E|N].
      + assert (Em : (i - 1) mod g = g - 1) by (subst g; lia).
        assert (Ei : i mod g = 0).
        { symmetry. apply Z.mod_unique_pos with (q := (i - 1) / g + 1); [lia|].
          pose proof (Z.div_mod (i - 1) g ltac:(lia)). lia. }
        rewrite Ei, Z.add_0_r. reflexivity.
      + assert (Ei : i mod g = (i - 1) mod g + 1).
        { assert (Hlt' : (i - 1) mod g + 1 < g) by (subst g; lia).
          symmetry. apply Z.mod_unique_pos with (q := (i - 1) / g); [lia|].
          pose proof (Z.div_mod (i - 1) g ltac:(lia)). lia. }
        rewrite Ei. f_equal. lia. }
  apply Hgen; lia.
Qed.

End MemoryProperties.

(** X21: [real_mode_address] combines segment and offset with a
    bitwise OR, not a sum: it is the real-mode linear address
    [segment * 16 + offset] less the bits the two operands share, so it
    is that address exactly when they share none, as for every offset
    below 16. *)
Theorem real_mode_address_or segment offset :
  0 <= segment < 2 ^ 16 ->
  0 <= offset < 2 ^ 16 ->
  Utilities.real_mode_address segment offset
  = segment * 16 + offset - Z.land (segment * 16) offset
  /\ (Utilities.real_mode_address segment offset = segment * 16 + offset
      <-> Z.land (segment * 16) offset = 0)
  /\ (offset < 16 ->
      Utilities.real_mode_address segment offset = segment * 16 + offset).
Proof.
  intros Hs Ho. unfold Utilities.real_mode_address.
  unfold u16. rewrite !wrap_small by lia.
  rewrite (u32_small segment) by lia.
  rewrite Z.shiftl_mul_pow2 by lia. change (2 ^ 4) with 16.
  rewrite u32_small by lia.
  pose proof (Z.add_lor_land (segment * 16) offset) as Hadd.
  split; [lia|]. split; [lia|].
  intros Hsmall.
  assert (Hz : Z.land (segment * 16) offset = 0); [|lia].
  apply Z.bits_inj'. intros n Hn.
  rewrite Z.land_spec, Z.bits_0.
  destruct (Z.ltb_spec n 4) as [Hlt|Hge].
  - replace (segment * 16) with (segment * 2 ^ 4) by lia.
    rewrite Z.mul_pow2_bits_low by lia. reflexivity.
  - replace (Z.testbit offset n) with false; [apply andb_false_r|].
    symmetry. apply Z.bits_above_log2; [lia|].
    destruct (Z.eq_dec offset 0) as [->|Hnz]; [cbn; lia|].
    apply Z.log2_lt_pow2; [lia|].
    apply Z.lt_le_trans with (2 ^ 4); [lia|].
    apply Z.pow_le_mono_r; lia.
Qed.

Section ArrayAlgorithms.
Context {T : Type} (d : T) (lt : T -> T -> bool).
Hypothesis Hswo : strict_weak_order lt.

Lemma swo_le_lt x y k : lt y x = false -> lt y k = true -> lt x k = true.
Proof.
  destruct Hswo as (_ & _ & Hneg). intros Hxy Hyk.
  destruct (lt x k) eqn:E; [reflexivity|].
  rewrite (Hneg y x k Hxy E) in Hyk. discriminate.
Qed.

Lemma swo_lt_le k y z : lt k y = true -> lt z y = false -> lt k z = true.
Proof.
  destruct Hswo as (_ & _ & Hneg). intros Hky Hyz.
  destruct (lt k z) eqn:E; [reflexivity|].
  rewrite (Hneg k z y E Hyz) in Hky. discriminate.
Qed.

Lemma swo_asym x y : lt x y = true -> lt y x = false.
Proof.
  destruct Hswo as (Hirr & Htrans & _). intros Hxy.
  destruct (lt y x) eqn:E; [|reflexivity].
  pose proof (Htrans x y x Hxy E) as Hxx. now rewrite Hirr in Hxx.
Qed.

Lemma ascending_nth (a : list T) (i j : nat) :
  ascending lt a -> (i <= j < List.length a)%nat ->
  lt (nth j a d) (nth i a d) = false.
Proof.
  intros Hs. revert i j. induction Hs as [|x a Hs IH Hall]; intros i j Hij.
  - cbn in Hij. lia.
  - destruct i as [|i], j as [|j]; cbn [nth List.length] in *.
    + now destruct Hswo as (Hirr & _).
    + rewrite Forall_forall in Hall. apply Hall, nth_In. lia.
    + lia.
    + apply IH. lia.
Qed.

Lemma lower_bound_loop_spec (a : list T) (key : T) fuel left right lb :
  ascending lt a ->
  0 <= left -> right < Z.of_nat (List.length a) -> left <= right + 1 ->
  lb = right + 1 ->
  (Z.to_nat (right - left + 1) < fuel)%nat ->
  (forall i, 0 <= i < left -> lt (nth (Z.to_nat i) a d) key = true) ->
  (forall i, right < i < Z.of_nat (List.length a) ->
             lt key (nth (Z.to_nat i) a d) = true) ->
  exists r,
    Utilities.lower_bound_loop d lt fuel a key left right lb = Some r
    /\ 0 <= r <= Z.of_nat (List.length a)
    /\ ((r < Z.of_nat (List.length a)
         /\ equivalent lt (nth (Z.to_nat r) a d) key)
        \/ ((forall i, 0 <= i < r -> lt (nth (Z.to_nat i) a d) key = true)
            /\ (forall i, r <= i < Z.of_nat (List.length a) ->
                          lt key (nth (Z.to_nat i) a d) = true))).
Proof.
  intros Hs. revert left right lb.
  induction fuel as [|fuel IH]; intros left right lb Hl Hr Hlr Hlb Hfuel Hlo Hhi;
    [lia|].
  cbn [Utilities.lower_bound_loop].
  destruct (Z.leb_spec left right) as [Hle|Hgt].
  - cbv zeta.
    assert (Hq : Z.quot (right - left) 2 = (right - left) / 2)
      by (apply Z.quot_div_nonneg; lia).
    rewrite Hq.
    set (pivot := left + (right - left) / 2).
    assert (Hp : left <= pivot <= right).
    { subst pivot. pose proof (Z.div_pos (right - left) 2 ltac:(lia) ltac:(lia)).
      pose proof (Z.div_le_upper_bound (right - left) 2 (right - left)
                    ltac:(lia) ltac:(lia)). lia. }
    destruct (lt key (nth (Z.to_nat pivot) a d)) eqn:Hkp.
    + apply IH; try lia.
      * exact Hlo.
      * intros i Hi. destruct (Z.le_gt_cases i right) as [Hir|Hir].
        -- apply swo_lt_le with (y := nth (Z.to_nat pivot) a d); [exact Hkp|].
           apply ascending_nth; [exact Hs|lia].
        -- apply Hhi. lia.
    + destruct (lt (nth (Z.to_nat pivot) a d) key) eqn:Hpk.
      * apply IH; try lia.
        -- intros i Hi. destruct (Z.le_gt_cases left i) as [Hil|Hil].
           ++ apply swo_le_lt with (y := nth (Z.to_nat pivot) a d); [|exact Hpk].
              apply ascending_nth; [exact Hs|lia].
           ++ apply Hlo. lia.
        -- exact Hhi.
      * exists pivot. split; [reflexivity|]. split; [lia|].
        left. split; [lia|]. split; assumption.
  - exists lb. split; [reflexivity|]. split; [lia|].
    right. split.
    + intros i Hi. apply Hlo. lia.
    + intros i Hi. apply Hhi. lia.
Qed.

Lemma lower_bound_spec (a : list T) (key : T) fuel :
  ascending lt a ->
  (List.length a < fuel)%nat ->
  exists r,
    Utilities.lower_bound d lt fuel a key = Some r
    /\ 0 <= r <= Z.of_nat (List.length a)
    /\ ((r < Z.of_nat (List.length a)
         /\ equivalent lt (nth (Z.to_nat r) a d) key)
        \/ ((forall i, 0 <= i < r -> lt (nth (Z.to_nat i) a d) key = true)
            /\ (forall i, r <= i < Z.of_nat (List.length a) ->
                          lt key (nth (Z.to_nat i) a d) = true))).
Proof.
  intros Hs Hfuel. unfold Utilities.lower_bound. cbv zeta.
  destruct (Z.eqb_spec (Z.of_nat (List.length a)) 0) as [E|N].
  - exists (Z.of_nat (List.length a)). split; [reflexivity|]. split; [lia|].
    right. split; intros i Hi; lia.
  - apply lower_bound_loop_spec; try assumption; try lia.
    all: intros i Hi; lia.
Qed.

(** X22: on a range in ascending order that holds an element equivalent
    to the key, [lower_bound] returns the position of such an element
    (of one of them: the search stops at the first pivot that is
    neither before nor after the key). *)
Theorem lower_bound_finds (a : list T) (key : T) fuel :
  ascending lt a ->
  (List.length a < fuel)%nat ->
  (exists x, In x a /\ equivalent lt x key) ->
  exists r,
    Utilities.lower_bound d lt fuel a key = Some r
    /\ 0 <= r < Z.of_nat (List.length a)
    /\ equivalent lt (nth (Z.to_nat r) a d) key.
Proof.
  intros Hs Hfuel (x & Hin & Hx1 & Hx2).
  destruct (lower_bound_spec a key fuel Hs Hfuel)
    as (r & Hrun & Hr & [[Hlt Heq]|[Hlo Hhi]]).
  - exists r. split; [exact Hrun|]. split; [lia|exact Heq].
  - exfalso. apply (In_nth _ _ d) in Hin as (i & Hi & <-).
    destruct (Z.lt_ge_cases (Z.of_nat i) r) as [Hir|Hir].
    + specialize (Hlo (Z.of_nat i) ltac:(lia)).
      rewrite Nat2Z.id in Hlo. congruence.
    + specialize (Hhi (Z.of_nat i) ltac:(lia)).
      rewrite Nat2Z.id in Hhi. congruence.
Qed.

(** X23: on a range in ascending order that holds no element
    equivalent to the key, [lower_bound] returns the insertion point:
    every element before it is before the key, the key is before every
    element from it on, and it is [end] when no element is after the
    key. *)
Theorem lower_bound_insertion_point (a : list T) (key : T) fuel :
  ascending lt a ->
  (List.length a < fuel)%nat ->
  (forall x, In x a -> ~ equivalent lt x key) ->
  exists r,
    Utilities.lower_bound d lt fuel a key = Some r
    /\ 0 <= r <= Z.of_nat (List.length a)
    /\ (forall i, 0 <= i < r -> lt (nth (Z.to_nat i) a d) key = true)
    /\ (forall i, r <= i < Z.of_nat (List.length a) ->
                  lt key (nth (Z.to_nat i) a d) = true).
Proof.
  intros Hs Hfuel Hno.
  destruct (lower_bound_spec a key fuel Hs Hfuel)
    as (r & Hrun & Hr & [[Hlt Heq]|[Hlo Hhi]]).
  - exfalso. apply (Hno (nth (Z.to_nat r) a d)); [|exact Heq].
    apply nth_In. lia.
  - exists r. repeat split; try assumption; lia.
Qed.

Lemma store_middle (pre post : list T) x v :
  store (pre ++ x :: post) (List.length pre) v = pre ++ v :: post.
Proof. induction pre as [|y pre IH]; cbn; [reflexivity|now rewrite IH]. Qed.

Lemma swap_adjacent (pre post : list T) x y :
  Utilities.swap d (pre ++ y :: x :: post) (S (List.length pre)) (List.length pre)
  = pre ++ x :: y :: post.
Proof.
  unfold Utilities.swap. cbv zeta.
  change (pre ++ y :: x :: post) with (pre ++ [y] ++ x :: post).
  rewrite app_assoc.
  replace (S (List.length pre)) with (List.length (pre ++ [y]))
    by (rewrite length_app; cbn; lia).
  rewrite nth_middle, store_middle.
  rewrite <- !app_assoc. cbn [app].
  rewrite nth_middle, store_middle. reflexivity.
Qed.

Lemma insertion_sort_inner_sink (before post : list T) x :
  Utilities.insertion_sort_inner d lt (rev before ++ x :: post)
    (List.length before)
  = rev (sink lt x before) ++ post.
Proof.
  revert post. induction before as [|y before IH]; intros post.
  - reflexivity.
  - cbn [List.length Utilities.insertion_sort_inner sink rev].
    rewrite <- app_assoc. cbn [app].
    replace (nth (S (List.length before)) (rev before ++ y :: x :: post) d)
      with x.
    2: { change (rev before ++ y :: x :: post)
           with (rev before ++ [y] ++ x :: post).
         rewrite app_assoc.
         replace (S (List.length before))
           with (List.length (rev before ++ [y]))
           by (rewrite length_app, length_rev; cbn; lia).
         now rewrite nth_middle. }
    replace (nth (List.length before) (rev before ++ y :: x :: post) d)
      with y.
    2: { rewrite <- (length_rev before) at 1. now rewrite nth_middle. }
    destruct (lt x y).
    + rewrite <- (length_rev before) at 1 2.
      rewrite swap_adjacent, IH.
      cbn [rev]. rewrite <- app_assoc. reflexivity.
    + cbn [rev]. rewrite <- !app_assoc. reflexivity.
Qed.

Lemma sink_permutation x before : Permutation (sink lt x before) (x :: before).
Proof.
  induction before as [|y before IH]; cbn [sink]; [reflexivity|].
  destruct (lt x y); [|reflexivity].
  rewrite IH. apply perm_swap.
Qed.

Lemma sink_descending x before :
  StronglySorted (fun x y => lt x y = false) before ->
  StronglySorted (fun x y => lt x y = false) (sink lt x before).
Proof.
  destruct Hswo as (_ & _ & Hneg).
  induction 1 as [|y before Hs IH Hall]; cbn [sink].
  - repeat constructor.
  - destruct (lt x y) eqn:Hxy.
    + constructor; [exact IH|].
      rewrite Forall_forall in *. intros z Hz.
      apply (Permutation_in _ (sink_permutation x before)) in Hz.
      destruct Hz as [<-|Hz]; [now apply swo_asym|now apply Hall].
    + constructor; [now constructor|].
      constructor; [exact Hxy|].
      rewrite Forall_forall in *. intros z Hz.
      apply (Hneg x y z Hxy). now apply Hall.
Qed.

Lemma StronglySorted_snoc (R : T -> T -> Prop) l x :
  StronglySorted R l -> Forall (fun z => R z x) l ->
  StronglySorted R (l ++ [x]).
Proof.
  induction 1 as [|y l Hs IH Hall]; intros Hx; cbn [app].
  - repeat constructor.
  - inversion Hx as [|? ? Hyx Hlx]; subst.
    constructor; [now apply IH|].
    apply Forall_app. split; [exact Hall|]. now repeat constructor.
Qed.

Lemma StronglySorted_rev (R : T -> T -> Prop) l :
  StronglySorted R l -> StronglySorted (fun x y => R y x) (rev l).
Proof.
  induction 1 as [|x l Hs IH Hall]; cbn [rev]; [constructor|].
  apply StronglySorted_snoc; [exact IH|].
  rewrite Forall_forall in *. intros z Hz. apply Hall. now apply in_rev.
Qed.

Lemma insertion_sort_loop (post pre : list T) :
  ascending lt pre ->
  let sorted :=
    fold_left (Utilities.insertion_sort_inner d lt)
      (seq (List.length pre) (List.length post)) (pre ++ post) in
  ascending lt sorted /\ Permutation (pre ++ post) sorted.
Proof.
  revert pre. induction post as [|x post IH]; intros pre Hpre; cbv zeta.
  - cbn [List.length seq fold_left]. rewrite app_nil_r. now split.
  - cbn [List.length seq fold_left].
    pose proof (insertion_sort_inner_sink (rev pre) post x) as Hstep.
    rewrite rev_involutive, length_rev in Hstep. rewrite Hstep. clear Hstep.
    set (pre' := rev (sink lt x (rev pre))).
    assert (Hperm : Permutation (pre ++ [x]) pre').
    { subst pre'. rewrite <- Permutation_rev, sink_permutation.
      rewrite <- Permutation_rev. symmetry. apply Permutation_cons_append. }
    assert (Hlen : S (List.length pre) = List.length pre').
    { rewrite <- (Permutation_length Hperm), length_app. cbn. lia. }
    rewrite Hlen.
    destruct (IH pre') as [Hs Hp].
    { subst pre'. unfold ascending.
      apply (StronglySorted_rev (fun x y => lt x y = false)).
      apply sink_descending.
      apply (StronglySorted_rev (fun x y => lt y x = false)). exact Hpre. }
    split; [exact Hs|].
    rewrite <- Hp, <- Hperm, <- app_assoc. reflexivity.
Qed.

(** X24: [insertion_sort] sorts: its result holds the elements of the
    range it was given, each as often as before, in ascending order of
    the comparator. *)
Theorem insertion_sort_sorts (a : list T) :
  ascending lt (Utilities.insertion_sort d lt a)
  /\ Permutation a (Utilities.insertion_sort d lt a).
Proof.
  unfold Utilities.insertion_sort.
  destruct (Z.ltb_spec (Z.of_nat (List.length a)) 2) as [Hshort|_].
  - split; [|reflexivity].
    destruct a as [|x [|y a]]; [constructor|repeat constructor|cbn in Hshort; lia].
  - cbv zeta. apply (insertion_sort_loop a []). constructor.
Qed.

End ArrayAlgorithms.

(** * Common/Conversions.h *)

Section Buffers.
Context {T : Type}.

Lemma length_store (a : list T) i v : List.length (store a i v) = List.length a.
Proof.
  revert i. induction a as [|x a IH]; intros [|i]; cbn; try reflexivity.
  now rewrite IH.
Qed.

Lemma firstn_store (a : list T) i v p :
  (p <= i)%nat -> firstn p (store a i v) = firstn p a.
Proof.
  revert i p. induction a as [|x a IH]; intros [|i] [|p] Hp; cbn;
    try reflexivity; try lia.
  now rewrite IH by lia.
Qed.

Lemma skipn_store_at (a : list T) i v :
  (i < List.length a)%nat -> skipn i (store a i v) = v :: skipn (S i) a.
Proof.
  revert i. induction a as [|x a IH]; intros [|i] Hi; cbn in *;
    try reflexivity; try lia.
  now rewrite IH by lia.
Qed.

Lemma skipn_store_after (a : list T) i v p :
  (i < p)%nat -> skipn p (store a i v) = skipn p a.
Proof.
  revert i p. induction a as [|x a IH]; intros [|i] [|p] Hp; cbn;
    try reflexivity; try lia.
  now rewrite IH by lia.
Qed.

Lemma nth_store_other (a : list T) i v j d :
  i <> j -> nth j (store a i v) d = nth j a d.
Proof.
  revert i j. induction a as [|x a IH]; intros [|i] [|j] Hij; cbn;
    try reflexivity; try lia.
  now rewrite IH by lia.
Qed.

Lemma nth_store_same (a : list T) i v d :
  (i < List.length a)%nat -> nth i (store a i v) d = v.
Proof.
  revert i. induction a as [|x a IH]; intros [|i] Hi; cbn in *;
    try reflexivity; try lia.
  now rewrite IH by lia.
Qed.

End Buffers.

Section HexString.
Import Conversions.

Lemma write_hex_digits_spec count i j number required_length string :
  0 <= i -> 0 <= j ->
  Z.of_nat count + i <= required_length ->
  required_length <= Z.of_nat (List.length string) ->
  write_hex_digits count i j number required_length string
  = firstn (Z.to_nat (required_length - i) - count) string
    ++ hex_digits_of count (Z.shiftr number j)
    ++ skipn (Z.to_nat (required_length - i)) string.
Proof.
  revert i j string. induction count as [|count IH]; intros i j string Hi Hj Hlo Hhi.
  - cbn [write_hex_digits hex_digits_of app]. rewrite Nat.sub_0_r.
    now rewrite firstn_skipn.
  - cbn [write_hex_digits hex_digits_of].
    rewrite IH by (rewrite ?length_store; lia).
    replace (Z.to_nat (required_length - (i + 1)))
      with (Z.to_nat (required_length - i - 1)) by lia.
    rewrite firstn_store by lia.
    rewrite skipn_store_at by lia.
    replace (S (Z.to_nat (required_length - i - 1)))
      with (Z.to_nat (required_length - i)) by lia.
    replace (Z.to_nat (required_length - i - 1) - count)%nat
      with (Z.to_nat (required_length - i) - S count)%nat by lia.
    rewrite Z.shiftr_shiftr by lia.
    rewrite <- !app_assoc. reflexivity.
Qed.

Lemma hex_digit_value_hex_digit v :
  0 <= v < 16 -> hex_digit_value (hex_digit v) = Some v.
Proof.
  intros Hv.
  assert (Hcases : v = 0 \/ v = 1 \/ v = 2 \/ v = 3 \/ v = 4 \/ v = 5 \/ v = 6
                   \/ v = 7 \/ v = 8 \/ v = 9 \/ v = 10 \/ v = 11 \/ v = 12
                   \/ v = 13 \/ v = 14 \/ v = 15) by lia.
  repeat (destruct Hcases as [->|Hcases]; [reflexivity|]).
  subst v. reflexivity.
Qed.

Lemma hex_value_app acc l1 l2 :
  hex_value acc (l1 ++ l2)
  = match hex_value acc l1 with
    | Some v => hex_value v l2
    | None => None
    end.
Proof.
  revert acc. induction l1 as [|c l1 IH]; intros acc; cbn [app hex_value];
    [reflexivity|].
  destruct (hex_digit_value c); [apply IH|reflexivity].
Qed.

Lemma hex_value_hex_digits_of count n acc :
  hex_value acc (hex_digits_of count n)
  = Some (acc * 16 ^ Z.of_nat count + n mod 16 ^ Z.of_nat count).
Proof.
  revert n acc. induction count as [|count IH]; intros n acc.
  - cbn [hex_digits_of hex_value Z.of_nat]. f_equal.
    rewrite Z.pow_0_r, Z.mod_1_r. lia.
  - cbn [hex_digits_of]. rewrite hex_value_app, IH. cbn [hex_value].
    change 15 with (Z.ones 4). rewrite Z.land_ones by lia.
    rewrite Z.shiftr_div_pow2 by lia. change (2 ^ 4) with 16.
    rewrite hex_digit_value_hex_digit by (apply Z.mod_pos_bound; lia).
    f_equal. rewrite Nat2Z.inj_succ, Z.pow_succ_r by lia.
    rewrite (Z.rem_mul_r n 16 (16 ^ Z.of_nat count)) by lia.
    lia.
Qed.

Lemma length_hex_digits_of count n :
  List.length (hex_digits_of count n) = count.
Proof.
  revert n. induction count as [|count IH]; intros n; cbn [hex_digits_of];
    [reflexivity|].
  rewrite length_app, IH. cbn. lia.
Qed.

(** X25: given room for it, [to_hex_string] writes [0x] and two digits
    for every byte of the number's type and returns their count; read
    back, they are the number modulo [2 ^ (8 * sizeof)] (the two's
    complement of a negative one), a [0] follows them if asked for, and
    the buffer behind what was written is untouched. *)
Theorem to_hex_string_round_trip (T : integral) number string max_size
  null_terminate :
  0 <= sizeof T ->
  max_size <= Z.of_nat (List.length string) ->
  sizeof T * 2 + 2 + b2z null_terminate <= max_size ->
  exists text,
    to_hex_string T number string max_size null_terminate
    = (sizeof T * 2 + 2,
       text ++ (if null_terminate then [zero] else [])
       ++ skipn (Z.to_nat (sizeof T * 2 + 2 + b2z null_terminate)) string)
    /\ Z.of_nat (List.length text) = sizeof T * 2 + 2
    /\ parse_hex text = Some (number mod 2 ^ bits_of T).
Proof.
  intros Hsz Hbuf Hroom.
  exists ("0"%char :: "x"%char
          :: hex_digits_of (Z.to_nat (sizeof T * 2)) number).
  unfold to_hex_string. cbv zeta.
  destruct (Z.ltb_spec max_size (sizeof T * 2 + 2 + b2z null_terminate));
    [lia|].
  split.
  - f_equal.
    rewrite write_hex_digits_spec;
      [|lia|lia|lia|
       destruct null_terminate; rewrite ?length_store; cbn [b2z] in *; lia].
    rewrite Z.shiftr_0_r.
    replace (Z.to_nat (sizeof T * 2 + 2 - 0) - Z.to_nat (sizeof T * 2))%nat
      with 2%nat by lia.
    replace (Z.to_nat (sizeof T * 2 + 2 - 0))
      with (Z.to_nat (sizeof T * 2 + 2)) by lia.
    assert (Hhead : forall s : list ascii,
              (2 <= List.length s)%nat ->
              firstn 2 (store (store s 0 "0"%char) 1 "x"%char)
              = ["0"%char; "x"%char]).
    { intros [|c0 [|c1 s]] Hs; cbn [List.length] in Hs; try lia. reflexivity. }
    destruct null_terminate; cbn [b2z] in *.
    + rewrite firstn_store by lia. rewrite Hhead by lia.
      rewrite skipn_store_at by (rewrite !length_store; lia).
      rewrite !skipn_store_after by lia.
      replace (S (Z.to_nat (sizeof T * 2 + 2)))
        with (Z.to_nat (sizeof T * 2 + 2 + 1)) by lia.
      reflexivity.
    + rewrite Hhead by lia. rewrite !skipn_store_after by lia.
      rewrite Z.add_0_r. reflexivity.
  - split.
    + cbn [List.length]. rewrite length_hex_digits_of. lia.
    + cbn [parse_hex]. rewrite hex_value_hex_digits_of.
      f_equal. rewrite Z2Nat.id by lia. unfold bits_of.
      replace (16 ^ (sizeof T * 2)) with (2 ^ (8 * sizeof T)).
      * lia.
      * change 16 with (2 ^ 4). rewrite <- Z.pow_mul_r by lia. f_equal. lia.
Qed.

End HexString.

Section DecimalString.
Import Conversions.

Lemma count_digits_spec fuel number required_size :
  0 <= number < 10 ^ Z.of_nat fuel ->
  exists k : nat,
    count_digits (S fuel) number required_size
    = Some (required_size + Z.of_nat k)
    /\ number < 10 ^ Z.of_nat k
    /\ (k <> O -> 10 ^ (Z.of_nat k - 1) <= number)
    /\ (number <> 0 -> k <> O).
Proof.
  revert number required_size.
  induction fuel as [|fuel IH]; intros number required_size Hn.
  - exists O. cbn in Hn. assert (number = 0) as -> by lia.
    cbn. rewrite Z.add_0_r. repeat split; try lia; congruence.
  - change (count_digits (S (S fuel)) number required_size)
      with (if number =? 0 then Some required_size
            else count_digits (S fuel) (Z.quot number 10) (required_size + 1)).
    destruct (Z.eqb_spec number 0) as [->|Hnz].
    + exists O. rewrite Z.add_0_r. cbn. repeat split; try lia; congruence.
    + rewrite Nat2Z.inj_succ, Z.pow_succ_r in Hn by lia.
      rewrite Z.quot_div_nonneg by lia.
      destruct (IH (number / 10) (required_size + 1)) as (k & Hrun & Hlt & Hge & Hk).
      { split; [apply Z.div_pos; lia|].
        apply Z.div_lt_upper_bound; lia. }
      exists (S k). rewrite Hrun. split; [f_equal; lia|].
      rewrite Nat2Z.inj_succ, Z.pow_succ_r by lia.
      split.
      { pose proof (Z.div_mod number 10 ltac:(lia)).
        pose proof (Z.mod_pos_bound number 10 ltac:(lia)). lia. }
      split; [|congruence].
      intros _. replace (Z.succ (Z.of_nat k) - 1) with (Z.of_nat k) by lia.
      destruct k as [|k].
      * cbn. lia.
      * specialize (Hge ltac:(congruence)).
        rewrite Nat2Z.inj_succ, Z.pow_succ_r by lia.
        replace (Z.of_nat (S k) - 1) with (Z.of_nat k) in Hge by lia.
        pose proof (Z.div_mod number 10 ltac:(lia)).
        pose proof (Z.mod_pos_bound number 10 ltac:(lia)). lia.
Qed.

Lemma write_digits_spec count divisor number required_size string :
  0 <= divisor ->
  Z.of_nat count + divisor <= required_size ->
  required_size <= Z.of_nat (List.length string) ->
  write_digits count divisor number required_size string
  = firstn (Z.to_nat (required_size - divisor) - count) string
    ++ decimal_digits_of count number
    ++ skipn (Z.to_nat (required_size - divisor)) string.
Proof.
  revert divisor number string.
  induction count as [|count IH]; intros divisor number string Hd Hlo Hhi.
  - cbn [write_digits decimal_digits_of app]. rewrite Nat.sub_0_r.
    now rewrite firstn_skipn.
  - cbn [write_digits decimal_digits_of].
    rewrite IH by (rewrite ?length_store; lia).
    replace (Z.to_nat (required_size - (divisor + 1)))
      with (Z.to_nat (required_size - divisor) - 1)%nat by lia.
    rewrite firstn_store by lia.
    rewrite skipn_store_at by lia.
    replace (S (Z.to_nat (required_size - divisor) - 1))
      with (Z.to_nat (required_size - divisor)) by lia.
    replace (Z.to_nat (required_size - divisor) - 1 - count)%nat
      with (Z.to_nat (required_size - divisor) - S count)%nat by lia.
    rewrite <- !app_assoc. reflexivity.
Qed.

Lemma digit_value_char_of r :
  0 <= r <= 9 -> digit_value (char_of (r + 48)) = r.
Proof.
  intros Hr. unfold digit_value, char_of.
  rewrite Z.mod_small by lia.
  rewrite N_ascii_embedding by lia. lia.
Qed.

Lemma length_decimal_digits_of count n :
  List.length (decimal_digits_of count n) = count.
Proof.
  revert n. induction count as [|count IH]; intros n; cbn [decimal_digits_of];
    [reflexivity|].
  rewrite length_app, IH. cbn. lia.
Qed.

Lemma decimal_digits_of_digits count n :
  0 <= n -> forallb is_digit (decimal_digits_of count n) = true.
Proof.
  revert n. induction count as [|count IH]; intros n Hn; cbn [decimal_digits_of];
    [reflexivity|].
  rewrite forallb_app, IH by (apply Z.quot_pos; lia).
  cbn [forallb]. unfold is_digit.
  rewrite Z.rem_mod_nonneg by lia.
  pose proof (Z.mod_pos_bound n 10 ltac:(lia)).
  rewrite digit_value_char_of by lia.
  destruct (Z.leb_spec 0 (n mod 10)), (Z.leb_spec (n mod 10) 9);
    solve [reflexivity | lia].
Qed.

Lemma decimal_value_digits count n acc :
  0 <= n ->
  fold_left (fun acc c => acc * 10 + digit_value c)
            (decimal_digits_of count n) acc
  = acc * 10 ^ Z.of_nat count + n mod 10 ^ Z.of_nat count.
Proof.
  revert n acc. induction count as [|count IH]; intros n acc Hn.
  - cbn [decimal_digits_of fold_left Z.of_nat].
    rewrite Z.pow_0_r, Z.mod_1_r. lia.
  - cbn [decimal_digits_of]. rewrite fold_left_app, IH by (apply Z.quot_pos; lia).
    cbn [fold_left].
    rewrite Z.rem_mod_nonneg, Z.quot_div_nonneg by lia.
    rewrite digit_value_char_of by (pose proof (Z.mod_pos_bound n 10); lia).
    rewrite Nat2Z.inj_succ, Z.pow_succ_r by lia.
    rewrite (Z.rem_mul_r n 10 (10 ^ Z.of_nat count)) by lia.
    lia.
Qed.

Lemma decimal_digits_of_head count n :
  10 ^ Z.of_nat count <= n < 10 ^ Z.of_nat (S count) ->
  exists c rest,
    decimal_digits_of (S count) n = c :: rest
    /\ Ascii.eqb c "0"%char = false.
Proof.
  revert n. induction count as [|count IH]; intros n Hn.
  - cbn in Hn. cbn [decimal_digits_of app].
    eexists _, []. split; [reflexivity|].
    apply Ascii.eqb_neq. intros E.
    apply (f_equal digit_value) in E.
    rewrite Z.rem_mod_nonneg, Z.mod_small in E by lia.
    rewrite digit_value_char_of in E by lia.
    cbn in E. lia.
  - rewrite !Nat2Z.inj_succ, !Z.pow_succ_r in Hn by lia.
    destruct (IH (Z.quot n 10)) as (c & rest & Hd & Hc).
    { rewrite Nat2Z.inj_succ, Z.pow_succ_r by lia.
      rewrite Z.quot_div_nonneg by lia.
      split.
      - apply Z.div_le_lower_bound; lia.
      - apply Z.div_lt_upper_bound; lia. }
    change (decimal_digits_of (S (S count)) n)
      with (decimal_digits_of (S count) (Z.quot n 10)
            ++ [char_of (Z.rem n 10 + 48)]).
    rewrite Hd. eexists c, _. split; [reflexivity|exact Hc].
Qed.

Lemma decimal_digits_of_numeral (k : nat) n :
  k <> O -> 10 ^ (Z.of_nat k - 1) <= n < 10 ^ Z.of_nat k ->
  is_numeral (decimal_digits_of k n) = true
  /\ decimal_value (decimal_digits_of k n) = n.
Proof.
  intros Hk Hn. destruct k as [|k]; [congruence|].
  replace (Z.of_nat (S k) - 1) with (Z.of_nat k) in Hn by lia.
  assert (H0 : 0 <= n).
  { pose proof (Z.pow_pos_nonneg 10 (Z.of_nat k) ltac:(lia) ltac:(lia)). lia. }
  split.
  - unfold is_numeral. rewrite decimal_digits_of_digits by assumption.
    destruct (decimal_digits_of_head k n Hn) as (c & rest & -> & Hc).
    cbn [andb]. destruct rest; [reflexivity|]. now rewrite Hc.
  - unfold decimal_value. rewrite decimal_value_digits by assumption.
    rewrite Z.mod_small by lia. lia.
Qed.

Lemma store_first (string : list ascii) v :
  (1 <= List.length string)%nat ->
  store string 0 v = v :: skipn 1 string.
Proof. destruct string; cbn; [lia|reflexivity]. Qed.

Lemma store_after (pre post : list ascii) v n :
  List.length pre = n ->
  (1 <= List.length post)%nat ->
  store (pre ++ post) n v = pre ++ v :: skipn 1 post.
Proof.
  intros <- Hp. induction pre as [|x pre IH]; cbn [app List.length store].
  - now apply store_first.
  - now rewrite IH.
Qed.

Lemma to_string_spec (T : integral) fuel number string max_size null_terminate :
  in_range T number ->
  in_range T (Z.abs number) ->
  (Z.to_nat (bits_of T) < fuel)%nat ->
  max_size <= Z.of_nat (List.length string) ->
  exists text,
    parse_decimal text = Some number
    /\ to_string T fuel number string max_size null_terminate
       = Some (if Z.of_nat (List.length text) + b2z null_terminate <=? max_size
               then (Z.of_nat (List.length text)
                     + (if (number =? 0) && null_terminate then 1 else 0),
                     text ++ (if null_terminate then [zero] else [])
                     ++ skipn (List.length text
                               + (if null_terminate then 1 else 0)) string)
               else (0, string)).
Proof.
  intros Hrange Habs Hfuel Hbuf. unfold to_string.
  destruct (Z.eqb_spec number 0) as [->|Hnz].
  - exists ["0"%char]. split; [reflexivity|].
    cbn [List.length Z.of_nat andb]. f_equal.
    destruct null_terminate; cbn [b2z].
    + rewrite Z.geb_leb.
      destruct (Z.leb_spec 2 max_size) as [Hroom|Hsmall];
        destruct (Z.leb_spec (Z.pos (Pos.of_succ_nat 0) + 1) max_size);
        try lia; [|reflexivity].
      f_equal.
      destruct string as [|c0 [|c1 string]]; cbn [List.length] in Hbuf; try lia.
      reflexivity.
    + rewrite Z.geb_leb.
      destruct (Z.leb_spec 1 max_size) as [Hroom|Hsmall];
        destruct (Z.leb_spec (Z.pos (Pos.of_succ_nat 0) + 0) max_size);
        try lia; [|reflexivity].
      f_equal.
      destruct string as [|c0 string]; cbn [List.length] in Hbuf; try lia.
      reflexivity.
  - cbn [andb].
    assert (Hbits : 0 <= bits_of T).
    { destruct (Z.leb_spec 0 (bits_of T)) as [|Hneg]; [assumption|exfalso].
      unfold in_range in Hrange.
      destruct (is_signed T).
      - rewrite (Z.pow_neg_r 2 (bits_of T - 1)) in Hrange by lia. lia.
      - rewrite (Z.pow_neg_r 2 (bits_of T)) in Hrange by lia. lia. }
    assert (Hmag : 0 < Z.abs number < 10 ^ Z.of_nat (Nat.pred fuel)).
    { split; [lia|].
      apply Z.lt_le_trans with (2 ^ bits_of T).
      - unfold in_range in Habs. destruct (is_signed T); [|lia].
        apply Z.lt_trans with (2 ^ (bits_of T - 1)); [lia|].
        destruct (Z.eq_dec (bits_of T) 0) as [E|N].
        + rewrite E in *. cbn in Habs. lia.
        + apply Z.pow_lt_mono_r; lia.
      - apply Z.le_trans with (10 ^ bits_of T).
        + apply Z.pow_le_mono_l. lia.
        + apply Z.pow_le_mono_r; lia. }
    assert (Hwrap : number < 0 -> wrap_as T (- number) = - number).
    { intros Hneg. unfold wrap_as. unfold in_range in Habs.
      rewrite Z.abs_neq in Habs by lia.
      destruct (is_signed T).
      - destruct (Z.eq_dec (bits_of T) 0) as [E|N].
        + rewrite E in Habs. cbn in Habs. lia.
        + assert (Hpow : 2 ^ bits_of T = 2 * 2 ^ (bits_of T - 1)).
          { rewrite <- Z.pow_succ_r by lia. f_equal. lia. }
          rewrite Z.mod_small; lia.
      - apply Z.mod_small. lia. }
    assert (Hsplit :
      (if number <? 0 then (true, wrap_as T (- number), 1)
       else (false, number, 0))
      = (number <? 0, Z.abs number, b2z (number <? 0))).
    { destruct (Z.ltb_spec number 0) as [Hneg|Hpos]; cbn [b2z].
      - rewrite Hwrap by assumption. now rewrite Z.abs_neq by lia.
      - now rewrite Z.abs_eq by lia. }
    rewrite Hsplit. cbv zeta.
    set (neg := number <? 0).
    destruct fuel as [|fuel]; [lia|]. cbn [Nat.pred] in Hmag.
    destruct (count_digits_spec fuel (Z.abs number) (b2z neg) ltac:(lia))
      as (k & Hcount & Hlt & Hge & Hk).
    rewrite Hcount.
    specialize (Hge (Hk ltac:(lia))). specialize (Hk ltac:(lia)).
    destruct (decimal_digits_of_numeral k (Z.abs number) Hk ltac:(lia))
      as [Hnum Hval].
    exists ((if neg then ["-"%char] else [])
            ++ decimal_digits_of k (Z.abs number)).
    split.
    { subst neg. destruct (Z.ltb_spec number 0) as [Hneg|Hpos]; cbn [app].
      - cbn [parse_decimal]. rewrite Ascii.eqb_refl, Hnum, Hval.
        f_equal. lia.
      - destruct (decimal_digits_of k (Z.abs number)) as [|c rest] eqn:Hd.
        + discriminate.
        + cbn [parse_decimal].
          assert (Hc : is_digit c = true).
          { unfold is_numeral in Hnum. cbn [forallb] in Hnum.
            apply andb_true_iff in Hnum as [Hall _].
            now apply andb_true_iff in Hall as [Hc _]. }
          destruct (Ascii.eqb_spec c "-"%char) as [->|_]; [discriminate|].
          rewrite Hnum, Hval. f_equal. lia. }
    f_equal.
    assert (Hlen : Z.of_nat (List.length
                     ((if neg then ["-"%char] else [])
                      ++ decimal_digits_of k (Z.abs number)))
                   = b2z neg + Z.of_nat k).
    { rewrite length_app, length_decimal_digits_of.
      destruct neg; cbn [List.length b2z]; lia. }
    rewrite Hlen. rewrite Z.gtb_ltb.
    destruct (Z.ltb_spec max_size (b2z neg + Z.of_nat k + b2z null_terminate))
      as [Hsmall|Hroom];
      destruct (Z.leb_spec (b2z neg + Z.of_nat k + b2z null_terminate) max_size);
      try lia; [reflexivity|].
    f_equal. f_equal; [lia|].
    replace (b2z neg + Z.of_nat k - b2z neg) with (Z.of_nat k) by lia.
    rewrite Nat2Z.id.
    rewrite write_digits_spec by
      (destruct neg, null_terminate; cbn [b2z] in *; lia).
    replace (Z.to_nat (b2z neg + Z.of_nat k - 0) - k)%nat
      with (if neg then 1%nat else 0%nat)
      by (destruct neg; cbn [b2z]; lia).
    replace (Z.to_nat (b2z neg + Z.of_nat k - 0))
      with ((if neg then 1 else 0) + k)%nat
      by (destruct neg; cbn [b2z]; lia).
    replace (Z.to_nat (b2z neg + Z.of_nat k))
      with ((if neg then 1 else 0) + k)%nat
      by (destruct neg; cbn [b2z]; lia).
    assert (Hl : List.length ((if neg then ["-"%char] else [])
                              ++ decimal_digits_of k (Z.abs number))
                 = ((if neg then 1 else 0) + k)%nat)
      by (rewrite length_app, length_decimal_digits_of; destruct neg; reflexivity).
    rewrite Hl.
    set (digits := decimal_digits_of k (Z.abs number)) in *.
    assert (Hdl : List.length digits = k) by apply length_decimal_digits_of.
    assert (Hsign :
      (if neg
       then store (firstn 1 string ++ digits ++ skipn (1 + k) string) 0 "-"%char
       else firstn 0 string ++ digits ++ skipn (0 + k) string)
      = ((if neg then ["-"%char] else []) ++ digits)
        ++ skipn ((if neg then 1 else 0) + k) string).
    { destruct neg; cbn [b2z] in *; [|reflexivity].
      destruct string as [|c0 string];
        [cbn [List.length] in Hbuf; destruct null_terminate; cbn [b2z] in *; lia|].
      reflexivity. }
    destruct neg; cbn [b2z] in *.
    + rewrite Hsign.
      destruct null_terminate; cbn [b2z] in *.
      * rewrite (store_after _ _ _ _ Hl) by (rewrite length_skipn; lia).
        rewrite skipn_skipn. rewrite <- app_assoc. cbn [app].
        repeat first [lia | f_equal].
      * rewrite Nat.add_0_r. now rewrite <- app_assoc.
    + rewrite Hsign.
      destruct null_terminate; cbn [b2z] in *.
      * rewrite (store_after _ _ _ _ Hl) by (rewrite length_skipn; lia).
        rewrite skipn_skipn. rewrite <- app_assoc. cbn [app].
        repeat first [lia | f_equal].
      * rewrite Nat.add_0_r. now rewrite <- app_assoc.
Qed.

(** X26: [to_string] writes the decimal numeral of the number, with
    its sign, and a [0] behind it if asked for; read back, the text is
    the number.  With room for it the text is in the buffer, nothing
    behind it is touched, and the returned size is the length of the
    text, except that for the number 0 it counts the terminator too;
    without room the buffer is untouched and 0 is returned. *)
Theorem to_string_round_trip (T : integral) fuel number string max_size
  null_terminate :
  in_range T number ->
  in_range T (Z.abs number) ->
  (Z.to_nat (bits_of T) < fuel)%nat ->
  max_size <= Z.of_nat (List.length string) ->
  exists text size string',
    to_string T fuel number string max_size null_terminate
    = Some (size, string')
    /\ parse_decimal text = Some number
    /\ (Z.of_nat (List.length text) + b2z null_terminate <= max_size ->
        size = Z.of_nat (List.length text)
               + (if (number =? 0) && null_terminate then 1 else 0)
        /\ string' = text ++ (if null_terminate then [zero] else [])
                     ++ skipn (List.length text
                               + (if null_terminate then 1 else 0)) string)
    /\ (max_size < Z.of_nat (List.length text) + b2z null_terminate ->
        size = 0 /\ string' = string).
Proof.
  intros Hrange Habs Hfuel Hbuf.
  destruct (to_string_spec T fuel number string max_size null_terminate
              Hrange Habs Hfuel Hbuf) as (text & Hparse & Hrun).
  destruct (Z.leb_spec (Z.of_nat (List.length text) + b2z null_terminate)
              max_size) as [Hroom|Hsmall].
  - eexists text, _, _. split; [exact Hrun|]. split; [exact Hparse|].
    split; [now split|]. lia.
  - eexists text, _, _. split; [exact Hrun|]. split; [exact Hparse|].
    split; [lia|now split].
Qed.

(** X27: [to_string] stays inside the [max_size] characters it was
    given: the size it returns is at most [max_size], the buffer keeps
    its length, and every character at or behind [max_size] is as it
    was (for every number but the most negative value of a signed
    type, whose negation overflows). *)
Theorem to_string_in_bounds (T : integral) fuel number string max_size
  null_terminate :
  in_range T number ->
  in_range T (Z.abs number) ->
  (Z.to_nat (bits_of T) < fuel)%nat ->
  0 <= max_size <= Z.of_nat (List.length string) ->
  exists size string',
    to_string T fuel number string max_size null_terminate
    = Some (size, string')
    /\ 0 <= size <= max_size
    /\ List.length string' = List.length string
    /\ (forall i, max_size <= Z.of_nat i ->
                  nth i string' zero = nth i string zero).
Proof.
  intros Hrange Habs Hfuel [Hmax Hbuf].
  destruct (to_string_spec T fuel number string max_size null_terminate
              Hrange Habs Hfuel Hbuf) as (text & Hparse & Hrun).
  destruct (Z.leb_spec (Z.of_nat (List.length text) + b2z null_terminate)
              max_size) as [Hroom|Hsmall].
  2: { eexists _, _. split; [exact Hrun|]. split; [lia|]. now split. }
  eexists _, _. split; [exact Hrun|].
  set (n := (List.length text + (if null_terminate then 1 else 0))%nat) in *.
  assert (Hn : Z.of_nat n = Z.of_nat (List.length text) + b2z null_terminate)
    by (subst n; destruct null_terminate; cbn [b2z]; lia).
  assert (Hpre : List.length (text ++ (if null_terminate then [zero] else []))
                 = n)
    by (subst n; rewrite length_app; destruct null_terminate; reflexivity).
  split.
  { destruct ((number =? 0) && null_terminate) eqn:E; [|lia].
    apply andb_true_iff in E as [_ ->]. cbn [b2z] in *. lia. }
  rewrite app_assoc. split.
  - rewrite length_app, Hpre, length_skipn. lia.
  - intros i Hi. rewrite app_nth2 by lia. rewrite Hpre.
    rewrite nth_skipn. f_equal. lia.
Qed.

End DecimalString.

(** * Instances of the properties *)

Lemma Less_strict_weak_order : strict_weak_order Utilities.Less.
Proof.
  unfold Utilities.Less. repeat split.
  - intros x. apply Z.ltb_irrefl.
  - intros x y z Hxy Hyz. apply Z.ltb_lt in Hxy, Hyz. apply Z.ltb_lt. lia.
  - intros x y z Hxy Hyz. apply Z.ltb_ge in Hxy, Hyz. apply Z.ltb_ge. lia.
Qed.

Lemma set_memory_range_witness :
  Utilities.set_memory 10 4 255 (fun _ => 7) 12 = 255
  /\ Utilities.zero_memory 10 4 (fun _ => 7) 12 = 0.
Proof. apply (set_memory_range 10 4 255 (fun _ => 7) 12). lia. Defined.

Lemma move_memory_overlap_safe_witness :
  Utilities.move_memory 0 2 4 (fun q => q) (2 + 3) = 0 + 3.
Proof.
  apply (proj1 (move_memory_overlap_safe 0 2 4 (fun q => q) ltac:(lia)) 3).
  lia.
Defined.

Lemma copy_memory_forward_witness :
  Utilities.copy_memory 0 2 4 (fun q => q) (2 + 3) = 1.
Proof. apply (copy_memory_forward 0 2 4 (fun q => q) 3). lia. Defined.

Lemma real_mode_address_or_witness :
  Utilities.real_mode_address 0x1234 0x0005 = 0x1234 * 16 + 0x0005.
Proof.
  apply (real_mode_address_or 0x1234 0x0005); [lia|lia|lia].
Defined.

Lemma lower_bound_finds_witness :
  exists r,
    Utilities.lower_bound 0 Utilities.Less 5 [1; 3; 5; 7] 5 = Some r
    /\ 0 <= r < 4
    /\ equivalent Utilities.Less (nth (Z.to_nat r) [1; 3; 5; 7] 0) 5.
Proof.
  apply (lower_bound_finds 0 Utilities.Less Less_strict_weak_order
           [1; 3; 5; 7] 5 5).
  - repeat constructor.
  - cbn. lia.
  - exists 5. split; [cbn; tauto|split; reflexivity].
Defined.

Lemma lower_bound_insertion_point_witness :
  exists r,
    Utilities.lower_bound 0 Utilities.Less 5 [1; 3; 5; 7] 4 = Some r
    /\ 0 <= r <= 4
    /\ (forall i, 0 <= i < r ->
          Utilities.Less (nth (Z.to_nat i) [1; 3; 5; 7] 0) 4 = true)
    /\ (forall i, r <= i < 4 ->
          Utilities.Less 4 (nth (Z.to_nat i) [1; 3; 5; 7] 0) = true).
Proof.
  apply (lower_bound_insertion_point 0 Utilities.Less Less_strict_weak_order
           [1; 3; 5; 7] 4 5).
  - repeat constructor.
  - cbn. lia.
  - intros x Hx [H1 H2]. unfold Utilities.Less in *.
    apply Z.ltb_ge in H1, H2. cbn in Hx. lia.
Defined.

Lemma insertion_sort_sorts_witness :
  ascending Utilities.Less (Utilities.insertion_sort 0 Utilities.Less [3; 1; 2])
  /\ Permutation [3; 1; 2]
       (Utilities.insertion_sort 0 Utilities.Less [3; 1; 2]).
Proof.
  apply (insertion_sort_sorts 0 Utilities.Less Less_strict_weak_order).
Defined.

Lemma to_hex_string_round_trip_witness :
  exists text,
    Conversions.to_hex_string
      {| Conversions.sizeof := 2; Conversions.is_signed := false |}
      0xBEEF (repeat "."%char 8) 7 true
    = (6, text ++ [zero] ++ skipn 7 (repeat "."%char 8))
    /\ Z.of_nat (List.length text) = 6
    /\ parse_hex text = Some 0xBEEF.
Proof.
  apply (to_hex_string_round_trip
           {| Conversions.sizeof := 2; Conversions.is_signed := false |}
           0xBEEF (repeat "."%char 8) 7 true).
  - cbn. lia.
  - cbn. lia.
  - cbn. lia.
Defined.

Lemma to_string_round_trip_witness :
  exists text size string',
    Conversions.to_string
      {| Conversions.sizeof := 4; Conversions.is_signed := true |}
      33 (-42) (repeat "."%char 8) 8 true
    = Some (size, string')
    /\ parse_decimal text = Some (-42).
Proof.
  destruct (to_string_round_trip
              {| Conversions.sizeof := 4; Conversions.is_signed := true |}
              33 (-42) (repeat "."%char 8) 8 true)
    as (text & size & string' & Hrun & Hparse & _).
  - unfold Conversions.in_range. cbn. lia.
  - unfold Conversions.in_range. cbn. lia.
  - cbn. lia.
  - cbn. lia.
  - exists text, size, string'. split; assumption.
Defined.

Lemma to_string_in_bounds_witness :
  exists size string',
    Conversions.to_string
      {| Conversions.sizeof := 4; Conversions.is_signed := true |}
      33 (-42) (repeat "."%char 8) 3 true
    = Some (size, string')
    /\ 0 <= size <= 3
    /\ List.length string' = 8%nat.
Proof.
  destruct (to_string_in_bounds
              {| Conversions.sizeof := 4; Conversions.is_signed := true |}
              33 (-42) (repeat "."%char 8) 3 true)
    as (size & string' & Hrun & Hsize & Hlen & _).
  - unfold Conversions.in_range. cbn. lia.
  - unfold Conversions.in_range. cbn. lia.
  - cbn. lia.
  - cbn. lia.
  - exists size, string'. repeat split; try assumption; lia.
Defined.
